(** * Taktician: the minimax searcher and its static evaluator

    A shallow embedding of the [ai] package (the evaluator of
    [ai/evaluate.go] and the two revisions of the alpha-beta driver), over
    an abstract Tak rule engine, with the properties of the search
    specification stated and settled against it.

    Conventions.
    - Go's [int], [int64] and [time.Duration] are [Z] with the two's
      complement wrap-around written as [wrap64]; [uint64] bitboards and
      hashes are non-negative [Z].
    - A Go panic (index out of range, explicit [panic]) is [None] in the
      [option] monad; a rule-engine error ([p.Move] returning [e != nil]) is
      [None] of [pMove] and is never a panic.
    - The searcher [*MinimaxAI] is threaded explicitly as a record.
    - [depth] and [ply] are [nat]: [Analyze] only passes [i+base >= 1], the
      recursion subtracts one per level and stops at [depth == 0].
    - The [Stats] counters are [uint64] in the source and only ever
      incremented; they are [N] here (a search that evaluates [2^64] nodes
      does not finish), so the divisor [prevEval+1] of [Analyze] is never 0. *)

From Stdlib Require Import ZArith Lia Bool.
From stdpp Require Import base option list gmap.

Local Open Scope Z_scope.

(** ** Machine integers *)

Definition wrap64 (z : Z) : Z := (z + 2^63) mod 2^64 - 2^63.
Definition add64 (a b : Z) : Z := wrap64 (a + b).
Definition sub64 (a b : Z) : Z := wrap64 (a - b).
Definition mul64 (a b : Z) : Z := wrap64 (a * b).
Definition neg64 (a : Z) : Z := wrap64 (- a).
Definition u64 (z : Z) : Z := z mod 2^64.
Definition int64_range (z : Z) : Prop := - 2^63 <= z < 2^63.

Lemma wrap64_id z : int64_range z -> wrap64 z = z.
Proof.
  unfold int64_range, wrap64. intros H.
  rewrite Z.mod_small by lia. lia.
Qed.


(** ** The rule engine's data ([tak] package, outside this package) *)

Module tak.
Inductive Color := White | Black | NoColor.

Definition Color_eqb (a b : Color) : bool :=
    match a, b with
    | White, White | Black, Black | NoColor, NoColor => true
    | _, _ => false
    end.

Lemma Color_eqb_eq a b : Color_eqb a b = true <-> a = b.
Proof. destruct a, b; simpl; split; congruence. Qed.

  (** [tak.Move]: board coordinates, the kind tag (a byte) and the drops
      of a slide. *)
Record Move := mkMove { X : Z; Y : Z; Typ : Z; Slides : list Z }.

  (** The zero value of the struct. *)
Definition zeroMove : Move := mkMove 0 0 0 [].
End tak.

Import tak.

(** The operations the searcher and the evaluator use from the rule
    engine, from the [bitboard] package and from [math/rand].  None of them
    is defined in this package; they are the interface the code is written
    against. *)
Record Engine := {
  Position : Type;
  Size : Position -> Z;
  ToMove : Position -> Color;
  MoveNumber : Position -> Z;
  Hash : Position -> Z;
  GameOver : Position -> bool * Color;
  AllMoves : Position -> list Move;
  (** [p.Move(&m)]: the child position, or [None] when the engine reports
      an error. *)
  pMove : Position -> Move -> option Position;
  WhiteStones : Position -> Z;
  BlackStones : Position -> Z;
  (** direct fields of [tak.Position] read by the evaluator *)
  pWhite : Position -> Z;
  pBlack : Position -> Z;
  pCaps : Position -> Z;
  pStanding : Position -> Z;
  pHeight : Position -> list Z;
  pStacks : Position -> list Z;
  (** [p.Analysis()] *)
  WhiteGroups : Position -> list Z;
  BlackGroups : Position -> list Z;
  (** [Move.Equal] and the first slide kind *)
  Equal : Move -> Move -> bool;
  SlideLeft : Z;
  (** [bitboard] *)
  Constants : Type;
  Precompute : Z -> Constants;
  Popcount : Z -> Z;
  Grow : Constants -> Z -> Z -> Z;
  Dimensions : Constants -> Z -> Z * Z;
  (** [math/rand]: [rand.New(rand.NewSource(seed))] and [Int31n] *)
  Rand : Type;
  NewSource : Z -> Rand;
  Int31n : Rand -> Z -> Z * Rand
}.

(** ** Constants of the package *)

Definition maxEval : Z := Z.shiftl 1 30.
Definition minEval : Z := - maxEval.
Definition WinThreshold : Z := Z.shiftl 1 29.
Definition tableSize : Z := Z.shiftl 1 20.

(** ** ai/evaluate.go *)

Record Weights := {
  TopFlat : Z;
  Standing : Z;
  Capstone : Z;
  Flat : Z;
  Captured : Z;
  Liberties : Z;
  Tempo : Z;
  Groups : list Z   (* [8]int *)
}.

Definition DefaultWeights : Weights := {|
  TopFlat := 400;
  Standing := 200;
  Capstone := 300;
  Flat := 100;
  Liberties := 20;
  Captured := 25;
  Tempo := 250;
  Groups := [0; 0; 0; 100; 300; 500; 0; 0]
|}.

(** [ws.Groups[w]]: indexing the array panics outside [0..7]. *)
Definition groupWeight (ws : Weights) (i : Z) : option Z :=
  if (i <? 0) || (8 <=? i) then None else Groups ws !! Z.to_nat i.

Section Evaluate.
Context (E : Engine).

  (** [func (ai *MinimaxAI) scoreGroups(gs []uint64, ws *Weights) int] *)
Fixpoint scoreGroupsFrom (c : Constants E) (ws : Weights) (sc : Z)
      (gs : list Z) : option Z :=
    match gs with
    | [] => Some sc
    | g :: gs' =>
        let '(w, h) := Dimensions E c g in
        gw ← groupWeight ws w;
        gh ← groupWeight ws h;
        scoreGroupsFrom c ws (add64 (add64 sc gw) gh) gs'
    end.

Definition scoreGroups (c : Constants E) (gs : list Z) (ws : Weights) : option Z :=
    scoreGroupsFrom c ws 0 gs.

  (** The body of [for i, h := range p.Height], on the pair [(ws, bs)]. *)
Definition stackStep (w : Weights) (p : Position E) (i : nat) (h : Z)
      (acc : Z * Z) : option (Z * Z) :=
    let '(ws, bs) := acc in
    if h <=? 1 then Some acc
    else
      st ← pStacks E p !! i;
      let s := Z.land st (u64 (u64 (Z.shiftl 1 (h - 1)) - 1)) in
      let bf := Popcount E s in
      let wf := sub64 (sub64 h bf) 1 in
      let ws := add64 ws (mul64 wf (Flat w)) in
      let bs := add64 bs (mul64 bf (Flat w)) in
      let captured := h - 1 in
      let captured :=
        if sub64 (Size E p) 1 <? captured then sub64 (Size E p) 1 else captured in
      if negb (Z.land (pWhite E p) (u64 (Z.shiftl 1 (Z.of_nat i))) =? 0)
      then Some (add64 ws (mul64 captured (Captured w)), bs)
      else Some (ws, add64 bs (mul64 captured (Captured w))).

Fixpoint stackLoop (w : Weights) (p : Position E) (i : nat) (hs : list Z)
      (acc : Z * Z) : option (Z * Z) :=
    match hs with
    | [] => Some acc
    | h :: hs' =>
        acc' ← stackStep w p i h acc;
        stackLoop w p (S i) hs' acc'
    end.

Definition u64not (x : Z) : Z := Z.lxor x (Z.ones 64).

  (** [func evaluate(w *Weights, m *MinimaxAI, p *tak.Position) int64];
      of [m] only the precomputed bitboard constants [m.c] are read. *)
Definition evaluate (w : Weights) (c : Constants E) (p : Position E) : option Z :=
    let '(over, winner) := GameOver E p in
    if over then
      let pieces :=
        match winner with
        | White => WhiteStones E p
        | _ => BlackStones E p
        end in
      match winner with
      | NoColor => Some 0
      | _ =>
          if Color_eqb winner (ToMove E p)
          then Some (add64 (sub64 maxEval (MoveNumber E p)) pieces)
          else Some (sub64 (add64 minEval (MoveNumber E p)) pieces)
      end
    else
      let ws := 0 in
      let bs := 0 in
      let '(ws, bs) :=
        match ToMove E p with
        | White => (add64 ws (Tempo w), bs)
        | _ => (ws, add64 bs (Tempo w))
        end in
      let W := pWhite E p in
      let B := pBlack E p in
      let C := pCaps E p in
      let S := pStanding E p in
      let ws := add64 ws (mul64 (Popcount E (Z.ldiff (Z.ldiff W C) S)) (TopFlat w)) in
      let bs := add64 bs (mul64 (Popcount E (Z.ldiff (Z.ldiff B C) S)) (TopFlat w)) in
      let ws := add64 ws (mul64 (Popcount E (Z.land W S)) (Standing w)) in
      let bs := add64 bs (mul64 (Popcount E (Z.land B S)) (Standing w)) in
      let ws := add64 ws (mul64 (Popcount E (Z.land W C)) (Capstone w)) in
      let bs := add64 bs (mul64 (Popcount E (Z.land B C)) (Capstone w)) in
      '(ws, bs) ← stackLoop w p 0 (pHeight E p) (ws, bs);
      wg ← scoreGroups c (WhiteGroups E p) w;
      let ws := add64 ws wg in
      bg ← scoreGroups c (BlackGroups E p) w;
      let bs := add64 bs bg in
      let wr := Z.ldiff W S in
      let br := Z.ldiff B S in
      let wl := Popcount E (Z.ldiff (Grow E c (u64not B) wr) wr) in
      let bl := Popcount E (Z.ldiff (Grow E c (u64not W) br) br) in
      let ws := add64 ws (mul64 (Liberties w) wl) in
      let bs := add64 bs (mul64 (Liberties w) bl) in
      match ToMove E p with
      | White => Some (sub64 ws bs)
      | _ => Some (sub64 bs ws)
      end.

  (** [EvaluationFunc]: [func(m *MinimaxAI, p *tak.Position) int64]. *)
Definition EvaluationFunc : Type := Constants E -> Position E -> option Z.

Definition MakeEvaluator (w : Weights) : EvaluationFunc :=
    fun c p => evaluate w c p.

Definition DefaultEvaluate : EvaluationFunc := MakeEvaluator DefaultWeights.
End Evaluate.

(** ** Shared pieces of the two revisions of [minimax.go] *)

Inductive boundType := lowerBound | exactBound | upperBound.

Definition boundType_eqb (a b : boundType) : bool :=
  match a, b with
  | lowerBound, lowerBound | exactBound, exactBound | upperBound, upperBound => true
  | _, _ => false
  end.

Lemma boundType_eqb_eq a b : boundType_eqb a b = true <-> a = b.
Proof. destruct a, b; simpl; split; congruence. Qed.

(** [h % tableSize] *)
Definition slot (h : Z) : Z := h `mod` tableSize.

(** [moves[i], moves[j] = moves[j], moves[i]]; indexing out of range
    panics. *)
Definition swap (i j : nat) (l : list Move) : option (list Move) :=
  a ← l !! i;
  b ← l !! j;
  Some (<[i := b]> (<[j := a]> l)).

(** [best[1:]], taken only when [len(best) != 0]; [nil] otherwise. *)
Definition tailpv (best : list Move) : list Move :=
  match best with
  | [] => []
  | _ :: t => t
  end.

(** [time.Time.Sub]: the difference saturates at the extreme durations. *)
Definition maxDuration : Z := 2^63 - 1.
Definition minDuration : Z := - 2^63.
Definition timeSub (t u : Z) : Z :=
  let d := t - u in
  if maxDuration <? d then maxDuration
  else if d <? minDuration then minDuration
  else d.

(** [time.Now()] is the [k]-th reading of a clock [nat -> Z], in
    nanoseconds; [Unix()] rounds it down to seconds. *)
Definition Clock : Type := nat -> Z.
Definition unixSeconds (t : Z) : Z := t `div` 1000000000.

Definition wrap32 (z : Z) : Z := (z + 2^31) mod 2^32 - 2^31.

(** ** The revision whose table entries carry the principal variation

    The alpha-beta driver with [tableEntry.ms []tak.Move], the shuffle and
    the move reordering written inline in [minimax], and a full window for
    every child. *)

Module TablePV.

Module Stats.
Record t := mk {
    Depth : Z;
    Generated : N;
    Evaluated : N;
    Visited : N;
    CutNodes : N;
    Cut0 : N;
    CutSearch : N;
    AllNodes : N;
    TTHits : N
  }.
  (** [Stats{Depth: d}] *)
Definition fresh (d : Z) : t := mk d 0 0 0 0 0 0 0 0.
End Stats.

Module tableEntry.
  (** The field [p *tak.Position] is written and read under [debugTable]
      only, which is the constant [false]. *)
Record t := mk {
    hash : Z;
    depth : nat;
    value : Z;
    bound : boundType;
    ms : list Move
  }.
Definition zero : t := mk 0 0 0 lowerBound [].
End tableEntry.

Module MinimaxConfig.
Record t (E : Engine) := mk {
    Size : Z;
    Depth : Z;
    Debug : Z;
    Seed : Z;
    Evaluate : option (EvaluationFunc E)
  }.
Arguments mk {E}.
Arguments Size {E}.
Arguments Depth {E}.
Arguments Debug {E}.
Arguments Seed {E}.
Arguments Evaluate {E}.
End MinimaxConfig.

Module MinimaxAI.
  (** [rand] is [nil] until [Analyze] seeds it; [regions] is never used. *)
Record t (E : Engine) := mk {
    cfg : MinimaxConfig.t E;
    rand : option (Rand E);
    st : Stats.t;
    c : Constants E;
    evaluate : EvaluationFunc E;
    table : gmap Z tableEntry.t
  }.
Arguments mk {E}.
Arguments cfg {E}.
Arguments rand {E}.
Arguments st {E}.
Arguments c {E}.
Arguments evaluate {E}.
Arguments table {E}.
End MinimaxAI.

Section Search.
Context {E : Engine}.
Abbreviation AI := (MinimaxAI.t E).

Definition withSt (ai : AI) (s : Stats.t) : AI :=
    MinimaxAI.mk (MinimaxAI.cfg ai) (MinimaxAI.rand ai) s (MinimaxAI.c ai)
      (MinimaxAI.evaluate ai) (MinimaxAI.table ai).
Definition withRand (ai : AI) (r : option (Rand E)) : AI :=
    MinimaxAI.mk (MinimaxAI.cfg ai) r (MinimaxAI.st ai) (MinimaxAI.c ai)
      (MinimaxAI.evaluate ai) (MinimaxAI.table ai).
Definition withTable (ai : AI) (t : gmap Z tableEntry.t) : AI :=
    MinimaxAI.mk (MinimaxAI.cfg ai) (MinimaxAI.rand ai) (MinimaxAI.st ai)
      (MinimaxAI.c ai) (MinimaxAI.evaluate ai) t.

Definition mapSt (f : Stats.t -> Stats.t) (ai : AI) : AI :=
    withSt ai (f (MinimaxAI.st ai)).

Definition incEvaluated (s : Stats.t) : Stats.t :=
    Stats.mk (Stats.Depth s) (Stats.Generated s) (Stats.Evaluated s + 1)
      (Stats.Visited s) (Stats.CutNodes s) (Stats.Cut0 s) (Stats.CutSearch s)
      (Stats.AllNodes s) (Stats.TTHits s).
Definition incVisited (s : Stats.t) : Stats.t :=
    Stats.mk (Stats.Depth s) (Stats.Generated s) (Stats.Evaluated s)
      (Stats.Visited s + 1) (Stats.CutNodes s) (Stats.Cut0 s) (Stats.CutSearch s)
      (Stats.AllNodes s) (Stats.TTHits s).
Definition addGenerated (n : N) (s : Stats.t) : Stats.t :=
    Stats.mk (Stats.Depth s) (Stats.Generated s + n) (Stats.Evaluated s)
      (Stats.Visited s) (Stats.CutNodes s) (Stats.Cut0 s) (Stats.CutSearch s)
      (Stats.AllNodes s) (Stats.TTHits s).
Definition incTTHits (s : Stats.t) : Stats.t :=
    Stats.mk (Stats.Depth s) (Stats.Generated s) (Stats.Evaluated s)
      (Stats.Visited s) (Stats.CutNodes s) (Stats.Cut0 s) (Stats.CutSearch s)
      (Stats.AllNodes s) (Stats.TTHits s + 1).
Definition incAllNodes (s : Stats.t) : Stats.t :=
    Stats.mk (Stats.Depth s) (Stats.Generated s) (Stats.Evaluated s)
      (Stats.Visited s) (Stats.CutNodes s) (Stats.Cut0 s) (Stats.CutSearch s)
      (Stats.AllNodes s + 1) (Stats.TTHits s).
  (** The counters of a cutoff at range index [i]. *)
Definition recordCut (i : nat) (s : Stats.t) : Stats.t :=
    Stats.mk (Stats.Depth s) (Stats.Generated s) (Stats.Evaluated s)
      (Stats.Visited s) (Stats.CutNodes s + 1)
      (if (i =? 0)%nat then Stats.Cut0 s + 1 else Stats.Cut0 s)%N
      (Stats.CutSearch s + N.of_nat (i + 1))
      (Stats.AllNodes s) (Stats.TTHits s).

  (** [func NewMinimax(cfg MinimaxConfig) *MinimaxAI] *)
Definition NewMinimax (cfg : MinimaxConfig.t E) : AI :=
    MinimaxAI.mk cfg None (Stats.fresh 0)
      (Precompute E (MinimaxConfig.Size cfg))
      (match MinimaxConfig.Evaluate cfg with
       | Some f => f
       | None => DefaultEvaluate E
       end)
      ∅.

  (** [&m.table[h%tableSize]]; a slot never written holds the zero entry. *)
Definition entryAt (t : gmap Z tableEntry.t) (h : Z) : tableEntry.t :=
    default tableEntry.zero (t !! slot h).

  (** [func (m *MinimaxAI) ttGet(h uint64) *tableEntry] *)
Definition ttGet (m : AI) (h : Z) : option tableEntry.t :=
    let te := entryAt (MinimaxAI.table m) h in
    if negb (tableEntry.hash te =? h) then None else Some te.

  (** [ttPut] hands out the slot and the caller overwrites every field. *)
Definition ttStore (m : AI) (h : Z) (e : tableEntry.t) : AI :=
    withTable m (<[slot h := e]> (MinimaxAI.table m)).

  (** [func (m *MinimaxAI) GetMove] and [Analyze] follow [minimax]. *)

  (** The shuffle of the root's moves:
      [for i := len(moves) - 1; i > 0; i-- { j := ai.rand.Int31n(int32(i)); ... }].
      [ai.rand] is read in the body only: a [nil] source panics at the
      first iteration and is never touched when the loop does not run.
      [Int31n] panics when its argument is not positive. *)
Fixpoint shuffle (i : nat) (r : option (Rand E)) (moves : list Move)
      : option (list Move * option (Rand E)) :=
    match i with
    | O => Some (moves, r)
    | S i' =>
        r0 ← r;
        let n := wrap32 (Z.of_nat i) in
        if n <=? 0 then None
        else
          let '(j, r') := Int31n E r0 n in
          if j <? 0 then None
          else
            moves' ← swap (Z.to_nat j) i moves;
            shuffle i' (Some r') moves'
    end.

  (** The table test of [minimax]: both [return te.ms, te.value] sites. *)
Definition teSuffices (te : tableEntry.t) (depth : nat) (α β : Z) : bool :=
    ((depth <=? tableEntry.depth te)%nat
     && (boundType_eqb (tableEntry.bound te) exactBound
         || ((tableEntry.value te <? α) && boundType_eqb (tableEntry.bound te) upperBound)
         || ((β <? tableEntry.value te) && boundType_eqb (tableEntry.bound te) lowerBound)))
    || (boundType_eqb (tableEntry.bound te) exactBound
        && ((WinThreshold <? tableEntry.value te)
            || (tableEntry.value te <? - WinThreshold))).

  (** The reordering scan, [for i, m := range moves] under [len(pv) > 0],
      from range index [i] with the front slot [j]; [n] bounds the
      iterations that remain, [pv0] is [pv[0]]. *)
Fixpoint reorderFrom (n : nat) (pv0 : Move) (te : option tableEntry.t)
      (i j : nat) (moves : list Move) : option (list Move) :=
    match n with
    | O => Some moves
    | S n' =>
        match moves !! i with
        | None => Some moves
        | Some m =>
            let sameSquare (_ : unit) :=
              if (j <? length moves)%nat && (X m =? X pv0) && (Y m =? Y pv0)
              then moves' ← swap j i moves; reorderFrom n' pv0 te (S i) (S j) moves'
              else reorderFrom n' pv0 te (S i) j moves in
            if Equal E m pv0 then
              moves' ← swap 0 i moves;
              if Typ m <? SlideLeft E then Some moves'
              else reorderFrom n' pv0 te (S i) j moves'
            else
              match te with
              | Some e =>
                  if (j <? length moves)%nat then
                    t0 ← tableEntry.ms e !! 0%nat;
                    if Equal E t0 m
                    then moves' ← swap j i moves; reorderFrom n' pv0 te (S i) (S j) moves'
                    else sameSquare ()
                  else sameSquare ()
              | None => sameSquare ()
              end
        end
    end.

Definition reorder (pv : list Move) (te : option tableEntry.t)
      (moves : list Move) : option (list Move) :=
    match pv with
    | [] => Some moves
    | pv0 :: _ => reorderFrom (length moves) pv0 te 0 1 moves
    end.

  (** The move loop [for i, m := range moves], from range index [i];
      [search] is the recursive call at [ply+1], [depth-1]. *)
Fixpoint moveLoop
      (search : AI -> Position E -> list Move -> Z -> Z -> option (list Move * Z * AI))
      (p : Position E) (β : Z) (i : nat) (moves : list Move)
      (ai : AI) (best : list Move) (improved : bool) (α : Z)
      : option (list Move * bool * Z * AI) :=
    match moves with
    | [] => Some (best, improved, α, ai)
    | m :: rest =>
        match pMove E p m with
        | None => moveLoop search p β (S i) rest ai best improved α
        | Some child =>
            let newpv := tailpv best in
            '(ms, v, ai) ← search ai child newpv (neg64 β) (neg64 α);
            let v := neg64 v in
            let best := match best with [] => m :: ms | _ => best end in
            if α <? v then
              let best := m :: ms in
              let α := v in
              if β <=? α
              then Some (best, true, α, mapSt (recordCut i) ai)
              else moveLoop search p β (S i) rest ai best true α
            else moveLoop search p β (S i) rest ai best improved α
        end
    end.

Definition leaf (ai : AI) (p : Position E) : option (list Move * Z * AI) :=
    let ai := mapSt incEvaluated ai in
    v ← MinimaxAI.evaluate ai (MinimaxAI.c ai) p;
    Some ([], v, ai).

  (** The bound stored after the loop. *)
Definition classify (improved : bool) (α β : Z) : boundType :=
    if negb improved then upperBound
    else if β <=? α then lowerBound
    else exactBound.

  (** The node once the table did not answer: reorder, search the moves,
      store the entry.  [search] is the recursive call at [ply+1],
      [depth-1]; [depth] is the node's own depth. *)
Definition searchNode
      (search : AI -> Position E -> list Move -> Z -> Z -> option (list Move * Z * AI))
      (depth : nat) (ai : AI) (p : Position E) (pv : list Move) (α β : Z)
      (te : option tableEntry.t) (moves : list Move)
      : option (list Move * Z * AI) :=
    moves ← reorder pv te moves;
    '(best, improved, α', ai) ← moveLoop search p β 0 moves ai pv false α;
    let e := tableEntry.mk (Hash E p) depth α' (classify improved α' β) best in
    let ai := ttStore ai (Hash E p) e in
    let ai := if negb improved then mapSt incAllNodes ai else ai in
    Some (best, α', ai).

  (** The statements of [minimax] between the leaf test and the table
      test: the counters, [p.AllMoves()] and the shuffle at [ply == 0]. *)
Definition generate (ai : AI) (p : Position E) (ply : nat)
      : option (list Move * AI) :=
    let ai := mapSt incVisited ai in
    let moves := AllMoves E p in
    let ai := mapSt (addGenerated (N.of_nat (length moves))) ai in
    if (ply =? 0)%nat then
      '(moves', r') ← shuffle (pred (length moves)) (MinimaxAI.rand ai) moves;
      Some (moves', withRand ai r')
    else Some (moves, ai).

  (** [func (ai *MinimaxAI) minimax(p, ply, depth, pv, α, β)] *)
Fixpoint minimax (depth : nat) (ai : AI) (p : Position E) (ply : nat)
      (pv : list Move) (α β : Z) {struct depth} : option (list Move * Z * AI) :=
    match depth with
    | O => leaf ai p
    | S d =>
        if (GameOver E p).1 then leaf ai p
        else
          '(moves, ai) ← generate ai p ply;
          let te := ttGet ai (Hash E p) in
          let search := fun ai child pv a b => minimax d ai child (S ply) pv a b in
          match te with
          | Some e =>
              if teSuffices e depth α β
              then Some (tableEntry.ms e, tableEntry.value e, mapSt incTTHits ai)
              else searchNode search depth ai p pv α β te moves
          | None => searchNode search depth ai p pv α β te moves
          end
    end.
(** The deepening loop [for i := 1; i+base <= m.cfg.Depth; i++] of
    [Analyze].  [n] bounds the iterations that remain ([Analyze] passes
    [Depth - base], the number of values [i] can take); [k] counts the
    readings of the clock taken so far and [top] is the reading at entry.
    The log lines under [Debug] (and [timeMove], which only they print)
    have no effect on the results. *)
Fixpoint deepen (n : nat) (clock : Clock) (p : Position E) (limit : Z)
    (base : nat) (top : Z) (i : Z) (k : nat) (prevEval branchSum : N)
    (ms : list Move) (v : Z) (m : AI) {struct n} : option (list Move * Z * AI) :=
  match n with
  | O => Some (ms, v, m)
  | S n' =>
      let d := i + Z.of_nat base in
      if negb (d <=? MinimaxConfig.Depth (MinimaxAI.cfg m)) then Some (ms, v, m)
      else
        let m := withSt m (Stats.fresh d) in
        let start := clock k in
        '(ms, v, m) ← minimax (Z.to_nat d) m p 0 ms (minEval - 1) (maxEval + 1);
        let timeUsed := timeSub (clock (S k)) top in
        let evaluated := Stats.Evaluated (MinimaxAI.st m) in
        let branchSum :=
          if 1 <? i then (branchSum + evaluated `div` (prevEval + 1))%N
          else branchSum in
        let prevEval := evaluated in
        if (WinThreshold <? v) || (v <? - WinThreshold) then Some (ms, v, m)
        else if negb (d =? MinimaxConfig.Depth (MinimaxAI.cfg m)) && negb (limit =? 0)
        then
          let branch :=
            if 2 <? i then (branchSum `div` Z.to_N (i - 1))%N else 20%N in
          let estimate :=
            add64 timeUsed
              (mul64 (timeSub (clock (S (S (S k)))) start) (wrap64 (Z.of_N branch))) in
          if limit <? estimate then Some (ms, v, m)
          else deepen n' clock p limit base top (i + 1) (S (S (S (S k))))
                 prevEval branchSum ms v m
        else deepen n' clock p limit base top (i + 1) (S (S (S k)))
               prevEval branchSum ms v m
  end.

(** [func (m *MinimaxAI) Analyze(p *tak.Position, limit time.Duration)
    ([]tak.Move, int64, Stats)], with the searcher it leaves behind. *)
Definition Analyze (clock : Clock) (m : AI) (p : Position E) (limit : Z)
    : option (list Move * Z * Stats.t * AI) :=
  if negb (MinimaxConfig.Size (MinimaxAI.cfg m) =? Size E p) then None
  else
    let '(seed, k) :=
      if MinimaxConfig.Seed (MinimaxAI.cfg m) =? 0
      then (unixSeconds (clock 0%nat), 1%nat)
      else (MinimaxConfig.Seed (MinimaxAI.cfg m), 0%nat) in
    let m := withRand m (Some (NewSource E seed)) in
    let top := clock k in
    let '(base, ms) :=
      match ttGet m (Hash E p) with
      | Some te =>
          if boundType_eqb (tableEntry.bound te) exactBound
          then (tableEntry.depth te, tableEntry.ms te)
          else (0%nat, [])
      | None => (0%nat, [])
      end in
    '(ms, v, m) ←
      deepen (Z.to_nat (MinimaxConfig.Depth (MinimaxAI.cfg m) - Z.of_nat base))
        clock p limit base top 1 (S k) 0 0 ms 0 m;
    Some (ms, v, MinimaxAI.st m, m).

(** [func (m *MinimaxAI) GetMove(p *tak.Position, limit time.Duration) tak.Move]:
    [ms[0]] panics on an empty slice. *)
Definition GetMove (clock : Clock) (m : AI) (p : Position E) (limit : Z)
    : option (Move * AI) :=
  '(ms, _, _, m) ← Analyze clock m p limit;
  mv ← ms !! 0%nat;
  Some (mv, m).

End Search.

End TablePV.


(** ** The revision with null-window re-search

    The driver whose table entries carry one move ([tableEntry.m]), whose
    moves come from a [moveGenerator], and which searches every move after
    the first with a null window first. *)

Module PVS.

Module Stats.
Record t := mk {
  Depth : Z;
  Generated : N;
  Evaluated : N;
  Terminal : N;
  Visited : N;
  CutNodes : N;
  Cut0 : N;
  Cut1 : N;
  CutSearch : N;
  AllNodes : N;
  TTHits : N
}.
(** [Stats{Depth: d}] *)
Definition fresh (d : Z) : t := mk d 0 0 0 0 0 0 0 0 0 0.
End Stats.

Module tableEntry.
(** The field [p *tak.Position] is never read. *)
Record t := mk {
  hash : Z;
  depth : nat;
  value : Z;
  bound : boundType;
  m : Move
}.
Definition zero : t := mk 0 0 0 lowerBound zeroMove.
End tableEntry.

Module MinimaxConfig.
Record t (E : Engine) := mk {
  Size : Z;
  Depth : Z;
  Debug : Z;
  Seed : Z;
  NoSort : bool;
  NoTable : bool;
  Evaluate : option (EvaluationFunc E)
}.
Arguments mk {E}.
Arguments Size {E}.
Arguments Depth {E}.
Arguments Debug {E}.
Arguments Seed {E}.
Arguments NoSort {E}.
Arguments NoTable {E}.
Arguments Evaluate {E}.
End MinimaxConfig.

Module MinimaxAI.
(** [rand] is [nil] until [Analyze] seeds it.  [stack] holds positions
    preallocated for the move generator and is not read by this file. *)
Record t (E : Engine) := mk {
  cfg : MinimaxConfig.t E;
  rand : option (Rand E);
  st : Stats.t;
  c : Constants E;
  heatMap : list Z;
  evaluate : EvaluationFunc E;
  table : gmap Z tableEntry.t
}.
Arguments mk {E}.
Arguments cfg {E}.
Arguments rand {E}.
Arguments st {E}.
Arguments c {E}.
Arguments heatMap {E}.
Arguments evaluate {E}.
Arguments table {E}.
End MinimaxAI.

Section Search.
Context {E : Engine}.
Abbreviation AI := (MinimaxAI.t E).

(** Modelled from the spec: the type [moveGenerator] and its method [Next]
    are declared outside the files at hand.  By sections 4.5 and 4.6 of the
    specification the generator enumerates, in the order it chooses from the
    table entry, the incoming principal variation and (at the root) the
    random source, the moves of [p] together with the child each one leads
    to, and [Next] answers [nil] once they are exhausted.  It is given the
    configuration, the heat map and the random source of the searcher, and
    hands back the random source. *)
Definition MoveGen : Type :=
  MinimaxConfig.t E -> list Z -> option (Rand E) -> nat -> nat -> Position E ->
  option tableEntry.t -> list Move -> list (Move * Position E) * option (Rand E).

Context (moveGen : MoveGen).

Definition withSt (ai : AI) (s : Stats.t) : AI :=
  MinimaxAI.mk (MinimaxAI.cfg ai) (MinimaxAI.rand ai) s (MinimaxAI.c ai)
    (MinimaxAI.heatMap ai) (MinimaxAI.evaluate ai) (MinimaxAI.table ai).
Definition withRand (ai : AI) (r : option (Rand E)) : AI :=
  MinimaxAI.mk (MinimaxAI.cfg ai) r (MinimaxAI.st ai) (MinimaxAI.c ai)
    (MinimaxAI.heatMap ai) (MinimaxAI.evaluate ai) (MinimaxAI.table ai).
Definition withHeatMap (ai : AI) (h : list Z) : AI :=
  MinimaxAI.mk (MinimaxAI.cfg ai) (MinimaxAI.rand ai) (MinimaxAI.st ai)
    (MinimaxAI.c ai) h (MinimaxAI.evaluate ai) (MinimaxAI.table ai).
Definition withTable (ai : AI) (t : gmap Z tableEntry.t) : AI :=
  MinimaxAI.mk (MinimaxAI.cfg ai) (MinimaxAI.rand ai) (MinimaxAI.st ai)
    (MinimaxAI.c ai) (MinimaxAI.heatMap ai) (MinimaxAI.evaluate ai) t.

Definition mapSt (f : Stats.t -> Stats.t) (ai : AI) : AI :=
  withSt ai (f (MinimaxAI.st ai)).

Definition incEvaluated (s : Stats.t) : Stats.t :=
  Stats.mk (Stats.Depth s) (Stats.Generated s) (Stats.Evaluated s + 1)
    (Stats.Terminal s) (Stats.Visited s) (Stats.CutNodes s) (Stats.Cut0 s)
    (Stats.Cut1 s) (Stats.CutSearch s) (Stats.AllNodes s) (Stats.TTHits s).
Definition incTerminal (s : Stats.t) : Stats.t :=
  Stats.mk (Stats.Depth s) (Stats.Generated s) (Stats.Evaluated s)
    (Stats.Terminal s + 1) (Stats.Visited s) (Stats.CutNodes s) (Stats.Cut0 s)
    (Stats.Cut1 s) (Stats.CutSearch s) (Stats.AllNodes s) (Stats.TTHits s).
Definition incVisited (s : Stats.t) : Stats.t :=
  Stats.mk (Stats.Depth s) (Stats.Generated s) (Stats.Evaluated s)
    (Stats.Terminal s) (Stats.Visited s + 1) (Stats.CutNodes s) (Stats.Cut0 s)
    (Stats.Cut1 s) (Stats.CutSearch s) (Stats.AllNodes s) (Stats.TTHits s).
Definition incTTHits (s : Stats.t) : Stats.t :=
  Stats.mk (Stats.Depth s) (Stats.Generated s) (Stats.Evaluated s)
    (Stats.Terminal s) (Stats.Visited s) (Stats.CutNodes s) (Stats.Cut0 s)
    (Stats.Cut1 s) (Stats.CutSearch s) (Stats.AllNodes s) (Stats.TTHits s + 1).
Definition incAllNodes (s : Stats.t) : Stats.t :=
  Stats.mk (Stats.Depth s) (Stats.Generated s) (Stats.Evaluated s)
    (Stats.Terminal s) (Stats.Visited s) (Stats.CutNodes s) (Stats.Cut0 s)
    (Stats.Cut1 s) (Stats.CutSearch s) (Stats.AllNodes s + 1) (Stats.TTHits s).
(** [ai.st.CutNodes++] and the [switch i] that follows, at the [i]-th
    move the generator yielded (counted from 1). *)
Definition recordCut (i : nat) (s : Stats.t) : Stats.t :=
  Stats.mk (Stats.Depth s) (Stats.Generated s) (Stats.Evaluated s)
    (Stats.Terminal s) (Stats.Visited s) (Stats.CutNodes s + 1)
    (if (i =? 1)%nat then Stats.Cut0 s + 1 else Stats.Cut0 s)%N
    (if (i =? 2)%nat then Stats.Cut1 s + 1 else Stats.Cut1 s)%N
    (if (i =? 1)%nat || (i =? 2)%nat then Stats.CutSearch s
     else Stats.CutSearch s + N.of_nat (i + 1))%N
    (Stats.AllNodes s) (Stats.TTHits s).

(** [func NewMinimax(cfg MinimaxConfig) *MinimaxAI]; [make] panics on a
    negative length. *)
Definition NewMinimax (cfg : MinimaxConfig.t E) : option AI :=
  let n := mul64 (MinimaxConfig.Size cfg) (MinimaxConfig.Size cfg) in
  if n <? 0 then None
  else
    Some (MinimaxAI.mk cfg None (Stats.fresh 0)
            (Precompute E (MinimaxConfig.Size cfg))
            (replicate (Z.to_nat n) 0)
            (match MinimaxConfig.Evaluate cfg with
             | Some f => f
             | None => DefaultEvaluate E
             end)
            ∅).

(** [&m.table[h%tableSize]]; a slot never written holds the zero entry. *)
Definition entryAt (t : gmap Z tableEntry.t) (h : Z) : tableEntry.t :=
  default tableEntry.zero (t !! slot h).

(** [func (m *MinimaxAI) ttGet(h uint64) *tableEntry] *)
Definition ttGet (m : AI) (h : Z) : option tableEntry.t :=
  if MinimaxConfig.NoTable (MinimaxAI.cfg m) then None
  else
    let te := entryAt (MinimaxAI.table m) h in
    if negb (tableEntry.hash te =? h) then None else Some te.

(** [ttPut] hands out the slot and the caller overwrites every field. *)
Definition ttStore (m : AI) (h : Z) (e : tableEntry.t) : AI :=
  withTable m (<[slot h := e]> (MinimaxAI.table m)).

(** The flag [teSuffices] as [minimax] computes it. *)
Definition teSuffices (te : tableEntry.t) (depth : nat) (α β : Z) : bool :=
  ((depth <=? tableEntry.depth te)%nat
   && (boundType_eqb (tableEntry.bound te) exactBound
       || ((tableEntry.value te <? α) && boundType_eqb (tableEntry.bound te) upperBound)
       || ((β <? tableEntry.value te) && boundType_eqb (tableEntry.bound te) lowerBound)))
  || (boundType_eqb (tableEntry.bound te) exactBound
      && ((WinThreshold <? tableEntry.value te)
          || (tableEntry.value te <? - WinThreshold))).

(** The outcome of [if te != nil { ... }]: the early return, or the entry
    kept for the move generator ([te = nil] once its move failed). *)
Inductive probeResult :=
| Hit (mv : Move) (v : Z)
| Miss (te : option tableEntry.t).

Definition probe (te : option tableEntry.t) (p : Position E) (depth : nat)
    (α β : Z) : probeResult :=
  match te with
  | None => Miss None
  | Some e =>
      if teSuffices e depth α β then
        match pMove E p (tableEntry.m e) with
        | Some _ => Hit (tableEntry.m e) (tableEntry.value e)
        | None => Miss None
        end
      else Miss te
  end.

(** [ai.heatMap[m.X+m.Y*ai.cfg.Size] += (1 << uint(depth))] *)
Definition heatUp (ai : AI) (mv : Move) (depth : nat) : option AI :=
  let idx := add64 (X mv) (mul64 (Y mv) (MinimaxConfig.Size (MinimaxAI.cfg ai))) in
  if idx <? 0 then None
  else
    h ← MinimaxAI.heatMap ai !! Z.to_nat idx;
    Some (withHeatMap ai
            (<[Z.to_nat idx := u64 (h + u64 (Z.shiftl 1 (Z.of_nat depth)))]>
               (MinimaxAI.heatMap ai))).

Definition SearchFn : Type :=
  AI -> Position E -> list Move -> Z -> Z -> option (list Move * Z * AI).

(** The searches of one child: [if i > 1 { null window, then the full
    window when [-v > α && -v < β] } else { full window }]; [nullFirst]
    is the test [i > 1]. *)
Definition searchChild (search : SearchFn) (nullFirst : bool) (ai : AI)
    (child : Position E) (newpv : list Move) (α β : Z)
    : option (list Move * Z * AI) :=
  if nullFirst then
    '(ms, v, ai) ← search ai child newpv (sub64 (neg64 α) 1) (neg64 α);
    if (α <? neg64 v) && (neg64 v <? β)
    then search ai child newpv (neg64 β) (neg64 α)
    else Some (ms, v, ai)
  else search ai child newpv (neg64 β) (neg64 α).

(** The move loop [for m, child := mg.Next(); child != nil; ...] over the
    moves the generator yields; [i] counts those already taken, [depth] is
    the node's depth and [nullFirst] decides which children get the null
    window first. *)
Fixpoint moveLoopWith (nullFirst : nat -> bool) (search : SearchFn)
    (depth : nat) (β : Z) (i : nat) (gen : list (Move * Position E))
    (ai : AI) (best : list Move) (improved : bool) (α : Z)
    : option (list Move * bool * Z * AI) :=
  match gen with
  | [] => Some (best, improved, α, ai)
  | (mv, child) :: rest =>
      let i := S i in
      let newpv := tailpv best in
      '(ms, v, ai) ← searchChild search (nullFirst i) ai child newpv α β;
      let v := neg64 v in
      let best := match best with [] => mv :: ms | _ => best end in
      if α <? v then
        let best := mv :: ms in
        let α := v in
        if β <=? α then
          ai ← heatUp (mapSt (recordCut i) ai) mv depth;
          Some (best, true, α, ai)
        else moveLoopWith nullFirst search depth β i rest ai best true α
      else moveLoopWith nullFirst search depth β i rest ai best improved α
  end.

(** The loop as the source has it: the null window for [i > 1]. *)
Definition moveLoop : SearchFn -> nat -> Z -> nat -> list (Move * Position E) ->
    AI -> list Move -> bool -> Z -> option (list Move * bool * Z * AI) :=
  moveLoopWith (fun i => (1 <? i)%nat).

Definition leaf (ai : AI) (p : Position E) : option (list Move * Z * AI) :=
  let ai := mapSt incEvaluated ai in
  let ai := if (GameOver E p).1 then mapSt incTerminal ai else ai in
  v ← MinimaxAI.evaluate ai (MinimaxAI.c ai) p;
  Some ([], v, ai).

(** The bound stored after the loop. *)
Definition classify (improved : bool) (α β : Z) : boundType :=
  if negb improved then upperBound
  else if β <=? α then lowerBound
  else exactBound.

(** What follows the loop: the entry is written ([te.m = best[0]] panics
    on an empty [best]) and [(best, α)] returned. *)
Definition storeNode (ai : AI) (p : Position E) (depth : nat)
    (best : list Move) (improved : bool) (α β : Z)
    : option (list Move * Z * AI) :=
  b0 ← best !! 0%nat;
  let e := tableEntry.mk (Hash E p) depth α (classify improved α β) b0 in
  let ai := ttStore ai (Hash E p) e in
  let ai := if negb improved then mapSt incAllNodes ai else ai in
  Some (best, α, ai).

(** The node once the table did not answer; the loop is a parameter so
    that the source's loop can be compared with one that searches a child
    directly. *)
Definition searchNodeWith
    (loop : SearchFn -> nat -> Z -> nat -> list (Move * Position E) ->
            AI -> list Move -> bool -> Z -> option (list Move * bool * Z * AI))
    (search : SearchFn) (depth : nat) (ai : AI) (p : Position E) (ply : nat)
    (pv : list Move) (α β : Z) (te : option tableEntry.t)
    : option (list Move * Z * AI) :=
  let '(gen, r) :=
    moveGen (MinimaxAI.cfg ai) (MinimaxAI.heatMap ai) (MinimaxAI.rand ai)
      ply depth p te pv in
  let ai := withRand ai r in
  '(best, improved, α', ai) ← loop search depth β 0%nat gen ai pv false α;
  storeNode ai p depth best improved α' β.

Definition searchNode : SearchFn -> nat -> AI -> Position E -> nat ->
    list Move -> Z -> Z -> option tableEntry.t -> option (list Move * Z * AI) :=
  searchNodeWith moveLoop.

(** [func (ai *MinimaxAI) minimax(p, ply, depth, pv, α, β)] *)
Fixpoint minimax (depth : nat) (ai : AI) (p : Position E) (ply : nat)
    (pv : list Move) (α β : Z) {struct depth} : option (list Move * Z * AI) :=
  match depth with
  | O => leaf ai p
  | S d =>
      if (GameOver E p).1 then leaf ai p
      else
        let ai := mapSt incVisited ai in
        let search := fun ai child pv a b => minimax d ai child (S ply) pv a b in
        match probe (ttGet ai (Hash E p)) p depth α β with
        | Hit mv v => Some ([mv], v, mapSt incTTHits ai)
        | Miss te => searchNode search depth ai p ply pv α β te
        end
  end.

(** The deepening loop of [Analyze]; see [TablePV.deepen] for the
    conventions. *)
Fixpoint deepen (n : nat) (clock : Clock) (p : Position E) (limit : Z)
    (base : nat) (top : Z) (i : Z) (k : nat) (prevEval branchSum : N)
    (ms : list Move) (v : Z) (m : AI) {struct n} : option (list Move * Z * AI) :=
  match n with
  | O => Some (ms, v, m)
  | S n' =>
      let d := i + Z.of_nat base in
      if negb (d <=? MinimaxConfig.Depth (MinimaxAI.cfg m)) then Some (ms, v, m)
      else
        let m := withSt m (Stats.fresh d) in
        let start := clock k in
        '(ms, v, m) ← minimax (Z.to_nat d) m p 0 ms (minEval - 1) (maxEval + 1);
        let timeUsed := timeSub (clock (S k)) top in
        let evaluated := Stats.Evaluated (MinimaxAI.st m) in
        let branchSum :=
          if 1 <? i then (branchSum + evaluated `div` (prevEval + 1))%N
          else branchSum in
        let prevEval := evaluated in
        if (WinThreshold <? v) || (v <? - WinThreshold) then Some (ms, v, m)
        else if negb (d =? MinimaxConfig.Depth (MinimaxAI.cfg m)) && negb (limit =? 0)
        then
          let branch :=
            if 2 <? i then (branchSum `div` Z.to_N (i - 1))%N else 20%N in
          let estimate :=
            add64 timeUsed
              (mul64 (timeSub (clock (S (S (S k)))) start) (wrap64 (Z.of_N branch))) in
          if limit <? estimate then Some (ms, v, m)
          else deepen n' clock p limit base top (i + 1) (S (S (S (S k))))
                 prevEval branchSum ms v m
        else deepen n' clock p limit base top (i + 1) (S (S (S k)))
               prevEval branchSum ms v m
  end.

(** [func (m *MinimaxAI) Analyze(p *tak.Position, limit time.Duration)
    ([]tak.Move, int64, Stats)], with the searcher it leaves behind. *)
Definition Analyze (clock : Clock) (m : AI) (p : Position E) (limit : Z)
    : option (list Move * Z * Stats.t * AI) :=
  if negb (MinimaxConfig.Size (MinimaxAI.cfg m) =? Size E p) then None
  else
    let m := withHeatMap m (map (fun v => v `div` 2) (MinimaxAI.heatMap m)) in
    let '(seed, k) :=
      if MinimaxConfig.Seed (MinimaxAI.cfg m) =? 0
      then (unixSeconds (clock 0%nat), 1%nat)
      else (MinimaxConfig.Seed (MinimaxAI.cfg m), 0%nat) in
    let m := withRand m (Some (NewSource E seed)) in
    let top := clock k in
    let '(base, ms) :=
      match ttGet m (Hash E p) with
      | Some te =>
          if boundType_eqb (tableEntry.bound te) exactBound
          then (tableEntry.depth te, [tableEntry.m te])
          else (0%nat, [])
      | None => (0%nat, [])
      end in
    '(ms, v, m) ←
      deepen (Z.to_nat (MinimaxConfig.Depth (MinimaxAI.cfg m) - Z.of_nat base))
        clock p limit base top 1 (S k) 0 0 ms 0 m;
    Some (ms, v, MinimaxAI.st m, m).

(** [func (m *MinimaxAI) GetMove(p *tak.Position, limit time.Duration) tak.Move]:
    [ms[0]] panics on an empty slice. *)
Definition GetMove (clock : Clock) (m : AI) (p : Position E) (limit : Z)
    : option (Move * AI) :=
  '(ms, _, _, m) ← Analyze clock m p limit;
  mv ← ms !! 0%nat;
  Some (mv, m).

End Search.

End PVS.


(** ** A small concrete rule engine

    Finite game graphs given node by node, used to run the definitions
    above on explicit inputs.  A position is the index of its node; the
    kind tags follow the order place-flat, place-standing, place-capstone,
    slide-left, ... of the rule engine, with [SlideLeft = 4]. *)

Module Toy.

Record Node := mkNode {
  nHash : Z;
  nOver : bool;
  nWinner : Color;
  nToMove : Color;
  nMoveNumber : Z;
  nWhiteStones : Z;
  nBlackStones : Z;
  (** the value a configured [Evaluate] gives this position *)
  nEval : Z;
  (** the moves [AllMoves] lists, each with the child it leads to, or
      [None] when [Move] rejects it *)
  nMoves : list (Move * option nat)
}.

Definition deadNode : Node := mkNode 0 true NoColor White 0 0 0 0 [].

Definition nodeAt (g : list Node) (p : nat) : Node := default deadNode (g !! p).

Definition Move_eqb (a b : Move) : bool :=
  (X a =? X b) && (Y a =? Y b) && (Typ a =? Typ b)
  && bool_decide (Slides a = Slides b).

Fixpoint applyMove (ms : list (Move * option nat)) (m : Move) : option nat :=
  match ms with
  | [] => None
  | (m', c) :: rest => if Move_eqb m' m then c else applyMove rest m
  end.

Fixpoint popcount (n : nat) (b : Z) : Z :=
  match n with
  | O => 0
  | S n' => (if Z.odd b then 1 else 0) + popcount n' (Z.shiftr b 1)
  end.

Definition engine (g : list Node) : Engine := {|
  Position := nat;
  Size := fun _ => 5;
  ToMove := fun p => nToMove (nodeAt g p);
  MoveNumber := fun p => nMoveNumber (nodeAt g p);
  Hash := fun p => nHash (nodeAt g p);
  GameOver := fun p => (nOver (nodeAt g p), nWinner (nodeAt g p));
  AllMoves := fun p => map fst (nMoves (nodeAt g p));
  pMove := fun p m => applyMove (nMoves (nodeAt g p)) m;
  WhiteStones := fun p => nWhiteStones (nodeAt g p);
  BlackStones := fun p => nBlackStones (nodeAt g p);
  pWhite := fun _ => 0;
  pBlack := fun _ => 0;
  pCaps := fun _ => 0;
  pStanding := fun _ => 0;
  pHeight := fun _ => replicate 25 0;
  pStacks := fun _ => replicate 25 0;
  WhiteGroups := fun _ => [];
  BlackGroups := fun _ => [];
  Equal := Move_eqb;
  SlideLeft := 4;
  Constants := unit;
  Precompute := fun _ => tt;
  Popcount := popcount 64;
  Grow := fun _ _ _ => 0;
  Dimensions := fun _ _ => (0, 0);
  Rand := Z;
  NewSource := fun seed => seed;
  Int31n := fun r n => (r `mod` n, r + 1)
|}.

(** The evaluation a test configures through [MinimaxConfig.Evaluate]. *)
Definition nodeEval (g : list Node) : EvaluationFunc (engine g) :=
  fun _ p => Some (nEval (nodeAt g p)).

(** A move generator for [engine g]: the moves of [AllMoves] that [Move]
    accepts, in their order, each with its child. *)
Definition gen (g : list Node) : PVS.MoveGen (E := engine g) :=
  fun _ _ r _ _ p _ _ =>
    (omap (fun m => c ← applyMove (nMoves (nodeAt g p)) m; Some (m, c))
       (map fst (nMoves (nodeAt g p))), r).

Definition place (x y : Z) : Move := mkMove x y 1 [].
Definition slideRight (x y : Z) (drops : list Z) : Move := mkMove x y 5 drops.

(** All clock readings are 0. *)
Definition clock0 : Clock := fun _ => 0.

End Toy.


(** ** Vocabulary of the specification *)

(** The stone count of a color. *)
Definition stonesOf (E : Engine) (p : Position E) (c : Color) : Z :=
  match c with
  | White => WhiteStones E p
  | Black => BlackStones E p
  | NoColor => 0
  end.

(** Section 4.4 as written: the stored bound may be used at depth [d]
    under the window [(α, β)]. *)
Definition specUsable (tdepth : nat) (tvalue : Z) (tbound : boundType)
    (d : nat) (α β : Z) : Prop :=
  ((d <= tdepth)%nat
   /\ (tbound = exactBound
       \/ (tbound = upperBound /\ tvalue <= α)
       \/ (tbound = lowerBound /\ tvalue >= β)))
  \/ (tbound = exactBound /\ Z.abs tvalue > WinThreshold).

(** The same with the strict comparisons of the code. *)
Definition tableAnswers (tdepth : nat) (tvalue : Z) (tbound : boundType)
    (d : nat) (α β : Z) : Prop :=
  ((d <= tdepth)%nat
   /\ (tbound = exactBound
       \/ (tbound = upperBound /\ tvalue < α)
       \/ (tbound = lowerBound /\ tvalue > β)))
  \/ (tbound = exactBound /\ Z.abs tvalue > WinThreshold).

(** The bound section 4.6 prescribes for the stored entry, from the
    window the node was entered with and the value it returns. *)
Definition specBound (α0 α β : Z) : boundType :=
  if α =? α0 then upperBound
  else if β <=? α then lowerBound
  else exactBound.

(** ** Concrete inputs *)

Module Examples.
Import Toy.

(** White to move at the root; [a1] wins at once (the child is over,
    White has won), [b1] leads to a quiet position. *)
Definition g1 : list Node := [
  mkNode 100 false NoColor White 19 11 12 0
    [(place 0 0, Some 1%nat); (place 1 0, Some 2%nat)];
  mkNode 101 true White Black 20 10 12 0 [];
  mkNode 102 false NoColor Black 20 10 12 0 []
].

(** A finished game as the rule engine reports it after the shortest road
    on a 5x5 board: eleven plies played, White has won and keeps 16 of
    its 21 stones, Black is to move. *)
Definition g2 : list Node := [
  mkNode 7 true White Black 11 16 16 0 []
].

(** A searcher of the revision with stored lines on [g1], whose table
    holds for the root an upper bound of 5 found at depth 3. *)
Definition te1 : TablePV.tableEntry.t :=
  TablePV.tableEntry.mk 100 3 5 upperBound [place 1 0].

Definition ai1 : TablePV.MinimaxAI.t (engine g1) :=
  TablePV.MinimaxAI.mk (E := engine g1) (TablePV.MinimaxConfig.mk 5 3 0 1 None) None
    (TablePV.Stats.fresh 1) tt (DefaultEvaluate (engine g1))
    {[ slot 100 := te1 ]}.

(** The same for the revision that stores one move. *)
Definition te2 : PVS.tableEntry.t :=
  PVS.tableEntry.mk 100 3 5 upperBound (place 1 0).

Definition ai2 : PVS.MinimaxAI.t (engine g1) :=
  PVS.MinimaxAI.mk (E := engine g1)
    (PVS.MinimaxConfig.mk 5 3 0 1 false false None) None
    (PVS.Stats.fresh 1) tt (replicate 25 0) (DefaultEvaluate (engine g1))
    {[ slot 100 := te2 ]}.

(** A searcher of the revision with null-window re-search on [g1], with
    an empty table and the default evaluator. *)
Definition ai3 : PVS.MinimaxAI.t (engine g1) :=
  PVS.MinimaxAI.mk (E := engine g1)
    (PVS.MinimaxConfig.mk 5 1 0 1 false false None) None
    (PVS.Stats.fresh 0) tt (replicate 25 0) (DefaultEvaluate (engine g1)) ∅.

(** The searcher [ai3] leaves behind after analysing the root of [g1]. *)
Definition warm : PVS.MinimaxAI.t (engine g1) :=
  match PVS.Analyze (gen g1) clock0 ai3 0%nat 0 with
  | Some (_, _, _, m) => m
  | None => ai3
  end.

(** The same searcher configured with [Depth = 0]. *)
Definition ai0 : PVS.MinimaxAI.t (engine g1) :=
  PVS.MinimaxAI.mk (E := engine g1)
    (PVS.MinimaxConfig.mk 5 0 0 1 false false None) None
    (PVS.Stats.fresh 0) tt (replicate 25 0) (DefaultEvaluate (engine g1)) ∅.

(** A game of two plies in which every position that is not over has a
    move: from the root [a1] and [b1], then one reply each, with the
    values a configured evaluator gives the four positions reached. *)
Definition g3 : list Node := [
  mkNode 200 false NoColor White 2 20 20 0
    [(place 0 0, Some 1%nat); (place 1 0, Some 2%nat)];
  mkNode 201 false NoColor Black 3 19 20 10 [(place 2 0, Some 3%nat)];
  mkNode 202 false NoColor Black 3 19 20 (-30) [(place 3 0, Some 4%nat)];
  mkNode 203 false NoColor White 4 19 19 (-40) [(place 4 4, Some 5%nat)];
  mkNode 204 false NoColor White 4 19 19 70 [(place 4 3, Some 5%nat)];
  mkNode 205 true NoColor Black 5 18 19 0 []
].

Definition ai5 : PVS.MinimaxAI.t (engine g3) :=
  PVS.MinimaxAI.mk (E := engine g3)
    (PVS.MinimaxConfig.mk 5 2 0 1 false false (Some (nodeEval g3))) None
    (PVS.Stats.fresh 0) tt (replicate 25 0) (nodeEval g3) ∅.

(** A searcher on the finished game [g2] whose configuration leaves
    [Depth] at 0, with a fresh table. *)
Definition ai00 : PVS.MinimaxAI.t (engine g2) :=
  PVS.MinimaxAI.mk (E := engine g2)
    (PVS.MinimaxConfig.mk 5 0 0 1 false false None) None
    (PVS.Stats.fresh 0) tt (replicate 25 0) (DefaultEvaluate (engine g2)) ∅.

(** The same searcher with [Depth = 1]. *)
Definition ai01 : PVS.MinimaxAI.t (engine g2) :=
  PVS.MinimaxAI.mk (E := engine g2)
    (PVS.MinimaxConfig.mk 5 1 0 1 false false None) None
    (PVS.Stats.fresh 0) tt (replicate 25 0) (DefaultEvaluate (engine g2)) ∅.

(** A game in which the second move of the root, [b1], looks good two
    plies deep and bad four plies deep: the positions reached by [a1 c1]
    and [b1 d1] score -5 and -3 for their side to move, and the line
    [b1 d1 e1 e2] ends in a position worth 10 to its side to move. *)
Definition g4 : list Node := [
  mkNode 300 false NoColor White 2 20 20 0
    [(place 0 0, Some 1%nat); (place 1 0, Some 2%nat)];
  mkNode 301 false NoColor Black 3 19 20 0 [(place 2 0, Some 3%nat)];
  mkNode 302 false NoColor Black 3 19 20 0 [(place 3 0, Some 4%nat)];
  mkNode 303 false NoColor White 4 19 19 (-5) [];
  mkNode 304 false NoColor White 4 19 19 (-3) [(place 4 0, Some 5%nat)];
  mkNode 305 false NoColor Black 5 18 19 0 [(place 4 1, Some 6%nat)];
  mkNode 306 false NoColor White 6 18 18 10 []
].

(** A searcher on [g4] whose table holds, for the position after [b1],
    the upper bound -10 a search three plies deep left there. *)
Definition ai7 : PVS.MinimaxAI.t (engine g4) :=
  PVS.MinimaxAI.mk (E := engine g4)
    (PVS.MinimaxConfig.mk 5 2 0 1 false false (Some (nodeEval g4))) None
    (PVS.Stats.fresh 0) tt (replicate 25 0) (nodeEval g4)
    {[ slot 302 := PVS.tableEntry.mk 302 3 (-10) upperBound (place 3 0) ]}.

(** The searcher [ai5] configured with [NoTable], and an entry for the
    root of [g3] that a searcher reading its table would answer with. *)
Definition ai6 : PVS.MinimaxAI.t (engine g3) :=
  PVS.MinimaxAI.mk (E := engine g3)
    (PVS.MinimaxConfig.mk 5 2 0 1 false true (Some (nodeEval g3))) None
    (PVS.Stats.fresh 0) tt (replicate 25 0) (nodeEval g3) ∅.
Definition te6 : PVS.tableEntry.t :=
  PVS.tableEntry.mk 200 5 77 exactBound (place 1 0).

End Examples.

(** ** Properties *)

Lemma wrap64_add_l a b : wrap64 (wrap64 a + b) = wrap64 (a + b).
Proof.
  unfold wrap64. f_equal.
  replace ((a + 2^63) mod 2^64 - 2^63 + b + 2^63) with ((a + 2^63) mod 2^64 + b) by lia.
  rewrite Zplus_mod_idemp_l. f_equal. lia.
Qed.

Lemma add64_sub64 a b c : add64 (sub64 a b) c = wrap64 (a - b + c).
Proof. unfold add64, sub64. apply wrap64_add_l. Qed.

Lemma sub64_add64 a b c : sub64 (add64 a b) c = wrap64 (a + b - c).
Proof.
  unfold add64, sub64.
  replace (wrap64 (a + b) - c) with (wrap64 (a + b) + - c) by lia.
  rewrite wrap64_add_l. f_equal; lia.
Qed.

(** C5. On a position the rule engine reports as over, the evaluator
    returns 0 for a draw, [maxEval - move_number + stones] when the winner
    is the side to move and [minEval + move_number - stones] otherwise,
    [stones] being the winner's stone count; the 64-bit result is that
    number whenever it is representable. *)
Theorem evaluate_terminal (E : Engine) (w : Weights) (c : Constants E)
    (p : Position E) (winner : Color) :
  GameOver E p = (true, winner) ->
  (winner = NoColor -> evaluate E w c p = Some 0)
  /\ (winner <> NoColor -> winner = ToMove E p ->
      int64_range (maxEval - MoveNumber E p + stonesOf E p winner) ->
      evaluate E w c p = Some (maxEval - MoveNumber E p + stonesOf E p winner))
  /\ (winner <> NoColor -> winner <> ToMove E p ->
      int64_range (minEval + MoveNumber E p - stonesOf E p winner) ->
      evaluate E w c p = Some (minEval + MoveNumber E p - stonesOf E p winner)).
Proof.
  intros Hover. unfold evaluate. rewrite Hover.
  split; [|split].
  - intros ->. reflexivity.
  - intros Hn Hw Hr.
    assert (Color_eqb winner (ToMove E p) = true) as -> by (apply Color_eqb_eq; exact Hw).
    destruct winner; try congruence; simpl in *;
      rewrite add64_sub64, wrap64_id by assumption; reflexivity.
  - intros Hn Hw Hr.
    assert (Color_eqb winner (ToMove E p) = false) as ->.
    { destruct (Color_eqb winner (ToMove E p)) eqn:Heq; [|reflexivity].
      apply Color_eqb_eq in Heq. contradiction. }
    destruct winner; try congruence; simpl in *;
      rewrite sub64_add64, wrap64_id by assumption; reflexivity.
Qed.

Lemma evaluate_terminal_witness :
  evaluate (Toy.engine Examples.g1) DefaultWeights tt 1%nat
  = Some (minEval + 20 - 10).
Proof.
  refine (proj2 (proj2 (evaluate_terminal (Toy.engine Examples.g1)
            DefaultWeights tt 1%nat White eq_refl)) _ _ _).
  - discriminate.
  - discriminate.
  - vm_compute. split; [discriminate | reflexivity].
Defined.

(** *** The table test *)

Lemma abs_gt_iff v w : Z.abs v > w <-> (w < v \/ v < - w).
Proof. lia. Qed.

Lemma TablePV_teSuffices_iff (te : TablePV.tableEntry.t) d α β :
  TablePV.teSuffices te d α β = true
  <-> tableAnswers (TablePV.tableEntry.depth te) (TablePV.tableEntry.value te)
        (TablePV.tableEntry.bound te) d α β.
Proof.
  unfold TablePV.teSuffices, tableAnswers.
  rewrite abs_gt_iff.
  rewrite !orb_true_iff, !andb_true_iff, !orb_true_iff, !andb_true_iff.
  rewrite !boundType_eqb_eq, Nat.leb_le, !Z.ltb_lt. intuition lia.
Qed.

Lemma PVS_teSuffices_iff (te : PVS.tableEntry.t) d α β :
  PVS.teSuffices te d α β = true
  <-> tableAnswers (PVS.tableEntry.depth te) (PVS.tableEntry.value te)
        (PVS.tableEntry.bound te) d α β.
Proof.
  unfold PVS.teSuffices, tableAnswers.
  rewrite abs_gt_iff.
  rewrite !orb_true_iff, !andb_true_iff, !orb_true_iff, !andb_true_iff.
  rewrite !boundType_eqb_eq, Nat.leb_le, !Z.ltb_lt. intuition lia.
Qed.

Lemma TablePV_generate_table {E : Engine} (ai ai1 : TablePV.MinimaxAI.t E) p ply moves :
  TablePV.generate ai p ply = Some (moves, ai1) ->
  TablePV.MinimaxAI.table ai1 = TablePV.MinimaxAI.table ai
  /\ TablePV.MinimaxAI.cfg ai1 = TablePV.MinimaxAI.cfg ai
  /\ TablePV.MinimaxAI.evaluate ai1 = TablePV.MinimaxAI.evaluate ai
  /\ TablePV.MinimaxAI.c ai1 = TablePV.MinimaxAI.c ai.
Proof.
  unfold TablePV.generate. destruct (ply =? 0)%nat.
  - simpl. destruct (TablePV.shuffle _ _ _) as [[ms r']|]; simpl; [|discriminate].
    intros [= <- <-]. auto.
  - intros [= <- <-]. auto.
Qed.

(** C1 (amended). In both revisions a node that is not a leaf and whose
    table entry [te] carries the position's hash returns at the table test,
    with the stored line, [te.value] and [TTHits] incremented, exactly when
    [te.depth >= depth] and the bound is exact, or upper with
    [te.value < α], or lower with [te.value > β], or when the bound is exact
    and [|te.value| > WinThreshold]; otherwise it goes on to search its
    moves.  The stored line is [te.ms]; in the revision that stores one
    move it is [[te.m]], and the return further requires that [te.m] applies
    to the position (the entry is dropped otherwise). *)
Theorem table_pruning :
  (forall (E : Engine) d (ai ai1 : TablePV.MinimaxAI.t E) p ply pv α β moves te,
     (GameOver E p).1 = false ->
     TablePV.generate ai p ply = Some (moves, ai1) ->
     TablePV.ttGet ai (Hash E p) = Some te ->
     let answers :=
       tableAnswers (TablePV.tableEntry.depth te) (TablePV.tableEntry.value te)
         (TablePV.tableEntry.bound te) (S d) α β in
     (answers ->
      TablePV.minimax (S d) ai p ply pv α β
      = Some (TablePV.tableEntry.ms te, TablePV.tableEntry.value te,
              TablePV.mapSt TablePV.incTTHits ai1))
     /\ (~ answers ->
         TablePV.minimax (S d) ai p ply pv α β
         = TablePV.searchNode
             (fun ai child pv a b => TablePV.minimax d ai child (S ply) pv a b)
             (S d) ai1 p pv α β (Some te) moves))
  /\ (forall (E : Engine) (moveGen : PVS.MoveGen) d (ai : PVS.MinimaxAI.t E)
        p ply pv α β te,
     (GameOver E p).1 = false ->
     PVS.ttGet ai (Hash E p) = Some te ->
     let ai1 := PVS.mapSt PVS.incVisited ai in
     let answers :=
       tableAnswers (PVS.tableEntry.depth te) (PVS.tableEntry.value te)
         (PVS.tableEntry.bound te) (S d) α β in
     let search := fun ai child pv a b => PVS.minimax moveGen d ai child (S ply) pv a b in
     (answers -> pMove E p (PVS.tableEntry.m te) <> None ->
      PVS.minimax moveGen (S d) ai p ply pv α β
      = Some ([PVS.tableEntry.m te], PVS.tableEntry.value te,
              PVS.mapSt PVS.incTTHits ai1))
     /\ (answers -> pMove E p (PVS.tableEntry.m te) = None ->
         PVS.minimax moveGen (S d) ai p ply pv α β
         = PVS.searchNode moveGen search (S d) ai1 p ply pv α β None)
     /\ (~ answers ->
         PVS.minimax moveGen (S d) ai p ply pv α β
         = PVS.searchNode moveGen search (S d) ai1 p ply pv α β (Some te))).
Proof.
  split.
  - intros E d ai ai1 p ply pv α β moves te Hover Hgen Hget answers.
    assert (TablePV.ttGet ai1 (Hash E p) = Some te) as Hget1.
    { destruct (TablePV_generate_table _ _ _ _ _ Hgen) as [Ht _].
      unfold TablePV.ttGet in *. rewrite Ht. exact Hget. }
    cbn [TablePV.minimax]. rewrite Hover, Hgen. cbn [mbind option_bind].
    rewrite Hget1.
    split; intros Ha.
    + apply TablePV_teSuffices_iff in Ha. rewrite Ha. reflexivity.
    + destruct (TablePV.teSuffices te (S d) α β) eqn:Hs; [|reflexivity].
      apply TablePV_teSuffices_iff in Hs. contradiction.
  - intros E moveGen d ai p ply pv α β te Hover Hget ai1 answers search.
    assert (PVS.ttGet ai1 (Hash E p) = Some te) as Hget1 by exact Hget.
    cbn [PVS.minimax]. rewrite Hover. fold ai1. rewrite Hget1.
    unfold PVS.probe. fold search.
    split; [|split].
    + intros Ha Hm. apply PVS_teSuffices_iff in Ha. rewrite Ha.
      destruct (pMove E p (PVS.tableEntry.m te)); [reflexivity|contradiction].
    + intros Ha Hm. apply PVS_teSuffices_iff in Ha. rewrite Ha, Hm. reflexivity.
    + intros Ha.
      destruct (PVS.teSuffices te (S d) α β) eqn:Hs; [|reflexivity].
      apply PVS_teSuffices_iff in Hs. contradiction.
Qed.

Lemma table_pruning_witness :
  TablePV.minimax 1 Examples.ai1 0%nat 1 [] 6 9
  = Some ([Toy.place 1 0], 5,
          TablePV.mapSt TablePV.incTTHits
            (TablePV.mapSt (TablePV.addGenerated 2)
               (TablePV.mapSt TablePV.incVisited Examples.ai1)))
  /\ PVS.minimax (Toy.gen Examples.g1) 1 Examples.ai2 0%nat 1 [] 6 9
     = Some ([Toy.place 1 0], 5,
             PVS.mapSt PVS.incTTHits (PVS.mapSt PVS.incVisited Examples.ai2)).
Proof.
  split.
  - refine (proj1 (proj1 table_pruning (Toy.engine Examples.g1) 0%nat
              Examples.ai1 _ 0%nat 1%nat [] 6 9 _ Examples.te1
              eq_refl eq_refl eq_refl) _).
    left. split; [simpl; lia|]. right. left. split; [reflexivity|simpl; lia].
  - refine (proj1 (proj2 table_pruning (Toy.engine Examples.g1)
              (Toy.gen Examples.g1) 0%nat Examples.ai2 0%nat 1%nat [] 6 9
              Examples.te2 eq_refl eq_refl) _ _).
    + left. split; [simpl; lia|]. right. left. split; [reflexivity|simpl; lia].
    + discriminate.
Defined.

(** C1, as specified, fails: the table holds for the node an upper bound
    equal to [α] from a deeper search, which section 4.4 declares usable,
    and the node searches its moves all the same and returns another
    line and value, with no table hit counted. *)
Lemma table_pruning_as_specified_fails :
  TablePV.ttGet Examples.ai1 (Hash (Toy.engine Examples.g1) 0%nat) = Some Examples.te1
  /\ specUsable (TablePV.tableEntry.depth Examples.te1)
       (TablePV.tableEntry.value Examples.te1)
       (TablePV.tableEntry.bound Examples.te1) 1 5 9
  /\ exists pv v ai',
       TablePV.minimax 1 Examples.ai1 0%nat 1 [] 5 9 = Some (pv, v, ai')
       /\ (pv, v) <> (TablePV.tableEntry.ms Examples.te1,
                      TablePV.tableEntry.value Examples.te1)
       /\ TablePV.Stats.TTHits (TablePV.MinimaxAI.st ai')
          = TablePV.Stats.TTHits (TablePV.MinimaxAI.st Examples.ai1).
Proof.
  split; [reflexivity|]. split.
  - left. split; [simpl; lia|]. right. left. split; [reflexivity|simpl; lia].
  - eexists _, _, _. split; [reflexivity|].
    split; [vm_compute; discriminate|reflexivity].
Qed.

(** *** The entry stored after the move loop *)

(** The loop only ever raises [α], and [improved] records whether it did. *)
Lemma TablePV_moveLoop_improved {E : Engine} search (p : Position E) β :
  forall moves i ai best improved α best' improved' α' ai',
    TablePV.moveLoop search p β i moves ai best improved α
    = Some (best', improved', α', ai') ->
    α <= α' /\ (improved' = true <-> improved = true \/ α < α').
Proof.
  induction moves as [|m rest IH]; intros i ai best improved α best' improved' α' ai' H.
  - injection H as <- <- <- <-. split; [lia|]. intuition lia.
  - cbn [TablePV.moveLoop] in H.
    destruct (pMove E p m) as [child|]; [|eauto].
    destruct (search ai child (tailpv best) (neg64 β) (neg64 α)) as [[[ms v] ai1]|];
      [|discriminate].
    cbn [mbind option_bind] in H.
    destruct (α <? neg64 v) eqn:Hlt.
    + apply Z.ltb_lt in Hlt.
      destruct (β <=? neg64 v).
      * injection H as <- <- <- <-. split; [lia|]. intuition lia.
      * apply IH in H. destruct H as [Hle Hiff]. split; [lia|].
        split; [intros _; right; lia|]. intros _. apply Hiff. left. reflexivity.
    + apply IH in H. exact H.
Qed.

Lemma PVS_moveLoopWith_improved {E : Engine} nullFirst (search : PVS.SearchFn) depth β :
  forall gen i (ai : PVS.MinimaxAI.t E) best improved α best' improved' α' ai',
    PVS.moveLoopWith nullFirst search depth β i gen ai best improved α
    = Some (best', improved', α', ai') ->
    α <= α' /\ (improved' = true <-> improved = true \/ α < α').
Proof.
  induction gen as [|[mv child] rest IH];
    intros i ai best improved α best' improved' α' ai' H.
  - injection H as <- <- <- <-. split; [lia|]. intuition lia.
  - cbn [PVS.moveLoopWith] in H.
    destruct (PVS.searchChild search (nullFirst (S i)) ai child (tailpv best) α β)
      as [[[ms v] ai1]|]; [|discriminate].
    cbn [mbind option_bind] in H.
    destruct (α <? neg64 v) eqn:Hlt.
    + apply Z.ltb_lt in Hlt.
      destruct (β <=? neg64 v).
      * destruct (PVS.heatUp _ mv depth) as [ai2|]; [|discriminate].
        injection H as <- <- <- <-. split; [lia|]. intuition lia.
      * apply IH in H. destruct H as [Hle Hiff]. split; [lia|].
        split; [intros _; right; lia|]. intros _. apply Hiff. left. reflexivity.
    + apply IH in H. exact H.
Qed.

Lemma classify_specBound improved α0 α β :
  α0 <= α -> (improved = true <-> α0 < α) ->
  TablePV.classify improved α β = specBound α0 α β
  /\ PVS.classify improved α β = specBound α0 α β
  /\ (improved = false <-> α = α0).
Proof.
  intros Hle Hiff. unfold TablePV.classify, PVS.classify, specBound.
  destruct improved.
  - assert (α0 < α) by (apply Hiff; reflexivity).
    assert ((α =? α0) = false) as -> by lia. simpl.
    split; [reflexivity|]. split; [reflexivity|]. split; [discriminate|lia].
  - assert (α = α0) as ->.
    { destruct (Z.eq_dec α α0) as [|Hne]; [assumption|].
      assert (α0 < α) as Hlt by lia. apply Hiff in Hlt. discriminate. }
    rewrite Z.eqb_refl. simpl. repeat split; auto.
Qed.

(** C7. An internal node (not a leaf, not answered by the table) ends as
    its move loop does: where reordering or the loop panics so does the
    node (and, in the revision that stores one move, where the loop leaves
    [best] empty, at [best[0]]); where the loop finishes the node returns
    the loop's line and [α], having written in the slot of the position's
    hash an entry with the hash, the depth, the returned [α] and the best
    line (its first move [best[0]] in the revision that stores one move),
    whose bound is upper exactly when no move raised [α], with [AllNodes]
    incremented, lower when the returned [α] reaches [β], exact otherwise. *)
Theorem stored_entry :
  (forall (E : Engine) d (ai ai1 : TablePV.MinimaxAI.t E) p ply pv α β moves,
     (GameOver E p).1 = false ->
     TablePV.generate ai p ply = Some (moves, ai1) ->
     (forall te, TablePV.ttGet ai (Hash E p) = Some te ->
                 TablePV.teSuffices te (S d) α β = false) ->
     match TablePV.reorder (E := E) pv (TablePV.ttGet ai (Hash E p)) moves with
     | None => TablePV.minimax (S d) ai p ply pv α β = None
     | Some moves' =>
         match TablePV.moveLoop
                 (fun ai child pv a b => TablePV.minimax d ai child (S ply) pv a b)
                 p β 0 moves' ai1 pv false α with
         | None => TablePV.minimax (S d) ai p ply pv α β = None
         | Some (best, improved, α', ai2) =>
             exists ai',
               TablePV.minimax (S d) ai p ply pv α β = Some (best, α', ai')
               /\ (improved = false <-> α' = α)
               /\ TablePV.entryAt (TablePV.MinimaxAI.table ai') (Hash E p)
                  = TablePV.tableEntry.mk (Hash E p) (S d) α' (specBound α α' β) best
               /\ TablePV.Stats.AllNodes (TablePV.MinimaxAI.st ai')
                  = (TablePV.Stats.AllNodes (TablePV.MinimaxAI.st ai2)
                     + if (α' =? α)%Z then 1 else 0)%N
         end
     end)
  /\ (forall (E : Engine) (moveGen : PVS.MoveGen) d (ai : PVS.MinimaxAI.t E)
            p ply pv α β te,
     (GameOver E p).1 = false ->
     PVS.probe (PVS.ttGet ai (Hash E p)) p (S d) α β = PVS.Miss te ->
     let ai1 := PVS.mapSt PVS.incVisited ai in
     let g := moveGen (PVS.MinimaxAI.cfg ai1) (PVS.MinimaxAI.heatMap ai1)
                (PVS.MinimaxAI.rand ai1) ply (S d) p te pv in
     match PVS.moveLoop
             (fun ai child pv a b => PVS.minimax moveGen d ai child (S ply) pv a b)
             (S d) β 0 g.1 (PVS.withRand ai1 g.2) pv false α with
     | None => PVS.minimax moveGen (S d) ai p ply pv α β = None
     | Some (best, improved, α', ai2) =>
         match best !! 0%nat with
         | None => PVS.minimax moveGen (S d) ai p ply pv α β = None
         | Some b0 =>
             exists ai',
               PVS.minimax moveGen (S d) ai p ply pv α β = Some (best, α', ai')
               /\ (improved = false <-> α' = α)
               /\ PVS.entryAt (PVS.MinimaxAI.table ai') (Hash E p)
                  = PVS.tableEntry.mk (Hash E p) (S d) α' (specBound α α' β) b0
               /\ PVS.Stats.AllNodes (PVS.MinimaxAI.st ai')
                  = (PVS.Stats.AllNodes (PVS.MinimaxAI.st ai2)
                     + if (α' =? α)%Z then 1 else 0)%N
         end
     end).
Proof.
  split.
  - intros E d ai ai1 p ply pv α β moves Hover Hgen Hte.
    assert (TablePV.ttGet ai1 (Hash E p) = TablePV.ttGet ai (Hash E p)) as Hget.
    { destruct (TablePV_generate_table _ _ _ _ _ Hgen) as [Ht _].
      unfold TablePV.ttGet. rewrite Ht. reflexivity. }
    assert (TablePV.minimax (S d) ai p ply pv α β
            = TablePV.searchNode
                (fun ai child pv a b => TablePV.minimax d ai child (S ply) pv a b)
                (S d) ai1 p pv α β (TablePV.ttGet ai (Hash E p)) moves) as ->.
    { cbn [TablePV.minimax]. rewrite Hover, Hgen.
      cbn [mbind option_bind]. rewrite Hget.
      destruct (TablePV.ttGet ai (Hash E p)) as [te|] eqn:Hg; [|reflexivity].
      rewrite (Hte te eq_refl). reflexivity. }
    unfold TablePV.searchNode.
    destruct (TablePV.reorder pv _ moves) as [moves'|]; [|reflexivity].
    cbn [mbind option_bind].
    destruct (TablePV.moveLoop _ p β 0 moves' ai1 pv false α)
      as [[[[best improved] α1] ai2]|] eqn:Hloop; [|reflexivity].
    cbn [mbind option_bind].
    destruct (TablePV_moveLoop_improved _ _ _ _ _ _ _ _ _ _ _ _ _ Hloop) as [Hle Hiff].
    destruct (classify_specBound improved α α1 β Hle) as (Hc & _ & Hi).
    { rewrite Hiff. intuition discriminate. }
    eexists. split; [reflexivity|]. split; [exact Hi|].
    split.
    + rewrite Hc. destruct improved; simpl;
        unfold TablePV.entryAt; simpl; rewrite lookup_insert_eq; reflexivity.
    + destruct improved; simpl.
      * assert ((α1 =? α) = false) as ->; [|lia].
        apply Z.eqb_neq. intros Heq. apply Hi in Heq. discriminate.
      * assert ((α1 =? α) = true) as ->; [|reflexivity].
        apply Z.eqb_eq. apply Hi. reflexivity.
  - intros E moveGen d ai p ply pv α β te Hover Hprobe ai1 g.
    assert (PVS.minimax moveGen (S d) ai p ply pv α β
            = PVS.searchNode moveGen
                (fun ai child pv a b => PVS.minimax moveGen d ai child (S ply) pv a b)
                (S d) ai1 p ply pv α β te) as ->.
    { cbn [PVS.minimax]. rewrite Hover. fold ai1.
      change (PVS.ttGet ai1 (Hash E p)) with (PVS.ttGet ai (Hash E p)).
      rewrite Hprobe. reflexivity. }
    unfold PVS.searchNode, PVS.searchNodeWith. fold g.
    destruct g as [gen r] eqn:Hg. cbn [fst snd].
    destruct (PVS.moveLoop _ (S d) β 0 gen (PVS.withRand ai1 r) pv false α)
      as [[[[best1 improved] α1] ai2]|] eqn:Hloop; [|reflexivity].
    cbn [mbind option_bind]. unfold PVS.storeNode.
    destruct (best1 !! 0%nat) as [b0|] eqn:Hb0; [|reflexivity].
    cbn [mbind option_bind].
    destruct (PVS_moveLoopWith_improved _ _ _ _ _ _ _ _ _ _ _ _ _ _ Hloop) as [Hle Hiff].
    destruct (classify_specBound improved α α1 β Hle) as (_ & Hc & Hi).
    { rewrite Hiff. intuition discriminate. }
    eexists. split; [reflexivity|]. split; [exact Hi|].
    split.
    + rewrite Hc. destruct improved; simpl;
        unfold PVS.entryAt; simpl; rewrite lookup_insert_eq; reflexivity.
    + destruct improved; simpl.
      * assert ((α1 =? α) = false) as ->; [|lia].
        apply Z.eqb_neq. intros Heq. apply Hi in Heq. discriminate.
      * assert ((α1 =? α) = true) as ->; [|reflexivity].
        apply Z.eqb_eq. apply Hi. reflexivity.
Qed.

Lemma stored_entry_witness :
  (exists best α' ai',
     TablePV.minimax 1 Examples.ai1 0%nat 1 [] (-5) 9 = Some (best, α', ai')
     /\ TablePV.entryAt (TablePV.MinimaxAI.table ai') 100
        = TablePV.tableEntry.mk 100 1 α' lowerBound best)
  /\ (exists best α' ai',
        PVS.minimax (Toy.gen Examples.g1) 1 Examples.ai3 0%nat 1 [] (-5) 9
        = Some (best, α', ai')
        /\ PVS.entryAt (PVS.MinimaxAI.table ai') 100
           = PVS.tableEntry.mk 100 1 α' lowerBound (Toy.place 0 0)).
Proof.
  split.
  - assert (forall te,
              TablePV.ttGet Examples.ai1 (Hash (Toy.engine Examples.g1) 0%nat)
              = Some te ->
              TablePV.teSuffices te 1 (-5) 9 = false) as Hte.
    { intros te Hget. vm_compute in Hget. injection Hget as <-. reflexivity. }
    pose proof (proj1 stored_entry (Toy.engine Examples.g1) 0%nat Examples.ai1 _
                  0%nat 1%nat [] (-5) 9 _ eq_refl eq_refl Hte) as H.
    cbn [TablePV.reorder] in H.
    assert (from_option (fun r => r.1.2 =? 1073741814) false
              (TablePV.minimax 1 Examples.ai1 0%nat 1 [] (-5) 9) = true) as Hv
      by (vm_compute; reflexivity).
    destruct (TablePV.moveLoop _ _ _ _ _ _ _ _ _)
      as [[[[best improved] α'] ai2]|] in H.
    + destruct H as (ai' & Hm & _ & He & _).
      rewrite Hm in Hv. cbn [from_option fst snd] in Hv. apply Z.eqb_eq in Hv.
      exists best, α', ai'. split; [exact Hm|].
      change (Hash (Toy.engine Examples.g1) 0%nat) with 100 in He.
      rewrite He, Hv. reflexivity.
    + rewrite H in Hv. discriminate Hv.
  - pose proof (proj2 stored_entry (Toy.engine Examples.g1) (Toy.gen Examples.g1)
                  0%nat Examples.ai3 0%nat 1%nat [] (-5) 9 None eq_refl eq_refl)
      as H.
    cbv zeta in H.
    assert (from_option
              (fun r => (r.1.2 =? 1073741814) && Toy.Move_eqb (default zeroMove (r.1.1 !! 0%nat)) (Toy.place 0 0))
              false
              (PVS.minimax (Toy.gen Examples.g1) 1 Examples.ai3 0%nat 1 [] (-5) 9)
            = true) as Hv
      by (vm_compute; reflexivity).
    destruct (PVS.moveLoop _ _ _ _ _ _ _ _ _)
      as [[[[best improved] α'] ai2]|] in H.
    + destruct (best !! 0%nat) as [b0|] eqn:Hb0.
      * destruct H as (ai' & Hm & _ & He & _).
        rewrite Hm in Hv. cbn [from_option fst snd] in Hv.
        apply andb_true_iff in Hv. destruct Hv as [Hv Hb].
        apply Z.eqb_eq in Hv. rewrite Hb0 in Hb. cbn [default] in Hb.
        exists best, α', ai'. split; [exact Hm|].
        change (Hash (Toy.engine Examples.g1) 0%nat) with 100 in He.
        rewrite He, Hv.
        unfold Toy.Move_eqb in Hb. rewrite !andb_true_iff in Hb.
        destruct Hb as [[[Hx Hy] Ht] Hs].
        apply Z.eqb_eq in Hx, Hy, Ht. apply bool_decide_eq_true in Hs.
        destruct b0 as [x y t sl]. cbn in Hx, Hy, Ht, Hs. subst. reflexivity.
      * rewrite H in Hv. discriminate Hv.
    + rewrite H in Hv. discriminate Hv.
Defined.

(** *** The transposition table as a store *)

Lemma tableSize_pos : 0 < tableSize.
Proof. reflexivity. Qed.

(** The table is direct-mapped and always replaces: after an entry is
    written for hash [h], a lookup of [h] finds it when it carries [h]; a
    hash of another slot is answered as before; a different hash of the
    same slot is no longer answered, whatever was stored for it. *)
Theorem table_store_lookup :
  (forall (E : Engine) (m : TablePV.MinimaxAI.t E) h e,
     (TablePV.tableEntry.hash e = h ->
      TablePV.ttGet (TablePV.ttStore m h e) h = Some e)
     /\ (forall h', slot h' <> slot h ->
         TablePV.ttGet (TablePV.ttStore m h e) h' = TablePV.ttGet m h')
     /\ (forall h', slot h' = slot h -> h' <> h ->
         TablePV.tableEntry.hash e = h ->
         TablePV.ttGet (TablePV.ttStore m h e) h' = None))
  /\ (forall (E : Engine) (m : PVS.MinimaxAI.t E) h e,
     PVS.MinimaxConfig.NoTable (PVS.MinimaxAI.cfg m) = false ->
     (PVS.tableEntry.hash e = h ->
      PVS.ttGet (PVS.ttStore m h e) h = Some e)
     /\ (forall h', slot h' <> slot h ->
         PVS.ttGet (PVS.ttStore m h e) h' = PVS.ttGet m h')
     /\ (forall h', slot h' = slot h -> h' <> h ->
         PVS.tableEntry.hash e = h ->
         PVS.ttGet (PVS.ttStore m h e) h' = None)).
Proof.
  split.
  - intros E m h e. unfold TablePV.ttGet, TablePV.ttStore, TablePV.entryAt. simpl.
    split; [|split].
    + intros He. rewrite lookup_insert_eq. simpl. rewrite He, Z.eqb_refl. reflexivity.
    + intros h' Hs. rewrite lookup_insert_ne by congruence. reflexivity.
    + intros h' Hs Hne He. rewrite Hs, lookup_insert_eq. simpl. rewrite He.
      destruct (h =? h') eqn:Heq; [|reflexivity].
      apply Z.eqb_eq in Heq. congruence.
  - intros E m h e Hnt. unfold PVS.ttGet, PVS.ttStore, PVS.entryAt. simpl.
    rewrite Hnt. split; [|split].
    + intros He. rewrite lookup_insert_eq. simpl. rewrite He, Z.eqb_refl. reflexivity.
    + intros h' Hs. rewrite lookup_insert_ne by congruence. reflexivity.
    + intros h' Hs Hne He. rewrite Hs, lookup_insert_eq. simpl. rewrite He.
      destruct (h =? h') eqn:Heq; [|reflexivity].
      apply Z.eqb_eq in Heq. congruence.
Qed.

Lemma table_store_lookup_witness :
  PVS.ttGet (PVS.ttStore Examples.ai3 100 Examples.te2) 100 = Some Examples.te2
  /\ PVS.ttGet (PVS.ttStore Examples.ai3 100 Examples.te2) (100 + tableSize) = None.
Proof.
  destruct (proj2 table_store_lookup (Toy.engine Examples.g1) Examples.ai3 100
              Examples.te2 eq_refl) as (H1 & _ & H3).
  split.
  - apply H1. reflexivity.
  - apply H3; [reflexivity|discriminate|reflexivity].
Defined.

(** A searcher fresh from [NewMinimax] answers no hash but 0, and answers
    hash 0 with the zero value of an entry: a lower bound of 0 at depth 0
    (with an empty line, or the zero move), because the slots of a new
    table carry hash 0.  With [NoTable] nothing is ever answered. *)
Theorem fresh_table_lookup :
  (forall (E : Engine) (cfg : TablePV.MinimaxConfig.t E) h,
     TablePV.ttGet (TablePV.NewMinimax cfg) h
     = if h =? 0 then Some TablePV.tableEntry.zero else None)
  /\ (forall (E : Engine) (cfg : PVS.MinimaxConfig.t E) (m : PVS.MinimaxAI.t E) h,
     PVS.NewMinimax cfg = Some m ->
     PVS.ttGet m h
     = if PVS.MinimaxConfig.NoTable cfg then None
       else if h =? 0 then Some PVS.tableEntry.zero else None).
Proof.
  split.
  - intros E cfg h. unfold TablePV.ttGet, TablePV.NewMinimax, TablePV.entryAt.
    cbn [TablePV.MinimaxAI.table]. rewrite lookup_empty.
    cbn [default TablePV.tableEntry.hash TablePV.tableEntry.zero].
    destruct (Z.eqb_spec h 0) as [->|Hne]; [reflexivity|].
    destruct (Z.eqb_spec 0 h); [congruence|reflexivity].
  - intros E cfg m h. unfold PVS.NewMinimax.
    destruct (_ <? 0); [discriminate|]. intros [= <-].
    unfold PVS.ttGet, PVS.entryAt.
    cbn [PVS.MinimaxAI.table PVS.MinimaxAI.cfg].
    destruct (PVS.MinimaxConfig.NoTable cfg); [reflexivity|].
    rewrite lookup_empty.
    cbn [default PVS.tableEntry.hash PVS.tableEntry.zero].
    destruct (Z.eqb_spec h 0) as [->|Hne]; [reflexivity|].
    destruct (Z.eqb_spec 0 h); [congruence|reflexivity].
Qed.

Lemma fresh_table_lookup_witness :
  PVS.ttGet Examples.ai3 0 = Some PVS.tableEntry.zero.
Proof.
  exact (proj2 fresh_table_lookup (Toy.engine Examples.g1)
           (PVS.MinimaxConfig.mk 5 1 0 1 false false None) Examples.ai3 0 eq_refl).
Defined.

(** *** [Analyze] when the deepening loop does not run *)

(** The seed [Analyze] gives the random source. *)
Definition seedOf (clock : Clock) (seed : Z) : Z :=
  if seed =? 0 then unixSeconds (clock 0%nat) else seed.

(** C9 (amended). When the table already holds for the root an exact
    entry at least as deep as [cfg.Depth], [Analyze] searches nothing: it
    returns the stored line with the value 0 (not the stored value) and the
    counters the searcher held at entry, untouched (those of its previous
    search, not zeroed ones); only the random source is re-seeded (and, in
    the later revision, the heat map halved). *)
Theorem Analyze_cached_root :
  (forall (E : Engine) clock (m : TablePV.MinimaxAI.t E) p limit te,
     TablePV.MinimaxConfig.Size (TablePV.MinimaxAI.cfg m) = Size E p ->
     TablePV.ttGet m (Hash E p) = Some te ->
     TablePV.tableEntry.bound te = exactBound ->
     TablePV.MinimaxConfig.Depth (TablePV.MinimaxAI.cfg m)
       <= Z.of_nat (TablePV.tableEntry.depth te) ->
     TablePV.Analyze clock m p limit
     = Some (TablePV.tableEntry.ms te, 0, TablePV.MinimaxAI.st m,
             TablePV.withRand m
               (Some (NewSource E
                        (seedOf clock
                           (TablePV.MinimaxConfig.Seed (TablePV.MinimaxAI.cfg m)))))))
  /\ (forall (E : Engine) (moveGen : PVS.MoveGen) clock (m : PVS.MinimaxAI.t E)
            p limit te,
     PVS.MinimaxConfig.Size (PVS.MinimaxAI.cfg m) = Size E p ->
     PVS.ttGet m (Hash E p) = Some te ->
     PVS.tableEntry.bound te = exactBound ->
     PVS.MinimaxConfig.Depth (PVS.MinimaxAI.cfg m)
       <= Z.of_nat (PVS.tableEntry.depth te) ->
     PVS.Analyze moveGen clock m p limit
     = Some ([PVS.tableEntry.m te], 0, PVS.MinimaxAI.st m,
             PVS.withRand
               (PVS.withHeatMap m
                  (map (fun v => v `div` 2) (PVS.MinimaxAI.heatMap m)))
               (Some (NewSource E
                        (seedOf clock
                           (PVS.MinimaxConfig.Seed (PVS.MinimaxAI.cfg m))))))).
Proof.
  split.
  - intros E clock m p limit te Hsize Hget Hb Hd.
    assert (Z.to_nat (TablePV.MinimaxConfig.Depth (TablePV.MinimaxAI.cfg m)
                      - Z.of_nat (TablePV.tableEntry.depth te)) = 0%nat) as Hz by lia.
    unfold TablePV.Analyze. rewrite Hsize, Z.eqb_refl. cbn [negb].
    unfold seedOf.
    destruct (TablePV.MinimaxConfig.Seed (TablePV.MinimaxAI.cfg m) =? 0);
      (change (TablePV.ttGet (TablePV.withRand m ?r) (Hash E p))
         with (TablePV.ttGet m (Hash E p));
       rewrite Hget, Hb; cbn [boundType_eqb TablePV.withRand TablePV.MinimaxAI.cfg];
       rewrite Hz; reflexivity).
  - intros E moveGen clock m p limit te Hsize Hget Hb Hd.
    assert (Z.to_nat (PVS.MinimaxConfig.Depth (PVS.MinimaxAI.cfg m)
                      - Z.of_nat (PVS.tableEntry.depth te)) = 0%nat) as Hz by lia.
    unfold PVS.Analyze. rewrite Hsize, Z.eqb_refl. cbn [negb].
    unfold seedOf.
    cbn [PVS.withHeatMap PVS.MinimaxAI.cfg].
    destruct (PVS.MinimaxConfig.Seed (PVS.MinimaxAI.cfg m) =? 0);
      (change (PVS.ttGet (PVS.withRand ?a ?r) (Hash E p))
         with (PVS.ttGet m (Hash E p));
       rewrite Hget, Hb;
       cbn [boundType_eqb PVS.withRand PVS.withHeatMap PVS.MinimaxAI.cfg];
       rewrite Hz; reflexivity).
Qed.

Lemma Analyze_cached_root_witness :
  PVS.Analyze (Toy.gen Examples.g1) Toy.clock0 Examples.warm 0%nat 0
  = Some ([Toy.place 0 0], 0, PVS.MinimaxAI.st Examples.warm,
          PVS.withRand
            (PVS.withHeatMap Examples.warm
               (map (fun v => v `div` 2) (PVS.MinimaxAI.heatMap Examples.warm)))
            (Some 1)).
Proof.
  refine (proj2 Analyze_cached_root (Toy.engine Examples.g1) (Toy.gen Examples.g1)
            Toy.clock0 Examples.warm 0%nat 0
            (PVS.tableEntry.mk 100 1 1073741814 exactBound (Toy.place 0 0))
            eq_refl eq_refl eq_refl _).
  vm_compute. discriminate.
Defined.

(** The claim as stated fails on the counters: the searcher [warm], left
    by an analysis of the root of [g1], holds an exact entry for that root
    as deep as [cfg.Depth]; analysing the root again returns the counters
    of the first analysis, which evaluated two positions. *)
Lemma cached_root_counters_not_zeroed :
  PVS.ttGet Examples.warm (Hash (Toy.engine Examples.g1) 0%nat)
  = Some (PVS.tableEntry.mk 100 1 (maxEval - 20 + 10) exactBound (Toy.place 0 0))
  /\ PVS.MinimaxConfig.Depth (PVS.MinimaxAI.cfg Examples.warm) <= 1
  /\ match PVS.Analyze (Toy.gen Examples.g1) Toy.clock0 Examples.warm 0%nat 0 with
     | Some (_, _, st, _) => PVS.Stats.Evaluated st = 2%N
     | None => False
     end.
Proof.
  split; [vm_compute; reflexivity|].
  split; [vm_compute; discriminate|].
  vm_compute. reflexivity.
Qed.

(** *** [Analyze] on a finished game *)

Lemma PVS_minimax_over {E : Engine} (moveGen : PVS.MoveGen) depth
    (ai : PVS.MinimaxAI.t E) p ply pv α β :
  (GameOver E p).1 = true ->
  PVS.minimax moveGen depth ai p ply pv α β = PVS.leaf ai p.
Proof. intros H. destruct depth; cbn [PVS.minimax]; [|rewrite H]; reflexivity. Qed.

Lemma TablePV_minimax_over {E : Engine} depth (ai : TablePV.MinimaxAI.t E)
    p ply pv α β :
  (GameOver E p).1 = true ->
  TablePV.minimax depth ai p ply pv α β = TablePV.leaf ai p.
Proof. intros H. destruct depth; cbn [TablePV.minimax]; [|rewrite H]; reflexivity. Qed.

Lemma PVS_deepen_over {E : Engine} (moveGen : PVS.MoveGen) clock p limit base top v :
  (GameOver E p).1 = true ->
  forall n i k pe bs ms0 v0 (m : PVS.MinimaxAI.t E),
    PVS.MinimaxAI.evaluate m (PVS.MinimaxAI.c m) p = Some v ->
    exists r m',
      PVS.deepen moveGen n clock p limit base top i k pe bs ms0 v0 m = Some (r, m')
      /\ (r = ([], v)
          \/ (r = (ms0, v0)
              /\ (n = 0%nat
                  \/ PVS.MinimaxConfig.Depth (PVS.MinimaxAI.cfg m) < i + Z.of_nat base))).
Proof.
  intros Hover. induction n as [|n IH]; intros i k pe bs ms0 v0 m Hev.
  - exists (ms0, v0), m. split; [reflexivity|]. right. auto.
  - cbn [PVS.deepen].
    destruct (i + Z.of_nat base <=? PVS.MinimaxConfig.Depth (PVS.MinimaxAI.cfg m)) eqn:Hd;
      cbn [negb].
    + cbn [PVS.withSt PVS.MinimaxAI.cfg].
      rewrite PVS_minimax_over by exact Hover.
      unfold PVS.leaf. rewrite Hover.
      cbn [PVS.mapSt PVS.withSt PVS.MinimaxAI.evaluate PVS.MinimaxAI.c PVS.MinimaxAI.st].
      rewrite Hev. cbn [mbind option_bind].
      cbn [PVS.MinimaxAI.cfg PVS.MinimaxAI.st].
      destruct ((WinThreshold <? v) || (v <? - WinThreshold)).
      * eexists _, _. split; [reflexivity|]. left. reflexivity.
      * match goal with
        | |- context [if ?c then _ else _] => destruct c
        end.
        -- match goal with
           | |- context [if ?c then _ else _] => destruct c
           end.
           ++ eexists _, _. split; [reflexivity|]. left. reflexivity.
           ++ edestruct IH as (r & m' & Hr & Hcase); [|rewrite Hr].
              { cbn [PVS.MinimaxAI.evaluate PVS.MinimaxAI.c]. exact Hev. }
              exists r, m'. split; [reflexivity|]. left.
              destruct Hcase as [->|[-> _]]; reflexivity.
        -- edestruct IH as (r & m' & Hr & Hcase); [|rewrite Hr].
           { cbn [PVS.MinimaxAI.evaluate PVS.MinimaxAI.c]. exact Hev. }
           exists r, m'. split; [reflexivity|]. left.
           destruct Hcase as [->|[-> _]]; reflexivity.
    + exists (ms0, v0), m. split; [reflexivity|]. right. split; [reflexivity|].
      right. lia.
Qed.

Lemma TablePV_deepen_over {E : Engine} clock p limit base top v :
  (GameOver E p).1 = true ->
  forall n i k pe bs ms0 v0 (m : TablePV.MinimaxAI.t E),
    TablePV.MinimaxAI.evaluate m (TablePV.MinimaxAI.c m) p = Some v ->
    exists r m',
      TablePV.deepen n clock p limit base top i k pe bs ms0 v0 m = Some (r, m')
      /\ (r = ([], v)
          \/ (r = (ms0, v0)
              /\ (n = 0%nat
                  \/ TablePV.MinimaxConfig.Depth (TablePV.MinimaxAI.cfg m)
                     < i + Z.of_nat base))).
Proof.
  intros Hover. induction n as [|n IH]; intros i k pe bs ms0 v0 m Hev.
  - exists (ms0, v0), m. split; [reflexivity|]. right. auto.
  - cbn [TablePV.deepen].
    destruct (i + Z.of_nat base
              <=? TablePV.MinimaxConfig.Depth (TablePV.MinimaxAI.cfg m)) eqn:Hd;
      cbn [negb].
    + cbn [TablePV.withSt TablePV.MinimaxAI.cfg].
      rewrite TablePV_minimax_over by exact Hover.
      unfold TablePV.leaf.
      cbn [TablePV.mapSt TablePV.withSt TablePV.MinimaxAI.evaluate
             TablePV.MinimaxAI.c TablePV.MinimaxAI.st].
      rewrite Hev. cbn [mbind option_bind].
      cbn [TablePV.MinimaxAI.cfg TablePV.MinimaxAI.st].
      destruct ((WinThreshold <? v) || (v <? - WinThreshold)).
      * eexists _, _. split; [reflexivity|]. left. reflexivity.
      * match goal with
        | |- context [if ?c then _ else _] => destruct c
        end.
        -- match goal with
           | |- context [if ?c then _ else _] => destruct c
           end.
           ++ eexists _, _. split; [reflexivity|]. left. reflexivity.
           ++ edestruct IH as (r & m' & Hr & Hcase); [|rewrite Hr].
              { cbn [TablePV.MinimaxAI.evaluate TablePV.MinimaxAI.c]. exact Hev. }
              exists r, m'. split; [reflexivity|]. left.
              destruct Hcase as [->|[-> _]]; reflexivity.
        -- edestruct IH as (r & m' & Hr & Hcase); [|rewrite Hr].
           { cbn [TablePV.MinimaxAI.evaluate TablePV.MinimaxAI.c]. exact Hev. }
           exists r, m'. split; [reflexivity|]. left.
           destruct Hcase as [->|[-> _]]; reflexivity.
    + exists (ms0, v0), m. split; [reflexivity|]. right. split; [reflexivity|].
      right. lia.
Qed.

(** C10 (amended). On a position the rule engine reports as over,
    [Analyze] returns an empty line with the evaluator's score of that
    position, whenever it searches at all ([cfg.Depth >= 1] and no exact
    root entry that deep in the table; a fresh table holds none), and
    [GetMove] then panics on [ms[0]] instead of returning a move. *)
Theorem Analyze_finished_game :
  (forall (E : Engine) clock (m : TablePV.MinimaxAI.t E) p limit v,
     TablePV.MinimaxConfig.Size (TablePV.MinimaxAI.cfg m) = Size E p ->
     (GameOver E p).1 = true ->
     TablePV.MinimaxAI.evaluate m (TablePV.MinimaxAI.c m) p = Some v ->
     1 <= TablePV.MinimaxConfig.Depth (TablePV.MinimaxAI.cfg m) ->
     (forall te, TablePV.ttGet m (Hash E p) = Some te ->
                 TablePV.tableEntry.bound te = exactBound ->
                 Z.of_nat (TablePV.tableEntry.depth te)
                 < TablePV.MinimaxConfig.Depth (TablePV.MinimaxAI.cfg m)) ->
     (exists st m', TablePV.Analyze clock m p limit = Some ([], v, st, m'))
     /\ TablePV.GetMove clock m p limit = None)
  /\ (forall (E : Engine) (moveGen : PVS.MoveGen) clock (m : PVS.MinimaxAI.t E)
            p limit v,
     PVS.MinimaxConfig.Size (PVS.MinimaxAI.cfg m) = Size E p ->
     (GameOver E p).1 = true ->
     PVS.MinimaxAI.evaluate m (PVS.MinimaxAI.c m) p = Some v ->
     1 <= PVS.MinimaxConfig.Depth (PVS.MinimaxAI.cfg m) ->
     (forall te, PVS.ttGet m (Hash E p) = Some te ->
                 PVS.tableEntry.bound te = exactBound ->
                 Z.of_nat (PVS.tableEntry.depth te)
                 < PVS.MinimaxConfig.Depth (PVS.MinimaxAI.cfg m)) ->
     (exists st m', PVS.Analyze moveGen clock m p limit = Some ([], v, st, m'))
     /\ PVS.GetMove moveGen clock m p limit = None).
Proof.
  split.
  - intros E clock m p limit v Hsize Hover Hev Hdepth Hte.
    assert (exists st m', TablePV.Analyze clock m p limit = Some ([], v, st, m')) as HA.
    { unfold TablePV.Analyze. rewrite Hsize, Z.eqb_refl. cbn [negb].
      set (sk := if TablePV.MinimaxConfig.Seed (TablePV.MinimaxAI.cfg m) =? 0
                 then _ else _).
      destruct sk as [seed k].
      change (TablePV.ttGet (TablePV.withRand m ?r) (Hash E p))
        with (TablePV.ttGet m (Hash E p)).
      set (bm := match TablePV.ttGet m (Hash E p) with Some _ => _ | None => _ end).
      assert (Z.of_nat bm.1 < TablePV.MinimaxConfig.Depth (TablePV.MinimaxAI.cfg m)) as Hb.
      { subst bm. destruct (TablePV.ttGet m (Hash E p)) as [te|] eqn:Hget;
          [|simpl; lia].
        destruct (boundType_eqb (TablePV.tableEntry.bound te) exactBound) eqn:Hbd;
          [|simpl; lia].
        apply boundType_eqb_eq in Hbd. simpl. apply (Hte te eq_refl Hbd). }
      destruct bm as [base ms0]. cbn [fst] in Hb.
      change (TablePV.MinimaxAI.cfg (TablePV.withRand m ?r))
        with (TablePV.MinimaxAI.cfg m).
      edestruct (TablePV_deepen_over clock p limit base (clock k) v Hover
                   (Z.to_nat (TablePV.MinimaxConfig.Depth (TablePV.MinimaxAI.cfg m)
                              - Z.of_nat base))
                   1 (S k) 0%N 0%N ms0 0
                   (TablePV.withRand m (Some (NewSource E seed))))
        as (r & m' & Hr & Hcase); [exact Hev|].
      rewrite Hr. cbn [mbind option_bind].
      destruct Hcase as [->|[_ [Hz|Hlt]]].
      - eexists _, _. reflexivity.
      - exfalso. lia.
      - exfalso. simpl in Hlt. lia. }
    split; [exact HA|].
    destruct HA as (st & m' & HA). unfold TablePV.GetMove. rewrite HA. reflexivity.
  - intros E moveGen clock m p limit v Hsize Hover Hev Hdepth Hte.
    assert (exists st m', PVS.Analyze moveGen clock m p limit = Some ([], v, st, m')) as HA.
    { unfold PVS.Analyze. rewrite Hsize, Z.eqb_refl. cbn [negb].
      change (PVS.MinimaxAI.cfg (PVS.withHeatMap m ?h)) with (PVS.MinimaxAI.cfg m).
      set (sk := if PVS.MinimaxConfig.Seed (PVS.MinimaxAI.cfg m) =? 0
                 then _ else _).
      destruct sk as [seed k].
      change (PVS.ttGet (PVS.withRand ?a ?r) (Hash E p))
        with (PVS.ttGet m (Hash E p)).
      set (bm := match PVS.ttGet m (Hash E p) with Some _ => _ | None => _ end).
      assert (Z.of_nat bm.1 < PVS.MinimaxConfig.Depth (PVS.MinimaxAI.cfg m)) as Hb.
      { subst bm. destruct (PVS.ttGet m (Hash E p)) as [te|] eqn:Hget;
          [|simpl; lia].
        destruct (boundType_eqb (PVS.tableEntry.bound te) exactBound) eqn:Hbd;
          [|simpl; lia].
        apply boundType_eqb_eq in Hbd. simpl. apply (Hte te eq_refl Hbd). }
      destruct bm as [base ms0]. cbn [fst] in Hb.
      change (PVS.MinimaxAI.cfg (PVS.withRand ?a ?r))
        with (PVS.MinimaxAI.cfg m).
      edestruct (PVS_deepen_over moveGen clock p limit base (clock k) v Hover
                   (Z.to_nat (PVS.MinimaxConfig.Depth (PVS.MinimaxAI.cfg m)
                              - Z.of_nat base))
                   1 (S k) 0%N 0%N ms0 0
                   (PVS.withRand
                      (PVS.withHeatMap m
                         (map (fun v => v `div` 2) (PVS.MinimaxAI.heatMap m)))
                      (Some (NewSource E seed))))
        as (r & m' & Hr & Hcase); [exact Hev|].
      rewrite Hr. cbn [mbind option_bind].
      destruct Hcase as [->|[_ [Hz|Hlt]]].
      - eexists _, _. reflexivity.
      - exfalso. lia.
      - exfalso. simpl in Hlt. lia. }
    split; [exact HA|].
    destruct HA as (st & m' & HA). unfold PVS.GetMove. rewrite HA. reflexivity.
Qed.

Lemma Analyze_finished_game_witness :
  (exists st m',
     PVS.Analyze (Toy.gen Examples.g1) Toy.clock0 Examples.ai3 1%nat 0
     = Some ([], minEval + 20 - 10, st, m'))
  /\ PVS.GetMove (Toy.gen Examples.g1) Toy.clock0 Examples.ai3 1%nat 0 = None.
Proof.
  refine (proj2 Analyze_finished_game (Toy.engine Examples.g1)
            (Toy.gen Examples.g1) Toy.clock0 Examples.ai3 1%nat 0
            (minEval + 20 - 10) eq_refl eq_refl eq_refl _ _).
  - vm_compute. discriminate.
  - intros te Hte. vm_compute in Hte. discriminate Hte.
Defined.

(** The claim as stated fails for a searcher left at [Depth = 0] (what
    a configuration that does not set [Depth] gives): on the finished game
    [g2], with a fresh table, [Analyze] pairs the empty line with 0, while
    the evaluator scores the position [minEval + 11 - 16]. *)
Lemma finished_game_unsearched_value :
  (GameOver (Toy.engine Examples.g2) 0%nat).1 = true
  /\ PVS.MinimaxAI.table Examples.ai00 = ∅
  /\ PVS.MinimaxAI.evaluate Examples.ai00 (PVS.MinimaxAI.c Examples.ai00) 0%nat
     = Some (minEval + 11 - 16)
  /\ exists st m',
       PVS.Analyze (Toy.gen Examples.g2) Toy.clock0 Examples.ai00 0%nat 0
       = Some ([], 0, st, m').
Proof.
  split; [reflexivity|]. split; [reflexivity|].
  split; [vm_compute; reflexivity|].
  eexists _, _. reflexivity.
Qed.

(** With [cfg.Depth] below 1 and no exact entry for the root in the
    table, [Analyze] searches nothing and returns the empty line with
    value 0 and the counters it found, whatever the position; [GetMove]
    panics on it. *)
Theorem Analyze_depth_below_one :
  (forall (E : Engine) clock (m : TablePV.MinimaxAI.t E) p limit,
     TablePV.MinimaxConfig.Size (TablePV.MinimaxAI.cfg m) = Size E p ->
     TablePV.MinimaxConfig.Depth (TablePV.MinimaxAI.cfg m) < 1 ->
     (forall te, TablePV.ttGet m (Hash E p) = Some te ->
                 TablePV.tableEntry.bound te <> exactBound) ->
     TablePV.Analyze clock m p limit
     = Some ([], 0, TablePV.MinimaxAI.st m,
             TablePV.withRand m
               (Some (NewSource E
                        (seedOf clock
                           (TablePV.MinimaxConfig.Seed (TablePV.MinimaxAI.cfg m))))))
     /\ TablePV.GetMove clock m p limit = None)
  /\ (forall (E : Engine) (moveGen : PVS.MoveGen) clock (m : PVS.MinimaxAI.t E)
            p limit,
     PVS.MinimaxConfig.Size (PVS.MinimaxAI.cfg m) = Size E p ->
     PVS.MinimaxConfig.Depth (PVS.MinimaxAI.cfg m) < 1 ->
     (forall te, PVS.ttGet m (Hash E p) = Some te ->
                 PVS.tableEntry.bound te <> exactBound) ->
     PVS.Analyze moveGen clock m p limit
     = Some ([], 0, PVS.MinimaxAI.st m,
             PVS.withRand
               (PVS.withHeatMap m
                  (map (fun v => v `div` 2) (PVS.MinimaxAI.heatMap m)))
               (Some (NewSource E
                        (seedOf clock
                           (PVS.MinimaxConfig.Seed (PVS.MinimaxAI.cfg m))))))
     /\ PVS.GetMove moveGen clock m p limit = None).
Proof.
  split.
  - intros E clock m p limit Hsize Hd Hte.
    assert (Z.to_nat (TablePV.MinimaxConfig.Depth (TablePV.MinimaxAI.cfg m)
                      - Z.of_nat 0) = 0%nat) as Hz by lia.
    assert (TablePV.Analyze clock m p limit
            = Some ([], 0, TablePV.MinimaxAI.st m,
                    TablePV.withRand m
                      (Some (NewSource E
                               (seedOf clock
                                  (TablePV.MinimaxConfig.Seed (TablePV.MinimaxAI.cfg m)))))))
      as HA.
    { unfold TablePV.Analyze. rewrite Hsize, Z.eqb_refl. cbn [negb].
      unfold seedOf.
      destruct (TablePV.MinimaxConfig.Seed (TablePV.MinimaxAI.cfg m) =? 0);
        (change (TablePV.ttGet (TablePV.withRand m ?r) (Hash E p))
           with (TablePV.ttGet m (Hash E p));
         change (TablePV.MinimaxAI.cfg (TablePV.withRand m ?r))
           with (TablePV.MinimaxAI.cfg m);
         destruct (TablePV.ttGet m (Hash E p)) as [te|] eqn:Hget;
         [ destruct (boundType_eqb (TablePV.tableEntry.bound te) exactBound) eqn:Hb;
           [ apply boundType_eqb_eq in Hb; destruct (Hte te eq_refl Hb) | ] | ];
         rewrite Hz; reflexivity). }
    split; [exact HA|]. unfold TablePV.GetMove. rewrite HA. reflexivity.
  - intros E moveGen clock m p limit Hsize Hd Hte.
    assert (Z.to_nat (PVS.MinimaxConfig.Depth (PVS.MinimaxAI.cfg m)
                      - Z.of_nat 0) = 0%nat) as Hz by lia.
    assert (PVS.Analyze moveGen clock m p limit
            = Some ([], 0, PVS.MinimaxAI.st m,
                    PVS.withRand
                      (PVS.withHeatMap m
                         (map (fun v => v `div` 2) (PVS.MinimaxAI.heatMap m)))
                      (Some (NewSource E
                               (seedOf clock
                                  (PVS.MinimaxConfig.Seed (PVS.MinimaxAI.cfg m)))))))
      as HA.
    { unfold PVS.Analyze. rewrite Hsize, Z.eqb_refl. cbn [negb].
      unfold seedOf.
      change (PVS.MinimaxAI.cfg (PVS.withHeatMap m ?h)) with (PVS.MinimaxAI.cfg m).
      destruct (PVS.MinimaxConfig.Seed (PVS.MinimaxAI.cfg m) =? 0);
        (change (PVS.ttGet (PVS.withRand ?a ?r) (Hash E p))
           with (PVS.ttGet m (Hash E p));
         change (PVS.MinimaxAI.cfg (PVS.withRand ?a ?r))
           with (PVS.MinimaxAI.cfg m);
         destruct (PVS.ttGet m (Hash E p)) as [te|] eqn:Hget;
         [ destruct (boundType_eqb (PVS.tableEntry.bound te) exactBound) eqn:Hb;
           [ apply boundType_eqb_eq in Hb; destruct (Hte te eq_refl Hb) | ] | ];
         rewrite Hz; reflexivity). }
    split; [exact HA|]. unfold PVS.GetMove. rewrite HA. reflexivity.
Qed.

Lemma Analyze_depth_below_one_witness :
  PVS.GetMove (Toy.gen Examples.g1) Toy.clock0 Examples.ai0 0%nat 0 = None.
Proof.
  refine (proj2 (proj2 Analyze_depth_below_one (Toy.engine Examples.g1)
                   (Toy.gen Examples.g1) Toy.clock0 Examples.ai0 0%nat 0
                   eq_refl _ _)).
  - vm_compute. reflexivity.
  - intros te Hte. vm_compute in Hte. discriminate Hte.
Defined.

(** *** What a search leaves untouched *)

(** The parts of the searcher no search changes: the configuration, the
    evaluator, the bitboard constants and the size of the heat map. *)
Definition PVS_frame {E : Engine} (ai ai' : PVS.MinimaxAI.t E) : Prop :=
  PVS.MinimaxAI.cfg ai' = PVS.MinimaxAI.cfg ai
  /\ PVS.MinimaxAI.evaluate ai' = PVS.MinimaxAI.evaluate ai
  /\ PVS.MinimaxAI.c ai' = PVS.MinimaxAI.c ai
  /\ length (PVS.MinimaxAI.heatMap ai') = length (PVS.MinimaxAI.heatMap ai).

Lemma PVS_frame_refl {E : Engine} (ai : PVS.MinimaxAI.t E) : PVS_frame ai ai.
Proof. repeat split. Qed.

Lemma PVS_frame_trans {E : Engine} (a b c : PVS.MinimaxAI.t E) :
  PVS_frame a b -> PVS_frame b c -> PVS_frame a c.
Proof.
  intros (H1 & H2 & H3 & H4) (G1 & G2 & G3 & G4).
  repeat split; congruence.
Qed.

Lemma PVS_heatUp_frame {E : Engine} (ai ai' : PVS.MinimaxAI.t E) mv depth :
  PVS.heatUp ai mv depth = Some ai' -> PVS_frame ai ai'.
Proof.
  unfold PVS.heatUp. destruct (_ <? 0); [discriminate|].
  destruct (PVS.MinimaxAI.heatMap ai !! _); [|discriminate].
  intros [= <-]. repeat split. simpl. apply length_insert.
Qed.

Lemma PVS_leaf_inv {E : Engine} (ai ai' : PVS.MinimaxAI.t E) p ms v :
  PVS.leaf ai p = Some (ms, v, ai') ->
  ms = [] /\ PVS.MinimaxAI.evaluate ai (PVS.MinimaxAI.c ai) p = Some v
  /\ PVS_frame ai ai'
  /\ PVS.MinimaxAI.table ai' = PVS.MinimaxAI.table ai.
Proof.
  unfold PVS.leaf.
  destruct (GameOver E p).1;
    cbn [PVS.mapSt PVS.withSt PVS.MinimaxAI.evaluate PVS.MinimaxAI.c];
    destruct (PVS.MinimaxAI.evaluate ai (PVS.MinimaxAI.c ai) p) as [v'|];
    try discriminate; intros [= <- <- <-]; repeat split.
Qed.

Definition PVS_search_frames {E : Engine} (search : PVS.SearchFn (E := E)) : Prop :=
  forall ai child pv a b ms v ai',
    search ai child pv a b = Some (ms, v, ai') -> PVS_frame ai ai'.

Lemma PVS_searchChild_frame {E : Engine} (search : PVS.SearchFn (E := E)) nf
    ai child pv α β ms v ai' :
  PVS_search_frames search ->
  PVS.searchChild search nf ai child pv α β = Some (ms, v, ai') ->
  PVS_frame ai ai'.
Proof.
  intros Hs. unfold PVS.searchChild. destruct nf.
  - destruct (search ai child pv (sub64 (neg64 α) 1) (neg64 α))
      as [[[ms1 v1] ai1]|] eqn:H1; [|discriminate].
    cbn [mbind option_bind].
    destruct ((α <? neg64 v1) && (neg64 v1 <? β)).
    + intros H2. eapply PVS_frame_trans; [eapply Hs, H1|eapply Hs, H2].
    + intros [= <- <- <-]. eapply Hs, H1.
  - apply Hs.
Qed.

Lemma PVS_moveLoopWith_frame {E : Engine} nullFirst (search : PVS.SearchFn (E := E))
    depth β :
  PVS_search_frames search ->
  forall gen i ai best improved α best' improved' α' ai',
    PVS.moveLoopWith nullFirst search depth β i gen ai best improved α
    = Some (best', improved', α', ai') ->
    PVS_frame ai ai'.
Proof.
  intros Hs. induction gen as [|[mv child] rest IH];
    intros i ai best improved α best' improved' α' ai' H.
  - injection H as <- <- <- <-. apply PVS_frame_refl.
  - cbn [PVS.moveLoopWith] in H.
    destruct (PVS.searchChild search (nullFirst (S i)) ai child (tailpv best) α β)
      as [[[ms v] ai1]|] eqn:Hc; [|discriminate].
    apply PVS_searchChild_frame in Hc; [|exact Hs].
    cbn [mbind option_bind] in H.
    destruct (α <? neg64 v).
    + destruct (β <=? neg64 v).
      * destruct (PVS.heatUp _ mv depth) as [ai2|] eqn:Hh; [|discriminate].
        injection H as <- <- <- <-.
        apply PVS_heatUp_frame in Hh.
        eapply PVS_frame_trans; [exact Hc|].
        eapply PVS_frame_trans; [|exact Hh]. repeat split.
      * eapply PVS_frame_trans; [exact Hc|]. eapply IH, H.
    + eapply PVS_frame_trans; [exact Hc|]. eapply IH, H.
Qed.

Lemma PVS_storeNode_frame {E : Engine} (ai ai' : PVS.MinimaxAI.t E) p depth
    best improved α β line v :
  PVS.storeNode ai p depth best improved α β = Some (line, v, ai') ->
  line = best /\ v = α /\ PVS_frame ai ai' /\ line <> [].
Proof.
  unfold PVS.storeNode. destruct best as [|b0 rest]; [discriminate|].
  cbn [lookup list_lookup mbind option_bind].
  destruct improved; intros [= <- <- <-]; repeat split; discriminate.
Qed.

Lemma PVS_minimax_frame {E : Engine} (moveGen : PVS.MoveGen) :
  forall d (ai : PVS.MinimaxAI.t E) p ply pv α β ms v ai',
    PVS.minimax moveGen d ai p ply pv α β = Some (ms, v, ai') ->
    PVS_frame ai ai'.
Proof.
  induction d as [|d IH]; intros ai p ply pv α β ms v ai' H.
  - cbn [PVS.minimax] in H. apply PVS_leaf_inv in H. tauto.
  - cbn [PVS.minimax] in H.
    destruct (GameOver E p).1; [apply PVS_leaf_inv in H; tauto|].
    destruct (PVS.probe _ p (S d) α β) as [mv tv|te].
    + injection H as <- <- <-. repeat split.
    + unfold PVS.searchNode, PVS.searchNodeWith in H.
      destruct (moveGen _ _ _ ply (S d) p te pv) as [gen r].
      destruct (PVS.moveLoop _ (S d) β 0 gen _ pv false α)
        as [[[[best improved] α1] ai2]|] eqn:Hloop; [|discriminate].
      cbn [mbind option_bind] in H.
      apply PVS_storeNode_frame in H. destruct H as (_ & _ & Hf & _).
      apply PVS_moveLoopWith_frame in Hloop.
      * eapply PVS_frame_trans; [|exact Hf].
        eapply PVS_frame_trans; [|exact Hloop]. repeat split.
      * intros ai0 child pv0 a b ms0 v0 ai0' H0. eapply IH, H0.
Qed.

(** *** The line a search returns *)

(** The best line after the loop is the one it started with, or begins
    with a move the generator yielded; it is empty only if it started
    empty and nothing was yielded. *)
Lemma PVS_moveLoopWith_best {E : Engine} nullFirst (search : PVS.SearchFn (E := E))
    depth β :
  forall gen i ai best improved α best' improved' α' ai',
    PVS.moveLoopWith nullFirst search depth β i gen ai best improved α
    = Some (best', improved', α', ai') ->
    (best' = best /\ (best = [] -> gen = []))
    \/ exists mv child ms, In (mv, child) gen /\ best' = mv :: ms.
Proof.
  induction gen as [|[mv child] rest IH];
    intros i ai best improved α best' improved' α' ai' H.
  - injection H as <- <- <- <-. left. auto.
  - cbn [PVS.moveLoopWith] in H.
    destruct (PVS.searchChild search (nullFirst (S i)) ai child (tailpv best) α β)
      as [[[ms v] ai1]|]; [|discriminate].
    cbn [mbind option_bind] in H.
    destruct (α <? neg64 v).
    + destruct (β <=? neg64 v).
      * destruct (PVS.heatUp _ mv depth) as [ai2|]; [|discriminate].
        injection H as <- <- <- <-. right. exists mv, child, ms.
        split; [left; reflexivity|reflexivity].
      * apply IH in H. destruct H as [[-> _]|(mv' & child' & ms' & Hin & ->)].
        -- right. exists mv, child, ms. split; [left; reflexivity|reflexivity].
        -- right. exists mv', child', ms'. split; [right; exact Hin|reflexivity].
    + apply IH in H. destruct H as [[-> _]|(mv' & child' & ms' & Hin & ->)].
      * destruct best as [|b0 bs].
        -- right. exists mv, child, ms. split; [left; reflexivity|reflexivity].
        -- left. split; [reflexivity|discriminate].
      * right. exists mv', child', ms'. split; [right; exact Hin|reflexivity].
Qed.

(** The generator's contract at position [p]: whatever it is given, it
    yields only moves [p.Move] accepts, each with the child that call
    returns. *)
Definition yieldsLegal {E : Engine} (moveGen : PVS.MoveGen (E := E))
    (p : Position E) : Prop :=
  forall cfg heat r ply depth te pv mv child,
    In (mv, child) (moveGen cfg heat r ply depth p te pv).1 ->
    pMove E p mv = Some child.

Lemma PVS_minimax_line_legal (E : Engine) (moveGen : PVS.MoveGen) d
    (ai : PVS.MinimaxAI.t E) p ply pv α β line v ai' :
  (GameOver E p).1 = false ->
  yieldsLegal moveGen p ->
  (forall mv, pv !! 0%nat = Some mv -> pMove E p mv <> None) ->
  PVS.minimax moveGen (S d) ai p ply pv α β = Some (line, v, ai') ->
  exists mv, line !! 0%nat = Some mv /\ pMove E p mv <> None.
Proof.
  intros Hover Hgen Hpv H. cbn [PVS.minimax] in H. rewrite Hover in H.
  unfold PVS.probe in H.
  destruct (PVS.ttGet _ (Hash E p)) as [te|].
  - destruct (PVS.teSuffices te (S d) α β).
    + destruct (pMove E p (PVS.tableEntry.m te)) as [c|] eqn:Hm.
      * injection H as <- <- <-. exists (PVS.tableEntry.m te).
        split; [reflexivity|congruence].
      * revert H. generalize (@None PVS.tableEntry.t). intros te' H.
        unfold PVS.searchNode, PVS.searchNodeWith in H.
        destruct (moveGen _ _ _ ply (S d) p te' pv) as [gen r] eqn:Hg.
        destruct (PVS.moveLoop _ (S d) β 0 gen _ pv false α)
          as [[[[best improved] α1] ai2]|] eqn:Hloop; [|discriminate].
        cbn [mbind option_bind] in H.
        apply PVS_storeNode_frame in H. destruct H as (-> & _ & _ & Hne).
        apply PVS_moveLoopWith_best in Hloop.
        destruct Hloop as [[-> _]|(mv & child & ms & Hin & ->)].
        -- destruct pv as [|mv rest]; [congruence|].
           exists mv. split; [reflexivity|]. apply Hpv. reflexivity.
        -- exists mv. split; [reflexivity|].
           erewrite Hgen; [discriminate|]. rewrite Hg. exact Hin.
    + revert H. generalize (Some te). intros te' H.
      unfold PVS.searchNode, PVS.searchNodeWith in H.
      destruct (moveGen _ _ _ ply (S d) p te' pv) as [gen r] eqn:Hg.
      destruct (PVS.moveLoop _ (S d) β 0 gen _ pv false α)
        as [[[[best improved] α1] ai2]|] eqn:Hloop; [|discriminate].
      cbn [mbind option_bind] in H.
      apply PVS_storeNode_frame in H. destruct H as (-> & _ & _ & Hne).
      apply PVS_moveLoopWith_best in Hloop.
      destruct Hloop as [[-> _]|(mv & child & ms & Hin & ->)].
      * destruct pv as [|mv rest]; [congruence|].
        exists mv. split; [reflexivity|]. apply Hpv. reflexivity.
      * exists mv. split; [reflexivity|].
        erewrite Hgen; [discriminate|]. rewrite Hg. exact Hin.
  - revert H. generalize (@None PVS.tableEntry.t). intros te' H.
    unfold PVS.searchNode, PVS.searchNodeWith in H.
    destruct (moveGen _ _ _ ply (S d) p te' pv) as [gen r] eqn:Hg.
    destruct (PVS.moveLoop _ (S d) β 0 gen _ pv false α)
      as [[[[best improved] α1] ai2]|] eqn:Hloop; [|discriminate].
    cbn [mbind option_bind] in H.
    apply PVS_storeNode_frame in H. destruct H as (-> & _ & _ & Hne).
    apply PVS_moveLoopWith_best in Hloop.
    destruct Hloop as [[-> _]|(mv & child & ms & Hin & ->)].
    + destruct pv as [|mv rest]; [congruence|].
      exists mv. split; [reflexivity|]. apply Hpv. reflexivity.
    + exists mv. split; [reflexivity|].
      erewrite Hgen; [discriminate|]. rewrite Hg. exact Hin.
Qed.

(** In the revision with null-window re-search, whenever [minimax]
    returns from a node that is not a leaf, the line it returns is not
    empty and begins with a move that applies to the position, provided
    the generator yields only such moves and the incoming line, if any,
    begins with one. *)
Theorem node_line_begins_legal (E : Engine) (moveGen : PVS.MoveGen) d
    (ai : PVS.MinimaxAI.t E) p ply pv α β line v ai' :
  (GameOver E p).1 = false ->
  yieldsLegal moveGen p ->
  (forall mv, pv !! 0%nat = Some mv -> pMove E p mv <> None) ->
  PVS.minimax moveGen (S d) ai p ply pv α β = Some (line, v, ai') ->
  exists mv, line !! 0%nat = Some mv /\ pMove E p mv <> None.
Proof. apply PVS_minimax_line_legal. Qed.

Lemma Toy_gen_yieldsLegal (g : list Toy.Node) (p : nat) :
  yieldsLegal (E := Toy.engine g) (Toy.gen g) p.
Proof.
  intros cfg heat r ply depth te pv mv child Hin.
  unfold Toy.gen in Hin. cbn [fst] in Hin.
  apply list_elem_of_In in Hin. apply list_elem_of_omap in Hin.
  destruct Hin as (m0 & _ & Hm0).
  simpl. destruct (Toy.applyMove _ m0) as [c0|] eqn:Ha; [|discriminate].
  simpl in Hm0. injection Hm0 as <- <-. exact Ha.
Qed.

Lemma node_line_begins_legal_witness :
  match PVS.minimax (Toy.gen Examples.g1) 1 Examples.ai3 0%nat 1 [] (-5) 9 with
  | Some (line, _, _) =>
      exists mv, line !! 0%nat = Some mv
                 /\ pMove (Toy.engine Examples.g1) 0%nat mv <> None
  | None => False
  end.
Proof.
  destruct (PVS.minimax (Toy.gen Examples.g1) 1 Examples.ai3 0%nat 1 [] (-5) 9)
    as [[[line v] ai']|] eqn:H.
  - apply (node_line_begins_legal (Toy.engine Examples.g1) (Toy.gen Examples.g1)
             0%nat Examples.ai3 0%nat 1%nat [] (-5) 9 line v ai' eq_refl
             (Toy_gen_yieldsLegal Examples.g1 0%nat)).
    + intros mv Hmv. discriminate Hmv.
    + exact H.
  - assert (from_option (fun _ => true) false
              (PVS.minimax (Toy.gen Examples.g1) 1 Examples.ai3 0%nat 1 [] (-5) 9)
            = true) as Hs by (vm_compute; reflexivity).
    rewrite H in Hs. discriminate Hs.
Defined.

Lemma PVS_deepen_line {E : Engine} (moveGen : PVS.MoveGen) clock p limit base top :
  (GameOver E p).1 = false ->
  yieldsLegal moveGen p ->
  forall n i k pe bs ms0 v0 (m : PVS.MinimaxAI.t E) ms v m',
    1 <= i ->
    (forall mv, ms0 !! 0%nat = Some mv -> pMove E p mv <> None) ->
    PVS.deepen moveGen n clock p limit base top i k pe bs ms0 v0 m = Some (ms, v, m') ->
    (forall mv, ms !! 0%nat = Some mv -> pMove E p mv <> None)
    /\ (ms = [] ->
        ms0 = []
        /\ (n = 0%nat
            \/ PVS.MinimaxConfig.Depth (PVS.MinimaxAI.cfg m) < i + Z.of_nat base)).
Proof.
  intros Hover Hgen. induction n as [|n IH];
    intros i k pe bs ms0 v0 m ms v m' Hi Hms0 H.
  - injection H as <- <- <-. split; [exact Hms0|]. auto.
  - cbn [PVS.deepen] in H.
    destruct (i + Z.of_nat base <=? PVS.MinimaxConfig.Depth (PVS.MinimaxAI.cfg m)) eqn:Hd;
      cbn [negb] in H.
    + destruct (Z.to_nat (i + Z.of_nat base)) as [|d] eqn:Hz; [lia|].
      destruct (PVS.minimax moveGen (S d) _ p 0 ms0 (minEval - 1) (maxEval + 1))
        as [[[ms1 v1] m1]|] eqn:Hmm; [|discriminate].
      cbn [mbind option_bind] in H.
      destruct (PVS_minimax_line_legal E moveGen d _ p 0%nat ms0 _ _ ms1 v1 m1
                  Hover Hgen Hms0 Hmm) as (mv1 & Hmv1 & Hl1).
      assert (forall mv, ms1 !! 0%nat = Some mv -> pMove E p mv <> None) as Hms1.
      { intros mv Hmv. congruence. }
      assert (ms1 <> []) as Hne1 by (intros ->; discriminate).
      destruct ((WinThreshold <? v1) || (v1 <? - WinThreshold)).
      { injection H as <- <- <-. split; [exact Hms1|]. contradiction. }
      match type of H with
      | (if ?c then _ else _) = _ => destruct c
      end.
      * match type of H with
        | (if ?c then _ else _) = _ => destruct c
        end.
        -- injection H as <- <- <-. split; [exact Hms1|]. contradiction.
        -- apply IH in H; [|lia|exact Hms1]. destruct H as [Hl Hem].
           split; [exact Hl|]. intros Hnil. destruct (Hem Hnil) as [Hx _].
           contradiction.
      * apply IH in H; [|lia|exact Hms1]. destruct H as [Hl Hem].
        split; [exact Hl|]. intros Hnil. destruct (Hem Hnil) as [Hx _].
        contradiction.
    + injection H as <- <- <-. split; [exact Hms0|].
      intros Hnil. split; [exact Hnil|right; lia].
Qed.

(** Whenever [Analyze] returns on a position that is not over, with
    [cfg.Depth >= 1], the line it returns is not empty and begins with a
    move that applies to the position, and [GetMove] returns that move;
    this relies on the generator yielding only such moves and on the
    cached exact entry of the root, if there is one, holding one (no hash
    collision). *)
Theorem Analyze_line_begins_legal (E : Engine) (moveGen : PVS.MoveGen) clock
    (m : PVS.MinimaxAI.t E) p limit ms v st m' :
  (GameOver E p).1 = false ->
  yieldsLegal moveGen p ->
  1 <= PVS.MinimaxConfig.Depth (PVS.MinimaxAI.cfg m) ->
  (forall te, PVS.ttGet m (Hash E p) = Some te ->
              PVS.tableEntry.bound te = exactBound ->
              pMove E p (PVS.tableEntry.m te) <> None) ->
  PVS.Analyze moveGen clock m p limit = Some (ms, v, st, m') ->
  exists mv, ms !! 0%nat = Some mv /\ pMove E p mv <> None
             /\ PVS.GetMove moveGen clock m p limit = Some (mv, m').
Proof.
  intros Hover Hgen Hdepth Hte HA.
  assert (exists mv, ms !! 0%nat = Some mv /\ pMove E p mv <> None) as (mv & Hmv & Hl).
  { unfold PVS.Analyze in HA.
    destruct (negb _); [discriminate|].
    change (PVS.MinimaxAI.cfg (PVS.withHeatMap m ?h)) with (PVS.MinimaxAI.cfg m) in HA.
    destruct (if PVS.MinimaxConfig.Seed (PVS.MinimaxAI.cfg m) =? 0 then _ else _)
      as [seed k].
    change (PVS.ttGet (PVS.withRand ?a ?r) (Hash E p))
      with (PVS.ttGet m (Hash E p)) in HA.
    change (PVS.MinimaxAI.cfg (PVS.withRand ?a ?r)) with (PVS.MinimaxAI.cfg m) in HA.
    set (bm := match PVS.ttGet m (Hash E p) with Some _ => _ | None => _ end) in HA.
    assert ((forall mv, bm.2 !! 0%nat = Some mv -> pMove E p mv <> None)
            /\ (bm.2 = [] -> bm.1 = 0%nat)) as [Hb1 Hb2].
    { subst bm. destruct (PVS.ttGet m (Hash E p)) as [te|] eqn:Hget.
      - destruct (boundType_eqb (PVS.tableEntry.bound te) exactBound) eqn:Hbd.
        + apply boundType_eqb_eq in Hbd. cbn [fst snd]. split.
          * intros mv [= <-]. apply (Hte te eq_refl Hbd).
          * discriminate.
        + cbn [fst snd]. split; [discriminate|reflexivity].
      - cbn [fst snd]. split; [discriminate|reflexivity]. }
    destruct bm as [base ms0]. cbn [fst snd] in Hb1, Hb2.
    destruct (PVS.deepen moveGen _ clock p limit base (clock k) 1 (S k) 0 0 ms0 0 _)
      as [[[ms1 v1] m1]|] eqn:Hdeep; [|discriminate].
    cbn [mbind option_bind] in HA. injection HA as <- <- <- <-.
    apply PVS_deepen_line in Hdeep; [|exact Hover|exact Hgen|lia|exact Hb1].
    destruct Hdeep as [Hl Hem].
    destruct ms1 as [|mv rest].
    - exfalso. destruct (Hem eq_refl) as [Hnil Hcase].
      specialize (Hb2 Hnil). subst base.
      change (PVS.MinimaxAI.cfg (PVS.withRand ?a ?r)) with (PVS.MinimaxAI.cfg m) in Hcase.
      lia.
    - exists mv. split; [reflexivity|]. apply Hl. reflexivity. }
  exists mv. split; [exact Hmv|]. split; [exact Hl|].
  unfold PVS.GetMove. rewrite HA. cbn [mbind option_bind]. rewrite Hmv. reflexivity.
Qed.

Lemma Analyze_line_begins_legal_witness :
  match PVS.Analyze (Toy.gen Examples.g1) Toy.clock0 Examples.ai3 0%nat 0 with
  | Some (ms, _, _, m') =>
      exists mv, ms !! 0%nat = Some mv
                 /\ pMove (Toy.engine Examples.g1) 0%nat mv <> None
                 /\ PVS.GetMove (Toy.gen Examples.g1) Toy.clock0 Examples.ai3 0%nat 0
                    = Some (mv, m')
  | None => False
  end.
Proof.
  destruct (PVS.Analyze (Toy.gen Examples.g1) Toy.clock0 Examples.ai3 0%nat 0)
    as [[[[ms v] st] m']|] eqn:H.
  - apply (Analyze_line_begins_legal (Toy.engine Examples.g1) (Toy.gen Examples.g1)
             Toy.clock0 Examples.ai3 0%nat 0 ms v st m' eq_refl
             (Toy_gen_yieldsLegal Examples.g1 0%nat)).
    + vm_compute. discriminate.
    + intros te Hte. vm_compute in Hte. discriminate Hte.
    + exact H.
  - assert (from_option (fun _ => true) false
              (PVS.Analyze (Toy.gen Examples.g1) Toy.clock0 Examples.ai3 0%nat 0)
            = true) as Hs by (vm_compute; reflexivity).
    rewrite H in Hs. discriminate Hs.
Defined.

(** *** When the search cannot panic *)

(** Every position that is not over yields at least one move. *)
Definition yieldsSome {E : Engine} (moveGen : PVS.MoveGen (E := E)) : Prop :=
  forall cfg heat r ply depth p te pv,
    (GameOver E p).1 = false ->
    (moveGen cfg heat r ply depth p te pv).1 <> [].

(** The heat-map index [m.X+m.Y*size] of a move falls inside a heat map
    of [n] cells. *)
Definition onBoard (size : Z) (n : nat) (mv : Move) : Prop :=
  0 <= add64 (X mv) (mul64 (Y mv) size) < Z.of_nat n.

Definition yieldsOnBoard {E : Engine} (moveGen : PVS.MoveGen (E := E))
    (size : Z) (n : nat) : Prop :=
  forall cfg heat r ply depth p te pv mv child,
    In (mv, child) (moveGen cfg heat r ply depth p te pv).1 ->
    onBoard size n mv.

Lemma PVS_heatUp_total {E : Engine} (ai : PVS.MinimaxAI.t E) mv depth :
  onBoard (PVS.MinimaxConfig.Size (PVS.MinimaxAI.cfg ai))
    (length (PVS.MinimaxAI.heatMap ai)) mv ->
  is_Some (PVS.heatUp ai mv depth).
Proof.
  unfold onBoard, PVS.heatUp. intros [H0 H1].
  destruct (_ <? 0) eqn:Hlt; [lia|].
  destruct (PVS.MinimaxAI.heatMap ai !! _) as [h|] eqn:Hl; [eexists; reflexivity|].
  apply lookup_ge_None in Hl. lia.
Qed.

Section Totality.
Context {E : Engine} (moveGen : PVS.MoveGen (E := E)) (ai0 : PVS.MinimaxAI.t E).
Hypothesis evalTotal :
  forall p, is_Some (PVS.MinimaxAI.evaluate ai0 (PVS.MinimaxAI.c ai0) p).
Hypothesis genSome : yieldsSome moveGen.
Hypothesis genOnBoard :
  yieldsOnBoard moveGen (PVS.MinimaxConfig.Size (PVS.MinimaxAI.cfg ai0))
    (length (PVS.MinimaxAI.heatMap ai0)).

Lemma PVS_leaf_total (ai : PVS.MinimaxAI.t E) p :
  PVS_frame ai0 ai -> is_Some (PVS.leaf ai p).
Proof.
  intros (Hc & He & Hcc & Hh). unfold PVS.leaf.
  destruct (evalTotal p) as [v Hv].
  destruct (GameOver E p).1;
    cbn [PVS.mapSt PVS.withSt PVS.MinimaxAI.evaluate PVS.MinimaxAI.c];
    rewrite He, Hcc, Hv; eexists; reflexivity.
Qed.

Definition PVS_search_total (search : PVS.SearchFn (E := E)) : Prop :=
  forall ai child pv a b, PVS_frame ai0 ai -> is_Some (search ai child pv a b).

Lemma PVS_searchChild_total (search : PVS.SearchFn (E := E)) nf ai child pv α β :
  PVS_search_total search -> PVS_search_frames search ->
  PVS_frame ai0 ai ->
  is_Some (PVS.searchChild search nf ai child pv α β).
Proof.
  intros Ht Hf Hai. unfold PVS.searchChild. destruct nf; [|apply Ht, Hai].
  destruct (Ht ai child pv (sub64 (neg64 α) 1) (neg64 α) Hai) as [[[ms v] ai1] H1].
  rewrite H1. cbn [mbind option_bind].
  destruct ((α <? neg64 v) && (neg64 v <? β)); [|eexists; reflexivity].
  apply Ht. eapply PVS_frame_trans; [exact Hai|]. eapply Hf, H1.
Qed.

Lemma PVS_moveLoopWith_total nullFirst (search : PVS.SearchFn (E := E)) depth β :
  PVS_search_total search -> PVS_search_frames search ->
  forall gen i ai best improved α,
    (forall mv child, In (mv, child) gen ->
       onBoard (PVS.MinimaxConfig.Size (PVS.MinimaxAI.cfg ai0))
         (length (PVS.MinimaxAI.heatMap ai0)) mv) ->
    PVS_frame ai0 ai ->
    is_Some (PVS.moveLoopWith nullFirst search depth β i gen ai best improved α).
Proof.
  intros Ht Hf. induction gen as [|[mv child] rest IH];
    intros i ai best improved α Hob Hai.
  - eexists; reflexivity.
  - cbn [PVS.moveLoopWith].
    destruct (PVS_searchChild_total search (nullFirst (S i)) ai child (tailpv best)
                α β Ht Hf Hai) as [[[ms v] ai1] Hc].
    rewrite Hc. cbn [mbind option_bind].
    assert (PVS_frame ai0 ai1) as Hai1.
    { eapply PVS_frame_trans; [exact Hai|].
      eapply PVS_searchChild_frame; [exact Hf|exact Hc]. }
    assert (forall mv0 child0, In (mv0, child0) rest ->
              onBoard (PVS.MinimaxConfig.Size (PVS.MinimaxAI.cfg ai0))
                (length (PVS.MinimaxAI.heatMap ai0)) mv0) as Hrest.
    { intros mv0 child0 Hin. eapply Hob. right. exact Hin. }
    destruct (α <? neg64 v); [|apply IH; assumption].
    destruct (β <=? neg64 v); [|apply IH; assumption].
    destruct (PVS_heatUp_total (PVS.mapSt (PVS.recordCut (S i)) ai1) mv depth)
      as [ai2 Hh].
    { destruct Hai1 as (Hc1 & _ & _ & Hh1).
      cbn [PVS.mapSt PVS.withSt PVS.MinimaxAI.cfg PVS.MinimaxAI.heatMap].
      rewrite Hc1, Hh1. eapply Hob. left. reflexivity. }
    rewrite Hh. eexists; reflexivity.
Qed.

Lemma PVS_minimax_total :
  forall d ai p ply pv α β,
    PVS_frame ai0 ai -> is_Some (PVS.minimax moveGen d ai p ply pv α β).
Proof.
  induction d as [|d IH]; intros ai p ply pv α β Hai.
  - apply PVS_leaf_total, Hai.
  - cbn [PVS.minimax].
    destruct (GameOver E p).1 eqn:Hover; [apply PVS_leaf_total, Hai|].
    destruct (PVS.probe _ p (S d) α β) as [mv tv|te]; [eexists; reflexivity|].
    unfold PVS.searchNode, PVS.searchNodeWith.
    destruct (moveGen _ _ _ ply (S d) p te pv) as [gen r] eqn:Hg.
    assert (PVS_search_frames
              (fun ai child pv a b => PVS.minimax moveGen d ai child (S ply) pv a b))
      as Hf.
    { intros ai1 child pv1 a b ms v ai1' H. eapply PVS_minimax_frame, H. }
    destruct (PVS_moveLoopWith_total (fun i => (1 <? i)%nat)
                (fun ai child pv a b => PVS.minimax moveGen d ai child (S ply) pv a b)
                (S d) β) with (gen := gen) (i := 0%nat)
                (ai := PVS.withRand (PVS.mapSt PVS.incVisited ai) r)
                (best := pv) (improved := false) (α := α)
      as [[[[best improved] α1] ai2] Hloop].
    + intros ai1 child pv1 a b Hai1. apply IH, Hai1.
    + exact Hf.
    + intros mv child Hin. eapply genOnBoard. rewrite Hg. exact Hin.
    + eapply PVS_frame_trans; [exact Hai|]. repeat split.
    + unfold PVS.moveLoop. rewrite Hloop. cbn [mbind option_bind].
      apply PVS_moveLoopWith_best in Hloop.
      assert (best <> []) as Hne.
      { destruct Hloop as [[-> Hem]|(mv & child & ms & _ & ->)]; [|discriminate].
        intros ->. specialize (Hem eq_refl).
        eapply genSome; [exact Hover|]. rewrite Hg. exact Hem. }
      unfold PVS.storeNode. destruct best as [|b0 rest]; [contradiction|].
      cbn [lookup list_lookup mbind option_bind]. eexists; reflexivity.
Qed.

End Totality.

Lemma PVS_deepen_total {E : Engine} (moveGen : PVS.MoveGen (E := E))
    (ai0 : PVS.MinimaxAI.t E) clock p limit base top :
  (forall p, is_Some (PVS.MinimaxAI.evaluate ai0 (PVS.MinimaxAI.c ai0) p)) ->
  yieldsSome moveGen ->
  yieldsOnBoard moveGen (PVS.MinimaxConfig.Size (PVS.MinimaxAI.cfg ai0))
    (length (PVS.MinimaxAI.heatMap ai0)) ->
  forall n i k pe bs ms0 v0 m,
    PVS_frame ai0 m ->
    is_Some (PVS.deepen moveGen n clock p limit base top i k pe bs ms0 v0 m).
Proof.
  intros Hev Hsome Hboard. induction n as [|n IH]; intros i k pe bs ms0 v0 m Hm.
  - eexists; reflexivity.
  - cbn [PVS.deepen].
    destruct (negb _); [eexists; reflexivity|].
    destruct (PVS_minimax_total moveGen ai0 Hev Hsome Hboard
                (Z.to_nat (i + Z.of_nat base))
                (PVS.withSt m (PVS.Stats.fresh (i + Z.of_nat base)))
                p 0%nat ms0 (minEval - 1) (maxEval + 1))
      as [[[ms1 v1] m1] Hmm].
    { eapply PVS_frame_trans; [exact Hm|]. repeat split. }
    rewrite Hmm. cbn [mbind option_bind].
    assert (PVS_frame ai0 m1) as Hm1.
    { eapply PVS_frame_trans; [exact Hm|].
      eapply PVS_frame_trans; [|eapply PVS_minimax_frame, Hmm]. repeat split. }
    destruct ((WinThreshold <? v1) || (v1 <? - WinThreshold)); [eexists; reflexivity|].
    match goal with
    | |- context [if ?c then _ else _] => destruct c
    end.
    + match goal with
      | |- context [if ?c then _ else _] => destruct c
      end; [eexists; reflexivity|apply IH, Hm1].
    + apply IH, Hm1.
Qed.

(** The search of the later revision cannot panic when three things are
    granted: the evaluator returns on every position, every position that
    is not over yields at least one move, and the moves yielded lie on the
    board the heat map was sized for.  Then [minimax] returns at every
    depth and [Analyze] returns whenever the sizes agree. *)
Theorem search_never_panics (E : Engine) (moveGen : PVS.MoveGen)
    (m : PVS.MinimaxAI.t E) :
  (forall p, is_Some (PVS.MinimaxAI.evaluate m (PVS.MinimaxAI.c m) p)) ->
  yieldsSome moveGen ->
  yieldsOnBoard moveGen (PVS.MinimaxConfig.Size (PVS.MinimaxAI.cfg m))
    (length (PVS.MinimaxAI.heatMap m)) ->
  (forall d p ply pv α β, is_Some (PVS.minimax moveGen d m p ply pv α β))
  /\ (forall clock p limit,
        PVS.MinimaxConfig.Size (PVS.MinimaxAI.cfg m) = Size E p ->
        is_Some (PVS.Analyze moveGen clock m p limit)).
Proof.
  intros Hev Hsome Hboard. split.
  - intros d p ply pv α β.
    apply (PVS_minimax_total moveGen m Hev Hsome Hboard). apply PVS_frame_refl.
  - intros clock p limit Hsize. unfold PVS.Analyze.
    rewrite Hsize, Z.eqb_refl. cbn [negb].
    destruct (if PVS.MinimaxConfig.Seed _ =? 0 then _ else _) as [seed k].
    destruct (match PVS.ttGet _ (Hash E p) with Some _ => _ | None => _ end)
      as [base ms0].
    match goal with
    | |- is_Some (PVS.deepen moveGen ?n clock p limit base ?top ?i ?k ?pe ?bs ms0 ?v0 ?mm
                  ≫= _) =>
        destruct (PVS_deepen_total moveGen m clock p limit base top Hev Hsome Hboard
                    n i k pe bs ms0 v0 mm) as [[[ms1 v1] m1] Hd]
    end.
    + repeat split. cbn [PVS.withRand PVS.withHeatMap PVS.MinimaxAI.heatMap].
      apply length_map.
    + rewrite Hd. eexists; reflexivity.
Qed.

Lemma Toy_g3_yieldsSome : yieldsSome (E := Toy.engine Examples.g3) (Toy.gen Examples.g3).
Proof.
  intros cfg heat r ply depth p te pv Hover.
  unfold Toy.gen. cbn [fst].
  destruct p as [|[|[|[|[|[|p]]]]]]; simpl in *; discriminate.
Qed.

Lemma Toy_g3_yieldsOnBoard :
  yieldsOnBoard (E := Toy.engine Examples.g3) (Toy.gen Examples.g3) 5 25.
Proof.
  intros cfg heat r ply depth p te pv mv child Hin.
  unfold Toy.gen in Hin. cbn [fst] in Hin.
  destruct p as [|[|[|[|[|[|p]]]]]]; simpl in Hin;
    repeat (destruct Hin as [Hin|Hin];
            [injection Hin as <- <-; vm_compute; split; [discriminate|reflexivity]|]);
    contradiction.
Qed.

Lemma search_never_panics_witness :
  is_Some (PVS.Analyze (Toy.gen Examples.g3) Toy.clock0 Examples.ai5 0%nat 0).
Proof.
  refine (proj2 (search_never_panics (Toy.engine Examples.g3) (Toy.gen Examples.g3)
                   Examples.ai5 _ Toy_g3_yieldsSome Toy_g3_yieldsOnBoard)
            Toy.clock0 0%nat 0 eq_refl).
  intros p. eexists. reflexivity.
Defined.

(** *** The range of the values *)

Definition inEval (v : Z) : Prop := minEval <= v <= maxEval.

(** A root-like window: inside [(minEval-1, maxEval+1)] and not empty. *)
Definition inWindow (α β : Z) : Prop := minEval - 1 <= α /\ α < β /\ β <= maxEval + 1.

Definition PVS_tableBounded (t : gmap Z PVS.tableEntry.t) : Prop :=
  forall k e, t !! k = Some e -> inEval (PVS.tableEntry.value e).

Lemma maxEval_val : maxEval = 1073741824.
Proof. reflexivity. Qed.

Lemma minEval_val : minEval = -1073741824.
Proof. reflexivity. Qed.

Lemma neg64_small v : - 2^62 <= v <= 2^62 -> neg64 v = - v.
Proof. intros H. unfold neg64. apply wrap64_id. unfold int64_range. lia. Qed.

Lemma sub64_small a b : - 2^61 <= a <= 2^61 -> - 2^61 <= b <= 2^61 -> sub64 a b = a - b.
Proof. intros Ha Hb. unfold sub64. apply wrap64_id. unfold int64_range. lia. Qed.

Lemma PVS_heatUp_table {E : Engine} (ai ai' : PVS.MinimaxAI.t E) mv depth :
  PVS.heatUp ai mv depth = Some ai' ->
  PVS.MinimaxAI.table ai' = PVS.MinimaxAI.table ai.
Proof.
  unfold PVS.heatUp. destruct (_ <? 0); [discriminate|].
  destruct (PVS.MinimaxAI.heatMap ai !! _); [|discriminate].
  intros [= <-]. reflexivity.
Qed.

Lemma PVS_ttGet_bounded {E : Engine} (ai : PVS.MinimaxAI.t E) h te :
  PVS_tableBounded (PVS.MinimaxAI.table ai) ->
  PVS.ttGet ai h = Some te -> inEval (PVS.tableEntry.value te).
Proof.
  intros Ht. unfold PVS.ttGet, PVS.entryAt.
  destruct (PVS.MinimaxConfig.NoTable _); [discriminate|].
  destruct (PVS.MinimaxAI.table ai !! slot h) as [e|] eqn:He; cbn [default].
  - destruct (negb _); [discriminate|]. intros [= <-]. eapply Ht, He.
  - destruct (negb _); [discriminate|]. intros [= <-].
    unfold inEval. rewrite minEval_val, maxEval_val. simpl. lia.
Qed.

Section Range.
Context {E : Engine} (moveGen : PVS.MoveGen (E := E)) (ai0 : PVS.MinimaxAI.t E).
Hypothesis evalBounded :
  forall p v, PVS.MinimaxAI.evaluate ai0 (PVS.MinimaxAI.c ai0) p = Some v -> inEval v.
Hypothesis genSome : yieldsSome moveGen.

(** What the induction carries for a search function. *)
Definition PVS_search_bounded (search : PVS.SearchFn (E := E)) : Prop :=
  forall ai child pv a b ms v ai',
    PVS_frame ai0 ai ->
    PVS_tableBounded (PVS.MinimaxAI.table ai) ->
    inWindow a b ->
    search ai child pv a b = Some (ms, v, ai') ->
    inEval v /\ PVS_tableBounded (PVS.MinimaxAI.table ai').

Lemma PVS_searchChild_bounded (search : PVS.SearchFn (E := E)) nf ai child pv α β
    ms v ai' :
  PVS_search_bounded search -> PVS_search_frames search ->
  PVS_frame ai0 ai ->
  PVS_tableBounded (PVS.MinimaxAI.table ai) ->
  inWindow α β ->
  PVS.searchChild search nf ai child pv α β = Some (ms, v, ai') ->
  inEval v /\ PVS_tableBounded (PVS.MinimaxAI.table ai').
Proof.
  intros Hb Hf Hai Ht Hw. unfold PVS.searchChild.
  assert (inWindow (neg64 β) (neg64 α)) as Hfull.
  { unfold inWindow in *. rewrite minEval_val, maxEval_val in *.
    rewrite !neg64_small by lia. lia. }
  assert (inWindow (sub64 (neg64 α) 1) (neg64 α)) as Hnull.
  { unfold inWindow in *. rewrite minEval_val, maxEval_val in *.
    rewrite !neg64_small by lia. rewrite sub64_small by lia. lia. }
  destruct nf; [|apply Hb; assumption].
  destruct (search ai child pv (sub64 (neg64 α) 1) (neg64 α))
    as [[[ms1 v1] ai1]|] eqn:H1; [|discriminate].
  cbn [mbind option_bind].
  destruct (Hb _ _ _ _ _ _ _ _ Hai Ht Hnull H1) as [Hv1 Ht1].
  destruct ((α <? neg64 v1) && (neg64 v1 <? β)).
  - apply Hb; [|exact Ht1|exact Hfull].
    eapply PVS_frame_trans; [exact Hai|]. eapply Hf, H1.
  - intros [= <- <- <-]. split; assumption.
Qed.

Lemma PVS_moveLoopWith_bounded nullFirst (search : PVS.SearchFn (E := E)) depth β :
  PVS_search_bounded search -> PVS_search_frames search ->
  forall gen i ai best improved α best' improved' α' ai',
    PVS_frame ai0 ai ->
    PVS_tableBounded (PVS.MinimaxAI.table ai) ->
    inWindow α β ->
    PVS.moveLoopWith nullFirst search depth β i gen ai best improved α
    = Some (best', improved', α', ai') ->
    PVS_tableBounded (PVS.MinimaxAI.table ai')
    /\ α <= α' <= maxEval
    /\ (gen <> [] -> minEval <= α').
Proof.
  intros Hb Hf. induction gen as [|[mv child] rest IH];
    intros i ai best improved α best' improved' α' ai' Hai Ht Hw H.
  - injection H as <- <- <- <-. split; [exact Ht|].
    unfold inWindow in Hw. split; [lia|]. congruence.
  - cbn [PVS.moveLoopWith] in H.
    destruct (PVS.searchChild search (nullFirst (S i)) ai child (tailpv best) α β)
      as [[[ms v] ai1]|] eqn:Hc; [|discriminate].
    cbn [mbind option_bind] in H.
    destruct (PVS_searchChild_bounded _ _ _ _ _ _ _ _ _ _ Hb Hf Hai Ht Hw Hc)
      as [Hv Ht1].
    assert (PVS_frame ai0 ai1) as Hai1.
    { eapply PVS_frame_trans; [exact Hai|].
      eapply PVS_searchChild_frame; [exact Hf|exact Hc]. }
    assert (neg64 v = - v) as Hneg.
    { apply neg64_small. unfold inEval in Hv.
      rewrite minEval_val, maxEval_val in Hv. lia. }
    rewrite Hneg in H.
    unfold inEval in Hv. unfold inWindow in Hw.
    destruct (α <? - v) eqn:Hlt.
    + apply Z.ltb_lt in Hlt.
      destruct (β <=? - v) eqn:Hcut.
      * destruct (PVS.heatUp _ mv depth) as [ai2|] eqn:Hh; [|discriminate].
        injection H as <- <- <- <-.
        apply PVS_heatUp_table in Hh. rewrite Hh.
        cbn [PVS.mapSt PVS.withSt PVS.MinimaxAI.table].
        split; [exact Ht1|]. rewrite minEval_val, maxEval_val in *. lia.
      * apply Z.leb_gt in Hcut.
        apply IH in H; [|exact Hai1|exact Ht1|].
        -- destruct H as (Ht' & Hle & _). split; [exact Ht'|].
           rewrite minEval_val, maxEval_val in *. lia.
        -- unfold inWindow. rewrite minEval_val, maxEval_val in *. lia.
    + apply Z.ltb_ge in Hlt.
      apply IH in H; [|exact Hai1|exact Ht1|exact Hw].
      destruct H as (Ht' & Hle & _). split; [exact Ht'|].
      rewrite minEval_val, maxEval_val in *. lia.
Qed.

Lemma PVS_minimax_bounded :
  forall d ai p ply pv α β ms v ai',
    PVS_frame ai0 ai ->
    PVS_tableBounded (PVS.MinimaxAI.table ai) ->
    inWindow α β ->
    PVS.minimax moveGen d ai p ply pv α β = Some (ms, v, ai') ->
    inEval v /\ PVS_tableBounded (PVS.MinimaxAI.table ai').
Proof.
  assert (forall ai p ms v ai',
            PVS_frame ai0 ai -> PVS_tableBounded (PVS.MinimaxAI.table ai) ->
            PVS.leaf ai p = Some (ms, v, ai') ->
            inEval v /\ PVS_tableBounded (PVS.MinimaxAI.table ai')) as Hleaf.
  { intros ai p ms v ai' (Hc & He & Hcc & _) Ht H.
    apply PVS_leaf_inv in H. destruct H as (_ & Hv & _ & Htab).
    rewrite Htab. split; [|exact Ht].
    rewrite He, Hcc in Hv. eapply evalBounded, Hv. }
  induction d as [|d IH]; intros ai p ply pv α β ms v ai' Hai Ht Hw H.
  - cbn [PVS.minimax] in H. eapply Hleaf; eassumption.
  - cbn [PVS.minimax] in H.
    destruct (GameOver E p).1 eqn:Hover; [eapply Hleaf; eassumption|].
    unfold PVS.probe in H.
    assert (forall te,
              PVS.searchNode moveGen
                (fun ai child pv a b => PVS.minimax moveGen d ai child (S ply) pv a b)
                (S d) (PVS.mapSt PVS.incVisited ai) p ply pv α β te
              = Some (ms, v, ai') ->
              inEval v /\ PVS_tableBounded (PVS.MinimaxAI.table ai')) as Hnode.
    { intros te Hn. unfold PVS.searchNode, PVS.searchNodeWith in Hn.
      destruct (moveGen _ _ _ ply (S d) p te pv) as [gen r] eqn:Hg.
      destruct (PVS.moveLoop _ (S d) β 0 gen _ pv false α)
        as [[[[best improved] α1] ai2]|] eqn:Hloop; [|discriminate].
      cbn [mbind option_bind] in Hn.
      apply PVS_moveLoopWith_bounded in Hloop.
      - destruct Hloop as (Ht2 & Hle & Hmin).
        assert (inEval α1) as Hin.
        { unfold inEval. split; [|lia]. apply Hmin.
          intros ->. eapply genSome; [exact Hover|]. rewrite Hg. reflexivity. }
        unfold PVS.storeNode in Hn.
        destruct (best !! 0%nat) as [b0|]; [|discriminate].
        cbn [mbind option_bind] in Hn.
        assert (PVS_tableBounded
                  (<[slot (Hash E p) :=
                       PVS.tableEntry.mk (Hash E p) (S d) α1
                         (PVS.classify improved α1 β) b0]>
                     (PVS.MinimaxAI.table ai2))) as Ht3.
        { intros k e Hk. destruct (decide (slot (Hash E p) = k)) as [<-|Hne].
          - rewrite lookup_insert_eq in Hk. injection Hk as <-. exact Hin.
          - rewrite lookup_insert_ne in Hk by exact Hne. eapply Ht2, Hk. }
        destruct improved; injection Hn as <- <- <-; split; assumption.
      - intros ai1 child pv1 a b ms1 v1 ai1' Hai1 Ht1 Hw1 H1.
        eapply IH; eassumption.
      - intros ai1 child pv1 a b ms1 v1 ai1' H1. eapply PVS_minimax_frame, H1.
      - eapply PVS_frame_trans; [exact Hai|]. repeat split.
      - exact Ht.
      - exact Hw. }
    destruct (PVS.ttGet _ (Hash E p)) as [te|] eqn:Hget; [|eapply Hnode, H].
    destruct (PVS.teSuffices te (S d) α β); [|eapply Hnode, H].
    destruct (pMove E p (PVS.tableEntry.m te)); [|eapply Hnode, H].
    injection H as <- <- <-. split; [|exact Ht].
    eapply PVS_ttGet_bounded; [|exact Hget]. exact Ht.
Qed.

End Range.

Lemma PVS_deepen_bounded {E : Engine} (moveGen : PVS.MoveGen (E := E))
    (ai0 : PVS.MinimaxAI.t E) clock p limit base top :
  (forall p v, PVS.MinimaxAI.evaluate ai0 (PVS.MinimaxAI.c ai0) p = Some v -> inEval v) ->
  yieldsSome moveGen ->
  forall n i k pe bs ms0 v0 m ms v m',
    PVS_frame ai0 m ->
    PVS_tableBounded (PVS.MinimaxAI.table m) ->
    inEval v0 ->
    PVS.deepen moveGen n clock p limit base top i k pe bs ms0 v0 m = Some (ms, v, m') ->
    inEval v /\ PVS_tableBounded (PVS.MinimaxAI.table m').
Proof.
  intros Hev Hsome. induction n as [|n IH];
    intros i k pe bs ms0 v0 m ms v m' Hm Ht Hv0 H.
  - injection H as <- <- <-. split; assumption.
  - cbn [PVS.deepen] in H.
    destruct (negb _); [injection H as <- <- <-; split; assumption|].
    destruct (PVS.minimax moveGen _ _ p 0 ms0 (minEval - 1) (maxEval + 1))
      as [[[ms1 v1] m1]|] eqn:Hmm; [|discriminate].
    cbn [mbind option_bind] in H.
    assert (PVS_frame ai0 m1) as Hm1.
    { eapply PVS_frame_trans; [exact Hm|].
      eapply PVS_frame_trans; [|eapply PVS_minimax_frame, Hmm]. repeat split. }
    apply (PVS_minimax_bounded moveGen ai0 Hev Hsome) in Hmm.
    + destruct Hmm as [Hv1 Ht1].
      destruct ((WinThreshold <? v1) || (v1 <? - WinThreshold));
        [injection H as <- <- <-; split; assumption|].
      match type of H with
      | (if ?c then _ else _) = _ => destruct c
      end.
      * match type of H with
        | (if ?c then _ else _) = _ => destruct c
        end; [injection H as <- <- <-; split; assumption|].
        eapply IH; [exact Hm1|exact Ht1|exact Hv1|exact H].
      * eapply IH; [exact Hm1|exact Ht1|exact Hv1|exact H].
    + eapply PVS_frame_trans; [exact Hm|]. repeat split.
    + exact Ht.
    + unfold inWindow. rewrite minEval_val, maxEval_val. lia.
Qed.

(** If the evaluator's scores lie in [[minEval, maxEval]], every position
    that is not over yields a move, and the values stored in the table lie
    in that range (an empty table does), then every value [minimax]
    returns under a window inside [(minEval-1, maxEval+1)] lies in
    [[minEval, maxEval]], and so does the value [Analyze] returns; the
    table keeps the property. *)
Theorem search_value_in_range (E : Engine) (moveGen : PVS.MoveGen)
    (m : PVS.MinimaxAI.t E) :
  (forall p v, PVS.MinimaxAI.evaluate m (PVS.MinimaxAI.c m) p = Some v -> inEval v) ->
  yieldsSome moveGen ->
  PVS_tableBounded (PVS.MinimaxAI.table m) ->
  (forall d p ply pv α β ms v m',
     inWindow α β ->
     PVS.minimax moveGen d m p ply pv α β = Some (ms, v, m') ->
     inEval v /\ PVS_tableBounded (PVS.MinimaxAI.table m'))
  /\ (forall clock p limit ms v st m',
        PVS.Analyze moveGen clock m p limit = Some (ms, v, st, m') ->
        inEval v /\ PVS_tableBounded (PVS.MinimaxAI.table m')).
Proof.
  intros Hev Hsome Ht. split.
  - intros d p ply pv α β ms v m' Hw H.
    eapply (PVS_minimax_bounded moveGen m Hev Hsome); [apply PVS_frame_refl| | |];
      eassumption.
  - intros clock p limit ms v st m' HA. unfold PVS.Analyze in HA.
    destruct (negb _); [discriminate|].
    destruct (if PVS.MinimaxConfig.Seed _ =? 0 then _ else _) as [seed k].
    destruct (match PVS.ttGet _ (Hash E p) with Some _ => _ | None => _ end)
      as [base ms0].
    destruct (PVS.deepen moveGen _ clock p limit base _ 1 _ 0 0 ms0 0 _)
      as [[[ms1 v1] m1]|] eqn:Hd; [|discriminate].
    cbn [mbind option_bind] in HA. injection HA as <- <- <- <-.
    eapply (PVS_deepen_bounded moveGen m clock p limit base _ Hev Hsome) in Hd.
    + exact Hd.
    + repeat split. cbn [PVS.withRand PVS.withHeatMap PVS.MinimaxAI.heatMap].
      apply length_map.
    + exact Ht.
    + unfold inEval. rewrite minEval_val, maxEval_val. lia.
Qed.

Lemma Toy_g3_evalBounded :
  forall (p : Position (Toy.engine Examples.g3)) v,
    Toy.nodeEval Examples.g3 tt p = Some v -> inEval v.
Proof.
  intros p v H. unfold Toy.nodeEval in H. injection H as <-.
  unfold inEval. rewrite minEval_val, maxEval_val.
  destruct p as [|[|[|[|[|[|p]]]]]]; simpl; lia.
Qed.

Lemma search_value_in_range_witness :
  match PVS.Analyze (Toy.gen Examples.g3) Toy.clock0 Examples.ai5 0%nat 0 with
  | Some (_, v, _, _) => inEval v
  | None => False
  end.
Proof.
  destruct (PVS.Analyze (Toy.gen Examples.g3) Toy.clock0 Examples.ai5 0%nat 0)
    as [[[[ms v] st] m']|] eqn:H.
  - refine (proj1 (proj2 (search_value_in_range (Toy.engine Examples.g3)
                            (Toy.gen Examples.g3) Examples.ai5
                            Toy_g3_evalBounded Toy_g3_yieldsSome _)
                     Toy.clock0 0%nat 0 ms v st m' H)).
    intros k e Hk. unfold Examples.ai5 in Hk. cbn [PVS.MinimaxAI.table] in Hk.
    rewrite lookup_empty in Hk. discriminate Hk.
  - assert (from_option (fun _ => true) false
              (PVS.Analyze (Toy.gen Examples.g3) Toy.clock0 Examples.ai5 0%nat 0)
            = true) as Hs by (vm_compute; reflexivity).
    rewrite H in Hs. discriminate Hs.
Defined.

(** *** More on the evaluator *)

(** The score of a decided position, for [d = move_number - stones] of
    the winner with [|d| < 2^29]: it is [maxEval - d] for the side to move
    when it has won and [minEval + d] when it has lost, hence always
    beyond [WinThreshold] in absolute value; and it stays inside
    [[minEval, maxEval]] only when [d >= 0], that is, when the winner holds
    no more stones than plies were played. *)
Theorem terminal_score_threshold (E : Engine) (w : Weights) (c : Constants E)
    (p : Position E) (winner : Color) :
  GameOver E p = (true, winner) ->
  winner <> NoColor ->
  - 2^29 < MoveNumber E p - stonesOf E p winner < 2^29 ->
  exists v,
    evaluate E w c p = Some v
    /\ (winner = ToMove E p ->
        v = maxEval - (MoveNumber E p - stonesOf E p winner)
        /\ WinThreshold < v
        /\ (v <= maxEval <-> 0 <= MoveNumber E p - stonesOf E p winner))
    /\ (winner <> ToMove E p ->
        v = minEval + (MoveNumber E p - stonesOf E p winner)
        /\ v < - WinThreshold
        /\ (minEval <= v <-> 0 <= MoveNumber E p - stonesOf E p winner)).
Proof.
  intros Hover Hn Hd. unfold evaluate. rewrite Hover.
  assert (WinThreshold = 536870912) as HW by reflexivity.
  assert (2^29 = 536870912) as H29 by reflexivity.
  rewrite H29 in Hd.
  destruct (Color_eqb winner (ToMove E p)) eqn:Heq.
  - apply Color_eqb_eq in Heq.
    exists (maxEval - (MoveNumber E p - stonesOf E p winner)).
    split.
    + destruct winner; try congruence; cbn [stonesOf] in *;
        rewrite add64_sub64, wrap64_id;
        try (f_equal; lia);
        unfold int64_range; rewrite maxEval_val; lia.
    + split; [|intros Hne; contradiction].
      intros _. rewrite HW, maxEval_val. lia.
  - assert (winner <> ToMove E p) as Hne.
    { intros Hx. apply Color_eqb_eq in Hx. congruence. }
    exists (minEval + (MoveNumber E p - stonesOf E p winner)).
    split.
    + destruct winner; try congruence; cbn [stonesOf] in *;
        rewrite sub64_add64, wrap64_id;
        try (f_equal; lia);
        unfold int64_range; rewrite minEval_val; lia.
    + split; [intros Hx; contradiction|].
      intros _. rewrite HW, minEval_val. lia.
Qed.

Lemma terminal_score_threshold_witness :
  exists v,
    evaluate (Toy.engine Examples.g2) DefaultWeights tt 0%nat = Some v
    /\ v = minEval + (11 - 16) /\ v < - WinThreshold /\ ~ minEval <= v.
Proof.
  destruct (terminal_score_threshold (Toy.engine Examples.g2) DefaultWeights tt
              0%nat White eq_refl) as (v & Hv & _ & Hl).
  - discriminate.
  - vm_compute. split; reflexivity.
  - exists v. split; [exact Hv|].
    destruct Hl as (H1 & H2 & H3); [discriminate|].
    split; [exact H1|]. split; [exact H2|].
    intros Hx. apply H3 in Hx. vm_compute in Hx. apply Hx. reflexivity.
Defined.

(** A width or height [Dimensions] reports is a valid index of
    [Weights.Groups], an array of 8. *)
Definition dimOK (i : Z) : Prop := 0 <= i < 8.

Definition groupsOK (E : Engine) (c : Constants E) (gs : list Z) : Prop :=
  Forall (fun g => dimOK (Dimensions E c g).1 /\ dimOK (Dimensions E c g).2) gs.

Lemma groupWeight_some (ws : Weights) i :
  length (Groups ws) = 8%nat -> (is_Some (groupWeight ws i) <-> dimOK i).
Proof.
  intros Hlen. unfold groupWeight, dimOK.
  destruct (i <? 0) eqn:H0; cbn [orb].
  - split; [intros [x Hx]; discriminate|lia].
  - destruct (8 <=? i) eqn:H8.
    + split; [intros [x Hx]; discriminate|lia].
    + split; [lia|]. intros _. apply lookup_lt_is_Some. lia.
Qed.

Lemma scoreGroupsFrom_some (E : Engine) (c : Constants E) (ws : Weights) :
  length (Groups ws) = 8%nat ->
  forall gs sc, is_Some (scoreGroupsFrom E c ws sc gs) <-> groupsOK E c gs.
Proof.
  intros Hlen. unfold groupsOK. induction gs as [|g gs IH]; intros sc.
  - cbn [scoreGroupsFrom]. split; [constructor|eexists; reflexivity].
  - cbn [scoreGroupsFrom]. rewrite Forall_cons.
    destruct (Dimensions E c g) as [gw gh]. cbn [fst snd].
    pose proof (groupWeight_some ws gw Hlen) as Hw.
    pose proof (groupWeight_some ws gh Hlen) as Hh.
    destruct (groupWeight ws gw) as [x|]; cbn [mbind option_bind].
    + destruct (groupWeight ws gh) as [y|]; cbn [mbind option_bind].
      * rewrite IH. split; [intros HF; split; [split|exact HF]|tauto].
        -- apply Hw. eexists; reflexivity.
        -- apply Hh. eexists; reflexivity.
      * split; [intros [z Hz]; discriminate|].
        intros [[_ Hgh] _]. apply Hh in Hgh. destruct Hgh as [z Hz]. discriminate.
    + split; [intros [z Hz]; discriminate|].
      intros [[Hgw _] _]. apply Hw in Hgw. destruct Hgw as [z Hz]. discriminate.
Qed.

Lemma stackLoop_some (E : Engine) (w : Weights) (p : Position E) :
  forall hs i acc,
    (i + length hs <= length (pStacks E p))%nat ->
    is_Some (stackLoop E w p i hs acc).
Proof.
  induction hs as [|h hs IH]; intros i acc Hlen.
  - eexists; reflexivity.
  - cbn [stackLoop]. cbn [length] in Hlen.
    assert (is_Some (stackStep E w p i h acc)) as [acc' Hs].
    { unfold stackStep. destruct acc as [ws bs].
      destruct (h <=? 1); [eexists; reflexivity|].
      destruct (pStacks E p !! i) as [st|] eqn:Hst.
      - cbn [mbind option_bind]. destruct (negb _); eexists; reflexivity.
      - apply lookup_ge_None in Hst. lia. }
    rewrite Hs. cbn [mbind option_bind]. apply IH. lia.
Qed.

(** With stacks recorded for every square that has a height, the
    evaluator panics on exactly the positions that are not over and have a
    group whose width or height, as [Dimensions] reports it, is not an
    index of the 8-element array [Weights.Groups]. *)
Theorem evaluate_panics_iff (E : Engine) (w : Weights) (c : Constants E)
    (p : Position E) :
  length (Groups w) = 8%nat ->
  (length (pHeight E p) <= length (pStacks E p))%nat ->
  (evaluate E w c p = None
   <-> (GameOver E p).1 = false
       /\ ~ (groupsOK E c (WhiteGroups E p) /\ groupsOK E c (BlackGroups E p))).
Proof.
  intros Hlen Hst. unfold evaluate.
  destruct (GameOver E p) as [over winner]. cbn [fst].
  destruct over.
  - split; [|intros [Hx _]; discriminate].
    destruct winner; try discriminate; destruct (Color_eqb _ _); discriminate.
  - pose proof (scoreGroupsFrom_some E c w Hlen (WhiteGroups E p)) as HW.
    pose proof (scoreGroupsFrom_some E c w Hlen (BlackGroups E p)) as HB.
    unfold scoreGroups.
    specialize (HW 0). specialize (HB 0).
    destruct (ToMove E p); cbv beta iota zeta;
      (match goal with
       | |- context [stackLoop E w p 0 ?hs ?acc] =>
           destruct (stackLoop_some E w p hs 0%nat acc) as [[ws1 bs1] Hs];
           [simpl; lia|]; rewrite Hs
       end;
       cbn [mbind option_bind];
       destruct (scoreGroupsFrom E c w 0 (WhiteGroups E p)) as [wg|];
       cbn [mbind option_bind];
       [ destruct (scoreGroupsFrom E c w 0 (BlackGroups E p)) as [bg|];
         cbn [mbind option_bind];
         [ split;
           [ discriminate
           | intros [_ Hx]; exfalso; apply Hx;
             split; [apply HW|apply HB]; eexists; reflexivity ]
         | split;
           [ intros _; split; [reflexivity|];
             intros [_ Hb]; apply HB in Hb; destruct Hb as [x Hx]; discriminate
           | reflexivity ] ]
       | split;
         [ intros _; split; [reflexivity|];
           intros [Ha _]; apply HW in Ha; destruct Ha as [x Hx]; discriminate
         | reflexivity ] ]).
Qed.

Lemma evaluate_panics_iff_witness :
  evaluate (Toy.engine Examples.g1) DefaultWeights tt 2%nat <> None.
Proof.
  intros H.
  apply (evaluate_panics_iff (Toy.engine Examples.g1) DefaultWeights tt 2%nat
           eq_refl) in H.
  - destruct H as [_ Hx]. apply Hx. split; constructor.
  - simpl. lia.
Defined.

(** *** Shuffling and reordering the moves (the earlier revision) *)

Lemma insert_head_Permutation (x b : Move) :
  forall (t : list Move) j, t !! j = Some b -> b :: <[j := x]> t ≡ₚ x :: t.
Proof.
  induction t as [|y t IH]; intros j Hj; [destruct j; discriminate|].
  destruct j as [|j]; cbn in *.
  - injection Hj as ->. apply perm_swap.
  - rewrite (perm_swap y b). rewrite (IH j Hj). apply perm_swap.
Qed.

Lemma swap_Permutation :
  forall (l : list Move) i j l', swap i j l = Some l' -> l' ≡ₚ l.
Proof.
  unfold swap. induction l as [|x t IH]; intros i j l' H.
  - destruct i; discriminate.
  - destruct i as [|i], j as [|j].
    + injection H as <-. reflexivity.
    + change ((x :: t) !! 0%nat) with (Some x) in H.
      change ((x :: t) !! S j) with (t !! j) in H.
      cbn [mbind option_bind] in H.
      destruct (t !! j) as [b|] eqn:Hb; [|discriminate].
      cbn [mbind option_bind] in H. injection H as <-.
      change (b :: <[j := x]> t ≡ₚ x :: t).
      apply insert_head_Permutation, Hb.
    + change ((x :: t) !! 0%nat) with (Some x) in H.
      change ((x :: t) !! S i) with (t !! i) in H.
      destruct (t !! i) as [a|] eqn:Ha; [|discriminate].
      cbn [mbind option_bind] in H. injection H as <-.
      change (a :: <[i := x]> t ≡ₚ x :: t).
      apply insert_head_Permutation, Ha.
    + change ((x :: t) !! S i) with (t !! i) in H.
      change ((x :: t) !! S j) with (t !! j) in H.
      destruct (t !! i) as [a|] eqn:Ha; [|discriminate].
      cbn [mbind option_bind] in H.
      destruct (t !! j) as [b|] eqn:Hb; [|discriminate].
      cbn [mbind option_bind] in H. injection H as <-.
      change (x :: <[i := b]> (<[j := a]> t) ≡ₚ x :: t).
      apply Permutation_skip. apply (IH i j).
      rewrite Ha. cbn [mbind option_bind]. rewrite Hb. reflexivity.
Qed.

Lemma swap_is_Some (l : list Move) i j :
  (i < length l)%nat -> (j < length l)%nat -> is_Some (swap i j l).
Proof.
  intros Hi Hj. unfold swap.
  destruct (lookup_lt_is_Some_2 l i Hi) as [a ->].
  destruct (lookup_lt_is_Some_2 l j Hj) as [b ->].
  eexists; reflexivity.
Qed.

Lemma swap_length (l l' : list Move) i j :
  swap i j l = Some l' -> length l' = length l.
Proof. intros H. apply Permutation_length, swap_Permutation with i j, H. Qed.

Lemma reorderFrom_Permutation {E : Engine} pv0 te :
  forall n i j moves r,
    TablePV.reorderFrom (E := E) n pv0 te i j moves = Some r -> r ≡ₚ moves.
Proof.
  induction n as [|n IH]; intros i j moves r H.
  - injection H as <-. reflexivity.
  - cbn [TablePV.reorderFrom] in H.
    destruct (moves !! i) as [m|]; [|injection H as <-; reflexivity].
    assert (forall b : bool,
              (if b
               then moves' ← swap j i moves;
                    TablePV.reorderFrom (E := E) n pv0 te (S i) (S j) moves'
               else TablePV.reorderFrom (E := E) n pv0 te (S i) j moves) = Some r ->
              r ≡ₚ moves) as Hsq.
    { intros [] Hb.
      - destruct (swap j i moves) as [moves'|] eqn:Hs; [|discriminate].
        cbn in Hb. rewrite (IH _ _ _ _ Hb). eapply swap_Permutation, Hs.
      - eapply IH, Hb. }
    destruct (Equal E m pv0).
    + destruct (swap 0 i moves) as [moves'|] eqn:Hs; [|discriminate].
      cbn in H. apply swap_Permutation in Hs.
      destruct (Typ m <? SlideLeft E).
      * injection H as <-. exact Hs.
      * rewrite (IH _ _ _ _ H). exact Hs.
    + destruct te as [e|]; [|eapply Hsq, H].
      destruct (j <? length moves)%nat eqn:Hj; [|eapply Hsq, H].
      destruct (TablePV.tableEntry.ms e !! 0%nat) as [t0|]; [|discriminate].
      cbn in H. destruct (Equal E t0 m); [|eapply Hsq, H].
      destruct (swap j i moves) as [moves'|] eqn:Hs; [|discriminate].
      cbn in H. rewrite (IH _ _ _ _ H). eapply swap_Permutation, Hs.
Qed.

Lemma reorderFrom_is_Some {E : Engine} pv0 te :
  (forall e, te = Some e -> TablePV.tableEntry.ms e <> []) ->
  forall n i j moves, is_Some (TablePV.reorderFrom (E := E) n pv0 te i j moves).
Proof.
  intros Hte. induction n as [|n IH]; intros i j moves.
  - eexists; reflexivity.
  - cbn [TablePV.reorderFrom].
    destruct (moves !! i) as [m|] eqn:Hm; [|eexists; reflexivity].
    assert (i < length moves)%nat as Hi by (eapply lookup_lt_Some, Hm).
    assert ((j <? length moves)%nat = true ->
            is_Some (moves' ← swap j i moves;
                     TablePV.reorderFrom (E := E) n pv0 te (S i) (S j) moves')) as Hswap.
    { intros Hj. apply Nat.ltb_lt in Hj.
      destruct (swap_is_Some moves j i Hj Hi) as [moves' ->]. cbn. apply IH. }
    assert (is_Some
              (if (j <? length moves)%nat && (X m =? X pv0) && (Y m =? Y pv0)
               then moves' ← swap j i moves;
                    TablePV.reorderFrom (E := E) n pv0 te (S i) (S j) moves'
               else TablePV.reorderFrom (E := E) n pv0 te (S i) j moves)) as Hsq.
    { destruct (j <? length moves)%nat eqn:Hj; cbn [andb]; [|apply IH].
      destruct ((X m =? X pv0) && (Y m =? Y pv0)); [apply Hswap; reflexivity|apply IH]. }
    destruct (Equal E m pv0).
    + destruct (swap_is_Some moves 0 i ltac:(lia) Hi) as [moves' ->]. cbn.
      destruct (Typ m <? SlideLeft E); [eexists; reflexivity|apply IH].
    + destruct te as [e|]; [|exact Hsq].
      destruct (j <? length moves)%nat eqn:Hj; [|exact Hsq].
      destruct (TablePV.tableEntry.ms e) as [|t0 ts] eqn:Hms;
        [destruct (Hte e eq_refl Hms)|].
      cbn. destruct (Equal E t0 m); [apply Hswap; reflexivity|exact Hsq].
Qed.

Lemma shuffle_Permutation {E : Engine} :
  forall i (r : option (Rand E)) moves moves' r',
    TablePV.shuffle i r moves = Some (moves', r') -> moves' ≡ₚ moves.
Proof.
  induction i as [|i IH]; intros r moves moves' r' H.
  - injection H as <- <-. reflexivity.
  - cbn [TablePV.shuffle] in H.
    destruct r as [r0|]; [|discriminate]. cbn [mbind option_bind] in H.
    destruct (wrap32 (Z.of_nat (S i)) <=? 0); [discriminate|].
    destruct (Int31n E r0 _) as [j r1].
    destruct (j <? 0); [discriminate|].
    destruct (swap (Z.to_nat j) (S i) moves) as [moves1|] eqn:Hs; [|discriminate].
    cbn in H. rewrite (IH _ _ _ _ H). eapply swap_Permutation, Hs.
Qed.

(** The list the move loop of the earlier revision goes through is a
    permutation of [p.AllMoves()]: neither the shuffle at the root nor the
    reordering drops or repeats a move. *)
Theorem searched_moves_permute_AllMoves (E : Engine) (ai ai1 : TablePV.MinimaxAI.t E)
    p ply pv te moves moves' :
  TablePV.generate ai p ply = Some (moves, ai1) ->
  TablePV.reorder (E := E) pv te moves = Some moves' ->
  moves' ≡ₚ AllMoves E p.
Proof.
  intros Hg Hr.
  assert (moves ≡ₚ AllMoves E p) as Hm.
  { unfold TablePV.generate in Hg. destruct (ply =? 0)%nat.
    - cbn in Hg.
      destruct (TablePV.shuffle _ _ (AllMoves E p)) as [[ms r']|] eqn:Hs;
        [|discriminate].
      cbn in Hg. injection Hg as <- <-. eapply shuffle_Permutation, Hs.
    - injection Hg as <- <-. reflexivity. }
  rewrite <- Hm. unfold TablePV.reorder in Hr.
  destruct pv as [|pv0 rest]; [injection Hr as <-; reflexivity|].
  eapply reorderFrom_Permutation, Hr.
Qed.


Lemma swap_front (h : Move) pre m post :
  swap 0 (S (length pre)) (h :: pre ++ m :: post) = Some (m :: pre ++ h :: post).
Proof.
  assert ((h :: pre ++ m :: post) !! S (length pre) = Some m) as H1.
  { change ((pre ++ m :: post) !! length pre = Some m).
    apply list_lookup_middle; reflexivity. }
  unfold swap. change ((h :: pre ++ m :: post) !! 0%nat) with (Some h).
  cbn [mbind option_bind]. rewrite H1. cbn [mbind option_bind]. f_equal.
  change (<[0%nat:=m]> (h :: <[length pre := h]> (pre ++ m :: post))
          = m :: pre ++ h :: post).
  cbn. f_equal.
  replace (length pre) with (length pre + 0)%nat at 1 by lia.
  rewrite insert_app_r. reflexivity.
Qed.

(** [x] is the move the table entry stores first ([te.ms[0].Equal(&x)]). *)
Definition tableMove {E : Engine} (te : option TablePV.tableEntry.t) (x : Move) : bool :=
  match te with
  | Some e =>
      match TablePV.tableEntry.ms e with
      | t0 :: _ => Equal E t0 x
      | [] => false
      end
  | None => false
  end.

(** [x] is on the square of the line's first move. *)
Definition sameSquare (pv0 x : Move) : bool := (X x =? X pv0) && (Y x =? Y pv0).

(** The entry at hand, if any, stores a non-empty line. *)
Definition lineOK (te : option TablePV.tableEntry.t) : Prop :=
  forall e, te = Some e -> TablePV.tableEntry.ms e <> [].


(** A move the scan passes over: neither the line's first move, nor the
    table's, nor on the same square. *)
Definition plain {E : Engine} (pv0 : Move) (te : option TablePV.tableEntry.t)
    (x : Move) : Prop :=
  Equal E x pv0 = false /\ tableMove (E := E) te x = false /\ sameSquare pv0 x = false.

Lemma reorderFrom_skip_plain {E : Engine} pv0 te :
  lineOK te ->
  forall mid pre n j rest,
    Forall (plain (E := E) pv0 te) mid ->
    TablePV.reorderFrom (E := E) (length mid + n) pv0 te (length pre) j
      (pre ++ mid ++ rest)
    = TablePV.reorderFrom (E := E) n pv0 te (length pre + length mid) j
        (pre ++ mid ++ rest).
Proof.
  intros Hok. induction mid as [|x mid IH]; intros pre n j rest Hp.
  - cbn [length app]. rewrite Nat.add_0_r. reflexivity.
  - apply Forall_cons in Hp. destruct Hp as [(Hx1 & Hx2 & Hx3) Hp].
    cbn [length Nat.add TablePV.reorderFrom].
    change (pre ++ (x :: mid) ++ rest) with (pre ++ x :: (mid ++ rest)).
    rewrite (list_lookup_middle pre (mid ++ rest) x (length pre) eq_refl).
    rewrite Hx1.
    assert ((if (j <? length (pre ++ x :: mid ++ rest))%nat
                && (X x =? X pv0) && (Y x =? Y pv0)
             then moves' ← swap j (length pre) (pre ++ x :: mid ++ rest);
                  TablePV.reorderFrom (E := E) (length mid + n) pv0 te
                    (S (length pre)) (S j) moves'
             else TablePV.reorderFrom (E := E) (length mid + n) pv0 te
                    (S (length pre)) j (pre ++ x :: mid ++ rest))
            = TablePV.reorderFrom (E := E) n pv0 te (length pre + S (length mid)) j
                (pre ++ x :: mid ++ rest)) as Hsq.
    { unfold sameSquare in Hx3. rewrite <- andb_assoc, Hx3, andb_false_r.
      replace (pre ++ x :: mid ++ rest) with ((pre ++ [x]) ++ mid ++ rest)
        by (rewrite <- app_assoc; reflexivity).
      replace (S (length pre)) with (length (pre ++ [x]))
        by (rewrite length_app; simpl; lia).
      rewrite (IH (pre ++ [x]) n j rest Hp).
      rewrite length_app. simpl. f_equal. lia. }
    unfold tableMove in Hx2.
    destruct te as [e|]; [|exact Hsq].
    destruct (j <? length (pre ++ x :: mid ++ rest))%nat eqn:Hj; [|exact Hsq].
    destruct (TablePV.tableEntry.ms e) as [|t0 ts] eqn:Hms;
      [destruct (Hok e eq_refl Hms)|].
    cbn [lookup list_lookup mbind option_bind]. rewrite Hx2. exact Hsq.
Qed.

Lemma reorder_placement_aux {E : Engine} pv0 pvrest te pre m post :
  lineOK te ->
  Forall (plain (E := E) pv0 te) pre ->
  Equal E m pv0 = true ->
  Typ m < SlideLeft E ->
  TablePV.reorder (E := E) (pv0 :: pvrest) te (pre ++ m :: post)
  = Some (match pre with
          | [] => m :: post
          | h :: pre' => m :: pre' ++ h :: post
          end).
Proof.
  intros Hok Hp Hm Ht. unfold TablePV.reorder.
  replace (length (pre ++ m :: post)) with (length pre + S (length post))%nat
    by (rewrite length_app; simpl; lia).
  pose proof (reorderFrom_skip_plain pv0 te Hok pre [] (S (length post)) 1%nat
                (m :: post) Hp) as Hskip.
  cbn [app length Nat.add] in Hskip. rewrite Hskip.
  cbn [TablePV.reorderFrom].
  rewrite (list_lookup_middle pre post m (length pre) eq_refl). rewrite Hm.
  apply Z.ltb_lt in Ht. rewrite Ht.
  destruct pre as [|h pre'].
  - reflexivity.
  - cbn [length app]. rewrite swap_front. reflexivity.
Qed.

(** The reordering stops at the line's first move when that move is a
    placement: if the moves before it are passed over (none is the table's
    move or on the same square), the result is the list with that move
    exchanged with the first one, and everything after it is left where it
    was, whatever it contains. *)
Theorem reorder_placement_stops (E : Engine) pv0 pvrest te pre m post :
  lineOK te ->
  Forall (plain (E := E) pv0 te) pre ->
  Equal E m pv0 = true ->
  Typ m < SlideLeft E ->
  TablePV.reorder (E := E) (pv0 :: pvrest) te (pre ++ m :: post)
  = Some (match pre with
          | [] => m :: post
          | h :: pre' => m :: pre' ++ h :: post
          end).
Proof. apply reorder_placement_aux. Qed.


(** The reordering returns whenever the entry at hand stores a non-empty
    line (or there is none); with an entry whose line is empty, such as
    the zero entry a fresh table answers hash 0 with, it panics on
    [te.ms[0]] as soon as the first of at least two moves is not the
    line's first move. *)
Theorem reorder_panics_on_empty_line (E : Engine) pv0 pvrest te :
  (lineOK te -> forall moves,
     is_Some (TablePV.reorder (E := E) (pv0 :: pvrest) te moves))
  /\ (forall e m0 m1 rest,
        te = Some e -> TablePV.tableEntry.ms e = [] ->
        Equal E m0 pv0 = false ->
        TablePV.reorder (E := E) (pv0 :: pvrest) te (m0 :: m1 :: rest) = None).
Proof.
  split.
  - intros Hok moves. unfold TablePV.reorder. apply reorderFrom_is_Some, Hok.
  - intros e m0 m1 rest -> Hms Hne. unfold TablePV.reorder.
    cbn [length TablePV.reorderFrom].
    change ((m0 :: m1 :: rest) !! 0%nat) with (Some m0). cbv beta iota.
    rewrite Hne, Hms. reflexivity.
Qed.

Lemma searched_moves_permute_AllMoves_witness :
  [Toy.place 1 0; Toy.place 0 0] ≡ₚ AllMoves (Toy.engine Examples.g1) 0%nat.
Proof.
  exact (searched_moves_permute_AllMoves (Toy.engine Examples.g1) Examples.ai1 _
           0%nat 1%nat [Toy.place 1 0] (Some Examples.te1) _ _ eq_refl eq_refl).
Defined.

Lemma reorder_placement_stops_witness :
  TablePV.reorder (E := Toy.engine Examples.g1) [Toy.place 1 0] (Some Examples.te1)
    [Toy.place 0 0; Toy.place 1 0; mkMove 1 0 2 []]
  = Some [Toy.place 1 0; Toy.place 0 0; mkMove 1 0 2 []].
Proof.
  refine (reorder_placement_stops (Toy.engine Examples.g1) (Toy.place 1 0) []
            (Some Examples.te1) [Toy.place 0 0] (Toy.place 1 0) [mkMove 1 0 2 []]
            _ _ eq_refl _).
  - intros e [= <-]. discriminate.
  - constructor; [|constructor]. repeat split.
  - reflexivity.
Defined.


Lemma reorder_panics_on_empty_line_witness :
  TablePV.reorder (E := Toy.engine Examples.g1) [Toy.place 1 0]
    (Some TablePV.tableEntry.zero) [Toy.place 0 0; Toy.place 1 0]
  = None.
Proof.
  exact (proj2 (reorder_panics_on_empty_line (Toy.engine Examples.g1)
                  (Toy.place 1 0) [] (Some TablePV.tableEntry.zero))
           TablePV.tableEntry.zero (Toy.place 0 0) (Toy.place 1 0) []
           eq_refl eq_refl eq_refl).
Defined.

(** *** The shuffle at the root *)

Lemma shuffle_is_Some {E : Engine} :
  (forall (r : Rand E) n, 0 < n -> 0 <= (Int31n E r n).1 < n) ->
  forall i (r : Rand E) moves,
    (i < length moves \/ i = 0)%nat ->
    Z.of_nat (length moves) < 2^31 ->
    is_Some (TablePV.shuffle i (Some r) moves).
Proof.
  intros Hrand. induction i as [|i IH]; intros r moves Hi Hlen.
  - eexists; reflexivity.
  - destruct Hi as [Hi|Hi]; [|discriminate].
    cbn [TablePV.shuffle mbind option_bind].
    assert (wrap32 (Z.of_nat (S i)) = Z.of_nat (S i)) as Hw.
    { unfold wrap32. rewrite Z.mod_small by lia. lia. }
    rewrite Hw.
    destruct (Z.of_nat (S i) <=? 0) eqn:Hz; [apply Z.leb_le in Hz; lia|].
    pose proof (Hrand r (Z.of_nat (S i)) ltac:(lia)) as Hj.
    destruct (Int31n E r (Z.of_nat (S i))) as [j r1]. cbn [fst] in Hj.
    destruct (j <? 0) eqn:Hj0; [apply Z.ltb_lt in Hj0; lia|].
    destruct (swap_is_Some moves (Z.to_nat j) (S i)) as [moves1 Hs]; [lia|lia|].
    rewrite Hs. cbn [mbind option_bind].
    apply IH; [|rewrite (swap_length _ _ _ _ Hs); exact Hlen].
    left. rewrite (swap_length _ _ _ _ Hs). lia.
Qed.

(** At the root the earlier revision shuffles the moves with the random
    source, which it reads inside the loop only.  With the source still
    [nil] (before [Analyze] seeded it) the node panics exactly when there
    are at least two moves; with fewer the loop does not run and the node
    goes on with [p.AllMoves()] as it is.  With a source whose [Int31n(n)]
    answers in [[0, n)] and fewer than [2^31] moves, it goes on with a
    permutation of [p.AllMoves()].  Wherever it goes on it has counted the
    node as visited and the moves as generated. *)
Theorem generate_at_root (E : Engine) (ai : TablePV.MinimaxAI.t E) p :
  (TablePV.MinimaxAI.rand ai = None ->
     ((2 <= length (AllMoves E p))%nat -> TablePV.generate ai p 0 = None)
     /\ ((length (AllMoves E p) < 2)%nat ->
         exists ai1,
           TablePV.generate ai p 0 = Some (AllMoves E p, ai1)
           /\ TablePV.MinimaxAI.rand ai1 = None
           /\ TablePV.Stats.Visited (TablePV.MinimaxAI.st ai1)
              = (TablePV.Stats.Visited (TablePV.MinimaxAI.st ai) + 1)%N
           /\ TablePV.Stats.Generated (TablePV.MinimaxAI.st ai1)
              = (TablePV.Stats.Generated (TablePV.MinimaxAI.st ai)
                 + N.of_nat (length (AllMoves E p)))%N))
  /\ (forall r,
        TablePV.MinimaxAI.rand ai = Some r ->
        (forall (r : Rand E) n, 0 < n -> 0 <= (Int31n E r n).1 < n) ->
        Z.of_nat (length (AllMoves E p)) < 2^31 ->
        exists moves ai1,
          TablePV.generate ai p 0 = Some (moves, ai1)
          /\ moves ≡ₚ AllMoves E p
          /\ TablePV.Stats.Visited (TablePV.MinimaxAI.st ai1)
             = (TablePV.Stats.Visited (TablePV.MinimaxAI.st ai) + 1)%N
          /\ TablePV.Stats.Generated (TablePV.MinimaxAI.st ai1)
             = (TablePV.Stats.Generated (TablePV.MinimaxAI.st ai)
                + N.of_nat (length (AllMoves E p)))%N).
Proof.
  split.
  - intros Hr. unfold TablePV.generate. cbn [Nat.eqb].
    cbn [TablePV.mapSt TablePV.withSt TablePV.MinimaxAI.rand]. rewrite Hr.
    split; intros Hlen.
    + destruct (length (AllMoves E p)) as [|[|n]]; [lia|lia|]. reflexivity.
    + assert (pred (length (AllMoves E p)) = 0%nat) as -> by lia.
      cbn [TablePV.shuffle mbind option_bind]. eexists. split; [reflexivity|].
      repeat split.
  - intros r Hr Hrand Hlen. unfold TablePV.generate. cbn [Nat.eqb].
    cbn [TablePV.mapSt TablePV.withSt TablePV.MinimaxAI.rand TablePV.MinimaxAI.st].
    rewrite Hr.
    destruct (shuffle_is_Some Hrand (pred (length (AllMoves E p))) r (AllMoves E p))
      as [[moves r'] Hs]; [lia|exact Hlen|].
    rewrite Hs. cbn [mbind option_bind].
    eexists _, _. split; [reflexivity|].
    split; [eapply shuffle_Permutation, Hs|]. split; reflexivity.
Qed.

Lemma generate_at_root_witness :
  TablePV.generate Examples.ai1 0%nat 0 = None
  /\ (exists ai1,
        TablePV.generate Examples.ai1 2%nat 0
        = Some (AllMoves (Toy.engine Examples.g1) 2%nat, ai1))
  /\ (exists moves ai1,
        TablePV.generate (TablePV.withRand Examples.ai1 (Some 7)) 0%nat 0
        = Some (moves, ai1)
        /\ moves ≡ₚ AllMoves (Toy.engine Examples.g1) 0%nat).
Proof.
  split; [|split].
  - apply (proj1 (generate_at_root (Toy.engine Examples.g1) Examples.ai1 0%nat)
             eq_refl).
    simpl. lia.
  - destruct (proj2 (proj1 (generate_at_root (Toy.engine Examples.g1)
                              Examples.ai1 2%nat) eq_refl))
      as (ai1 & Hg & _); [simpl; lia|].
    exists ai1. exact Hg.
  - destruct (proj2 (generate_at_root (Toy.engine Examples.g1)
                       (TablePV.withRand Examples.ai1 (Some 7)) 0%nat) 7 eq_refl)
      as (moves & ai1 & Hg & Hp & _).
    + intros r n Hn. simpl. apply Z.mod_pos_bound. exact Hn.
    + vm_compute. reflexivity.
    + exists moves, ai1. split; assumption.
Defined.

(** *** [Analyze] and the clock *)

Lemma PVS_deepen_no_limit {E : Engine} (moveGen : PVS.MoveGen) (p : Position E)
    base clock1 clock2 :
  forall n top1 top2 i k1 k2 pe1 pe2 bs1 bs2 ms v (m : PVS.MinimaxAI.t E),
    PVS.deepen moveGen n clock1 p 0 base top1 i k1 pe1 bs1 ms v m
    = PVS.deepen moveGen n clock2 p 0 base top2 i k2 pe2 bs2 ms v m.
Proof.
  induction n as [|n IH]; intros top1 top2 i k1 k2 pe1 pe2 bs1 bs2 ms v m;
    [reflexivity|].
  cbn [PVS.deepen].
  destruct (negb (_ <=? _)); [reflexivity|].
  destruct (PVS.minimax moveGen _ _ p 0 ms _ _) as [[[ms1 v1] m1]|];
    [|reflexivity].
  cbn [mbind option_bind].
  destruct ((WinThreshold <? v1) || (v1 <? - WinThreshold)); [reflexivity|].
  change (negb (0 =? 0)) with false. rewrite andb_false_r.
  apply IH.
Qed.

Lemma TablePV_deepen_no_limit {E : Engine} (p : Position E) base clock1 clock2 :
  forall n top1 top2 i k1 k2 pe1 pe2 bs1 bs2 ms v (m : TablePV.MinimaxAI.t E),
    TablePV.deepen n clock1 p 0 base top1 i k1 pe1 bs1 ms v m
    = TablePV.deepen n clock2 p 0 base top2 i k2 pe2 bs2 ms v m.
Proof.
  induction n as [|n IH]; intros top1 top2 i k1 k2 pe1 pe2 bs1 bs2 ms v m;
    [reflexivity|].
  cbn [TablePV.deepen].
  destruct (negb (_ <=? _)); [reflexivity|].
  destruct (TablePV.minimax _ _ p 0 ms _ _) as [[[ms1 v1] m1]|];
    [|reflexivity].
  cbn [mbind option_bind].
  destruct ((WinThreshold <? v1) || (v1 <? - WinThreshold)); [reflexivity|].
  change (negb (0 =? 0)) with false. rewrite andb_false_r.
  apply IH.
Qed.

(** Without a time limit ([limit = 0]) [Analyze] takes nothing from the
    clock but the seed: two runs from the same searcher under clocks that
    give the same seed (any two clocks when [cfg.Seed] is not 0) return
    the same line, value and counters and leave the same searcher, in
    both revisions. *)
Theorem Analyze_without_limit_ignores_clock :
  (forall (E : Engine) clock1 clock2 (m : TablePV.MinimaxAI.t E) p,
     seedOf clock1 (TablePV.MinimaxConfig.Seed (TablePV.MinimaxAI.cfg m))
     = seedOf clock2 (TablePV.MinimaxConfig.Seed (TablePV.MinimaxAI.cfg m)) ->
     TablePV.Analyze clock1 m p 0 = TablePV.Analyze clock2 m p 0)
  /\ (forall (E : Engine) (moveGen : PVS.MoveGen) clock1 clock2
        (m : PVS.MinimaxAI.t E) p,
     seedOf clock1 (PVS.MinimaxConfig.Seed (PVS.MinimaxAI.cfg m))
     = seedOf clock2 (PVS.MinimaxConfig.Seed (PVS.MinimaxAI.cfg m)) ->
     PVS.Analyze moveGen clock1 m p 0 = PVS.Analyze moveGen clock2 m p 0).
Proof.
  split.
  - intros E clock1 clock2 m p Hseed. unfold TablePV.Analyze.
    destruct (negb (_ =? Size E p)); [reflexivity|].
    unfold seedOf in Hseed.
    destruct (TablePV.MinimaxConfig.Seed (TablePV.MinimaxAI.cfg m) =? 0);
      cbv beta iota; rewrite ?Hseed;
      match goal with
      | |- context [TablePV.ttGet ?a ?h] => destruct (TablePV.ttGet a h) as [te|]
      end;
      try destruct (boundType_eqb _ _);
      cbv beta iota;
      erewrite TablePV_deepen_no_limit; reflexivity.
  - intros E moveGen clock1 clock2 m p Hseed. unfold PVS.Analyze.
    destruct (negb (_ =? Size E p)); [reflexivity|].
    unfold seedOf in Hseed. cbn [PVS.withHeatMap PVS.MinimaxAI.cfg] in *.
    destruct (PVS.MinimaxConfig.Seed (PVS.MinimaxAI.cfg m) =? 0);
      cbv beta iota; rewrite ?Hseed;
      match goal with
      | |- context [PVS.ttGet ?a ?h] => destruct (PVS.ttGet a h) as [te|]
      end;
      try destruct (boundType_eqb _ _);
      cbv beta iota;
      erewrite PVS_deepen_no_limit; reflexivity.
Qed.

Lemma Analyze_without_limit_ignores_clock_witness :
  PVS.Analyze (Toy.gen Examples.g3) Toy.clock0 Examples.ai5 0%nat 0
  = PVS.Analyze (Toy.gen Examples.g3) (fun k => Z.of_nat k * 1000000007)
      Examples.ai5 0%nat 0.
Proof.
  apply (proj2 Analyze_without_limit_ignores_clock (Toy.engine Examples.g3)
           (Toy.gen Examples.g3) Toy.clock0 (fun k => Z.of_nat k * 1000000007)
           Examples.ai5 0%nat).
  reflexivity.
Defined.

(** *** The counters *)

(** How the counters of [s'] stand to those of [s] after some searching:
    the depth is kept, [Evaluated] and [Visited] did not fall, and the
    differences [Evaluated - Terminal], [Visited - TTHits - AllNodes -
    CutNodes] (up to [slack]), [CutNodes - Cut0 - Cut1] and
    [CutSearch - 4 * (CutNodes - Cut0 - Cut1)] did not fall either. *)
Definition PVS_counts (slack : N) (s s' : PVS.Stats.t) : Prop :=
  PVS.Stats.Depth s' = PVS.Stats.Depth s
  /\ (PVS.Stats.Evaluated s <= PVS.Stats.Evaluated s')%N
  /\ (PVS.Stats.Visited s <= PVS.Stats.Visited s')%N
  /\ (PVS.Stats.Evaluated s + PVS.Stats.Terminal s'
      <= PVS.Stats.Evaluated s' + PVS.Stats.Terminal s)%N
  /\ (PVS.Stats.Visited s + PVS.Stats.TTHits s' + PVS.Stats.AllNodes s'
        + PVS.Stats.CutNodes s'
      <= PVS.Stats.Visited s' + PVS.Stats.TTHits s + PVS.Stats.AllNodes s
         + PVS.Stats.CutNodes s + slack)%N
  /\ (PVS.Stats.CutNodes s + PVS.Stats.Cut0 s' + PVS.Stats.Cut1 s'
      <= PVS.Stats.CutNodes s' + PVS.Stats.Cut0 s + PVS.Stats.Cut1 s)%N
  /\ (PVS.Stats.CutSearch s
        + 4 * (PVS.Stats.CutNodes s' + PVS.Stats.Cut0 s + PVS.Stats.Cut1 s)
      <= PVS.Stats.CutSearch s'
         + 4 * (PVS.Stats.CutNodes s + PVS.Stats.Cut0 s' + PVS.Stats.Cut1 s'))%N.

Lemma PVS_counts_refl s : PVS_counts 0 s s.
Proof. unfold PVS_counts. repeat split; lia. Qed.

Lemma PVS_counts_trans a b s1 s2 s3 :
  PVS_counts a s1 s2 -> PVS_counts b s2 s3 -> PVS_counts (a + b) s1 s3.
Proof. unfold PVS_counts. intros H1 H2. repeat split; try lia. Qed.

Lemma PVS_counts_weaken a b s s' :
  (a <= b)%N -> PVS_counts a s s' -> PVS_counts b s s'.
Proof. unfold PVS_counts. intros H1 H2. repeat split; try lia. Qed.

Lemma PVS_heatUp_st {E : Engine} (ai ai' : PVS.MinimaxAI.t E) mv depth :
  PVS.heatUp ai mv depth = Some ai' ->
  PVS.MinimaxAI.st ai' = PVS.MinimaxAI.st ai.
Proof.
  unfold PVS.heatUp. destruct (_ <? 0); [discriminate|].
  destruct (PVS.MinimaxAI.heatMap ai !! _); [|discriminate].
  intros [= <-]. reflexivity.
Qed.

Lemma PVS_recordCut_counts i s :
  PVS_counts 1 s (PVS.recordCut (S i) s).
Proof.
  unfold PVS_counts. destruct i as [|[|i]]; cbn -[N.add N.mul N.of_nat];
    repeat split; lia.
Qed.

Lemma PVS_leaf_counts {E : Engine} (ai ai' : PVS.MinimaxAI.t E) p ms v :
  PVS.leaf ai p = Some (ms, v, ai') ->
  PVS_counts 0 (PVS.MinimaxAI.st ai) (PVS.MinimaxAI.st ai')
  /\ (PVS.Stats.Evaluated (PVS.MinimaxAI.st ai)
      < PVS.Stats.Evaluated (PVS.MinimaxAI.st ai'))%N.
Proof.
  unfold PVS.leaf, PVS_counts.
  destruct (GameOver E p).1;
    cbn [PVS.mapSt PVS.withSt PVS.MinimaxAI.evaluate PVS.MinimaxAI.c];
    destruct (PVS.MinimaxAI.evaluate ai (PVS.MinimaxAI.c ai) p) as [v'|];
    try discriminate; intros [= <- <- <-]; cbn -[N.add N.mul];
    repeat split; lia.
Qed.

Definition PVS_search_counts {E : Engine} (search : PVS.SearchFn (E := E)) : Prop :=
  forall ai child pv a b ms v ai',
    search ai child pv a b = Some (ms, v, ai') ->
    PVS_counts 0 (PVS.MinimaxAI.st ai) (PVS.MinimaxAI.st ai').

Lemma PVS_searchChild_counts {E : Engine} (search : PVS.SearchFn (E := E)) nf
    ai child pv α β ms v ai' :
  PVS_search_counts search ->
  PVS.searchChild search nf ai child pv α β = Some (ms, v, ai') ->
  PVS_counts 0 (PVS.MinimaxAI.st ai) (PVS.MinimaxAI.st ai').
Proof.
  intros Hs. unfold PVS.searchChild. destruct nf.
  - destruct (search ai child pv (sub64 (neg64 α) 1) (neg64 α))
      as [[[ms1 v1] ai1]|] eqn:H1; [|discriminate].
    cbn [mbind option_bind].
    destruct ((α <? neg64 v1) && (neg64 v1 <? β)).
    + intros H2. apply (PVS_counts_trans 0 0 _ (PVS.MinimaxAI.st ai1));
        [eapply Hs, H1|eapply Hs, H2].
    + intros [= <- <- <-]. eapply Hs, H1.
  - apply Hs.
Qed.

(** The loop counts a cut at most once, and only when it reports an
    improvement. *)
Lemma PVS_moveLoopWith_counts {E : Engine} nullFirst (search : PVS.SearchFn (E := E))
    depth β :
  PVS_search_counts search ->
  forall gen i ai best improved α best' improved' α' ai',
    PVS.moveLoopWith nullFirst search depth β i gen ai best improved α
    = Some (best', improved', α', ai') ->
    PVS_counts (if improved' then 1 else 0)
      (PVS.MinimaxAI.st ai) (PVS.MinimaxAI.st ai').
Proof.
  intros Hs. induction gen as [|[mv child] rest IH];
    intros i ai best improved α best' improved' α' ai' H.
  - injection H as <- <- <- <-.
    eapply PVS_counts_weaken; [|apply PVS_counts_refl]. lia.
  - cbn [PVS.moveLoopWith] in H.
    destruct (PVS.searchChild search (nullFirst (S i)) ai child (tailpv best) α β)
      as [[[ms v] ai1]|] eqn:Hc; [|discriminate].
    apply PVS_searchChild_counts in Hc; [|exact Hs].
    cbn [mbind option_bind] in H.
    destruct (α <? neg64 v).
    + destruct (β <=? neg64 v).
      * destruct (PVS.heatUp _ mv depth) as [ai2|] eqn:Hh; [|discriminate].
        injection H as <- <- <- <-.
        apply PVS_heatUp_st in Hh. rewrite Hh.
        apply (PVS_counts_trans 0 1 _ (PVS.MinimaxAI.st ai1)); [exact Hc|].
        apply PVS_recordCut_counts.
      * apply (PVS_counts_trans 0 _ _ (PVS.MinimaxAI.st ai1)); [exact Hc|].
        eapply IH, H.
    + apply (PVS_counts_trans 0 _ _ (PVS.MinimaxAI.st ai1)); [exact Hc|].
      eapply IH, H.
Qed.

Lemma PVS_minimax_counts {E : Engine} (moveGen : PVS.MoveGen) :
  forall d (ai : PVS.MinimaxAI.t E) p ply pv α β ms v ai',
    PVS.minimax moveGen d ai p ply pv α β = Some (ms, v, ai') ->
    PVS_counts 0 (PVS.MinimaxAI.st ai) (PVS.MinimaxAI.st ai')
    /\ (PVS.Stats.Evaluated (PVS.MinimaxAI.st ai)
          + PVS.Stats.Visited (PVS.MinimaxAI.st ai)
        < PVS.Stats.Evaluated (PVS.MinimaxAI.st ai')
          + PVS.Stats.Visited (PVS.MinimaxAI.st ai'))%N.
Proof.
  induction d as [|d IH]; intros ai p ply pv α β ms v ai' H.
  - cbn [PVS.minimax] in H. apply PVS_leaf_counts in H.
    destruct H as [H1 H2]. split; [exact H1|]. unfold PVS_counts in H1. lia.
  - cbn [PVS.minimax] in H.
    destruct (GameOver E p).1.
    { apply PVS_leaf_counts in H.
      destruct H as [H1 H2]. split; [exact H1|]. unfold PVS_counts in H1. lia. }
    destruct (PVS.probe _ p (S d) α β) as [mv tv|te].
    + injection H as <- <- <-. unfold PVS_counts. cbn -[N.add N.mul].
      repeat split; lia.
    + unfold PVS.searchNode, PVS.searchNodeWith in H.
      destruct (moveGen _ _ _ ply (S d) p te pv) as [gen r].
      destruct (PVS.moveLoop _ (S d) β 0 gen _ pv false α)
        as [[[[best improved] α1] ai2]|] eqn:Hloop; [|discriminate].
      cbn [mbind option_bind] in H.
      apply PVS_moveLoopWith_counts in Hloop;
        [|intros ai0 child pv0 a b ms0 v0 ai0' H0; eapply IH, H0].
      unfold PVS.storeNode in H.
      destruct (best !! 0%nat) as [b0|]; [|discriminate].
      cbn [mbind option_bind] in H.
      unfold PVS_counts in *.
      destruct improved; injection H as <- <- <-;
        cbn -[N.add N.mul] in Hloop |- *; repeat split; lia.
Qed.

(** What the deepening loop hands back: the searcher it was given, or
    counters that started from [Stats{Depth: d}] for a depth [d] it
    reached. *)
Lemma PVS_deepen_counts {E : Engine} (moveGen : PVS.MoveGen) clock
    (p : Position E) limit base top :
  forall n i k pe bs ms v (m : PVS.MinimaxAI.t E) ms' v' m',
    1 <= i ->
    PVS.deepen moveGen n clock p limit base top i k pe bs ms v m
    = Some (ms', v', m') ->
    (m' = m /\ ms' = ms /\ v' = v)
    \/ exists d, i + Z.of_nat base <= d
         <= PVS.MinimaxConfig.Depth (PVS.MinimaxAI.cfg m)
       /\ PVS_counts 0 (PVS.Stats.fresh d) (PVS.MinimaxAI.st m')
       /\ (0 < PVS.Stats.Evaluated (PVS.MinimaxAI.st m')
               + PVS.Stats.Visited (PVS.MinimaxAI.st m'))%N.
Proof.
  induction n as [|n IH]; intros i k pe bs ms v m ms' v' m' Hi H.
  - injection H as <- <- <-. left. auto.
  - cbn [PVS.deepen] in H.
    destruct (negb (_ <=? _)) eqn:Hd; [injection H as <- <- <-; left; auto|].
    apply negb_false_iff, Z.leb_le in Hd.
    destruct (PVS.minimax moveGen _ _ p 0 ms _ _) as [[[ms1 v1] m1]|] eqn:Hm;
      [|discriminate].
    cbn [mbind option_bind] in H.
    pose proof (PVS_minimax_frame _ _ _ _ _ _ _ _ _ _ _ Hm) as (Hcfg & _).
    apply PVS_minimax_counts in Hm. destruct Hm as [Hc Hlt].
    cbn [PVS.withSt PVS.MinimaxAI.st PVS.MinimaxAI.cfg] in Hc, Hlt, Hcfg.
    assert (exists d, i + Z.of_nat base <= d
                       <= PVS.MinimaxConfig.Depth (PVS.MinimaxAI.cfg m)
            /\ PVS_counts 0 (PVS.Stats.fresh d) (PVS.MinimaxAI.st m1)
            /\ (0 < PVS.Stats.Evaluated (PVS.MinimaxAI.st m1)
                    + PVS.Stats.Visited (PVS.MinimaxAI.st m1))%N) as Hhere.
    { exists (i + Z.of_nat base). split; [lia|]. split; [exact Hc|].
      cbn in Hlt. lia. }
    assert (forall k' pe' bs',
              PVS.deepen moveGen n clock p limit base top (i + 1) k' pe' bs'
                ms1 v1 m1 = Some (ms', v', m') ->
              exists d, i + Z.of_nat base <= d
                         <= PVS.MinimaxConfig.Depth (PVS.MinimaxAI.cfg m)
              /\ PVS_counts 0 (PVS.Stats.fresh d) (PVS.MinimaxAI.st m')
              /\ (0 < PVS.Stats.Evaluated (PVS.MinimaxAI.st m')
                      + PVS.Stats.Visited (PVS.MinimaxAI.st m'))%N) as Hnext.
    { intros k' pe' bs' H'. apply IH in H'; [|lia].
      destruct H' as [(-> & _ & _)|(d & Hd' & Hc' & Hp')]; [exact Hhere|].
      exists d. rewrite Hcfg in Hd'. split; [lia|]. split; assumption. }
    right.
    destruct ((WinThreshold <? v1) || (v1 <? - WinThreshold));
      [injection H as <- <- <-; exact Hhere|].
    destruct (negb (_ =? _) && negb (limit =? 0)).
    + destruct (limit <? _); [injection H as <- <- <-; exact Hhere|].
      eapply Hnext, H.
    + eapply Hnext, H.
Qed.

(** The counters [Analyze] returns are those it was entered with (when
    the deepening loop did not run) or those of the last iteration alone:
    then [Depth] is a depth within [1 .. cfg.Depth], terminal evaluations
    are among the evaluations, every table hit, all-node and cut node is
    among the visited nodes, cuts at the first and second move are among
    the cut nodes (so the unsigned [CutNodes - Cut0 - Cut1] of the debug
    log does not wrap), every other cut added at least 4 to [CutSearch],
    and something was evaluated or visited.  The counters are taken as
    naturals, that is, short of 2^64. *)
Theorem Analyze_stats_account (E : Engine) (moveGen : PVS.MoveGen) clock
    (m : PVS.MinimaxAI.t E) p limit ms v st m' :
  PVS.Analyze moveGen clock m p limit = Some (ms, v, st, m') ->
  st = PVS.MinimaxAI.st m
  \/ (1 <= PVS.Stats.Depth st <= PVS.MinimaxConfig.Depth (PVS.MinimaxAI.cfg m)
      /\ (PVS.Stats.Terminal st <= PVS.Stats.Evaluated st)%N
      /\ (PVS.Stats.TTHits st + PVS.Stats.AllNodes st + PVS.Stats.CutNodes st
          <= PVS.Stats.Visited st)%N
      /\ (PVS.Stats.Cut0 st + PVS.Stats.Cut1 st <= PVS.Stats.CutNodes st)%N
      /\ (4 * (PVS.Stats.CutNodes st - PVS.Stats.Cut0 st - PVS.Stats.Cut1 st)
          <= PVS.Stats.CutSearch st)%N
      /\ (0 < PVS.Stats.Evaluated st + PVS.Stats.Visited st)%N).
Proof.
  unfold PVS.Analyze. destruct (negb (_ =? Size E p)); [discriminate|].
  destruct (if PVS.MinimaxConfig.Seed _ =? 0 then _ else _) as [seed k].
  destruct (match PVS.ttGet _ (Hash E p) with Some _ => _ | None => _ end)
    as [base ms0].
  destruct (PVS.deepen _ _ _ _ _ _ _ _ _ _ _ _ _ _) as [[[ms1 v1] m1]|] eqn:Hd;
    [|discriminate].
  cbn [mbind option_bind]. intros [= <- <- <- <-].
  apply PVS_deepen_counts in Hd; [|lia].
  destruct Hd as [(-> & _ & _)|(d & Hd & Hc & Hp)]; [left; reflexivity|].
  right. cbn [PVS.withRand PVS.withHeatMap PVS.MinimaxAI.cfg] in Hd.
  unfold PVS_counts in Hc. cbn -[N.add N.mul] in Hc.
  repeat split; try lia.
Qed.

Lemma Analyze_stats_account_witness :
  match PVS.Analyze (Toy.gen Examples.g3) Toy.clock0 Examples.ai5 0%nat 0 with
  | Some (_, _, st, _) =>
      (PVS.Stats.TTHits st + PVS.Stats.AllNodes st + PVS.Stats.CutNodes st
       <= PVS.Stats.Visited st)%N
      /\ (PVS.Stats.Cut0 st + PVS.Stats.Cut1 st <= PVS.Stats.CutNodes st)%N
  | None => False
  end.
Proof.
  destruct (PVS.Analyze (Toy.gen Examples.g3) Toy.clock0 Examples.ai5 0%nat 0)
    as [[[[ms v] st] m']|] eqn:H.
  - destruct (Analyze_stats_account _ _ _ _ _ _ _ _ _ _ H) as [Hst|Hacc].
    + rewrite Hst. vm_compute. split; discriminate.
    + tauto.
  - assert (from_option (fun _ => true) false
              (PVS.Analyze (Toy.gen Examples.g3) Toy.clock0 Examples.ai5 0%nat 0)
            = true) as Hs by (vm_compute; reflexivity).
    rewrite H in Hs. discriminate Hs.
Defined.

(** *** Searching with [NoTable] *)

(** Two searchers configured with [NoTable] that differ at most in what
    their tables hold. *)
Definition PVS_blind {E : Engine} (a b : PVS.MinimaxAI.t E) : Prop :=
  PVS.MinimaxConfig.NoTable (PVS.MinimaxAI.cfg a) = true
  /\ PVS.MinimaxAI.cfg b = PVS.MinimaxAI.cfg a
  /\ PVS.MinimaxAI.rand b = PVS.MinimaxAI.rand a
  /\ PVS.MinimaxAI.st b = PVS.MinimaxAI.st a
  /\ PVS.MinimaxAI.c b = PVS.MinimaxAI.c a
  /\ PVS.MinimaxAI.heatMap b = PVS.MinimaxAI.heatMap a
  /\ PVS.MinimaxAI.evaluate b = PVS.MinimaxAI.evaluate a.

(** Two runs from [a0] and a searcher blind like it end alike: both panic,
    or both return the same line and value, leave searchers that again
    differ at most in their tables, and counted no table hit. *)
Definition PVS_agree {E : Engine} (a0 : PVS.MinimaxAI.t E)
    (x y : option (list Move * Z * PVS.MinimaxAI.t E)) : Prop :=
  match x, y with
  | Some (ms, v, a), Some (ms', v', b) =>
      ms' = ms /\ v' = v /\ PVS_blind a b
      /\ PVS.Stats.TTHits (PVS.MinimaxAI.st a)
         = PVS.Stats.TTHits (PVS.MinimaxAI.st a0)
  | None, None => True
  | _, _ => False
  end.

Definition PVS_agreeLoop {E : Engine} (a0 : PVS.MinimaxAI.t E)
    (x y : option (list Move * bool * Z * PVS.MinimaxAI.t E)) : Prop :=
  match x, y with
  | Some (ms, i, v, a), Some (ms', i', v', b) =>
      ms' = ms /\ i' = i /\ v' = v /\ PVS_blind a b
      /\ PVS.Stats.TTHits (PVS.MinimaxAI.st a)
         = PVS.Stats.TTHits (PVS.MinimaxAI.st a0)
  | None, None => True
  | _, _ => False
  end.

Ltac agree_with H :=
  repeat (split; [reflexivity|]); split; [exact H|].

Lemma PVS_blind_ttGet {E : Engine} (a b : PVS.MinimaxAI.t E) h :
  PVS_blind a b -> PVS.ttGet a h = None /\ PVS.ttGet b h = None.
Proof.
  intros (Hn & Hc & _). unfold PVS.ttGet. rewrite Hc, Hn. auto.
Qed.

Lemma PVS_blind_mapSt {E : Engine} f (a b : PVS.MinimaxAI.t E) :
  PVS_blind a b -> PVS_blind (PVS.mapSt f a) (PVS.mapSt f b).
Proof.
  intros (Hn & Hc & Hr & Hs & Hk & Hh & He).
  unfold PVS_blind, PVS.mapSt, PVS.withSt; cbn. rewrite Hs. auto 10.
Qed.

Lemma PVS_blind_withRand {E : Engine} r (a b : PVS.MinimaxAI.t E) :
  PVS_blind a b -> PVS_blind (PVS.withRand a r) (PVS.withRand b r).
Proof.
  intros (Hn & Hc & Hr & Hs & Hk & Hh & He).
  unfold PVS_blind, PVS.withRand; cbn. auto 10.
Qed.

Lemma PVS_blind_withTable {E : Engine} t t' (a b : PVS.MinimaxAI.t E) :
  PVS_blind a b -> PVS_blind (PVS.withTable a t) (PVS.withTable b t').
Proof.
  intros (Hn & Hc & Hr & Hs & Hk & Hh & He).
  unfold PVS_blind, PVS.withTable; cbn. auto 10.
Qed.

Lemma PVS_blind_heatUp {E : Engine} (a b : PVS.MinimaxAI.t E) mv depth :
  PVS_blind a b ->
  match PVS.heatUp a mv depth, PVS.heatUp b mv depth with
  | Some a', Some b' =>
      PVS_blind a' b' /\ PVS.MinimaxAI.st a' = PVS.MinimaxAI.st a
  | None, None => True
  | _, _ => False
  end.
Proof.
  intros (Hn & Hc & Hr & Hs & Hk & Hh & He).
  unfold PVS.heatUp. rewrite Hc, Hh.
  destruct (_ <? 0); [exact I|].
  destruct (PVS.MinimaxAI.heatMap a !! _) as [h|]; [|exact I].
  cbn [mbind option_bind]. split; [|reflexivity].
  unfold PVS_blind, PVS.withHeatMap; cbn. auto 10.
Qed.

Lemma PVS_blind_leaf {E : Engine} (a b : PVS.MinimaxAI.t E) p :
  PVS_blind a b -> PVS_agree a (PVS.leaf a p) (PVS.leaf b p).
Proof.
  intros (Hn & Hc & Hr & Hs & Hk & Hh & He).
  unfold PVS.leaf.
  destruct (GameOver E p).1;
    cbn [PVS.mapSt PVS.withSt PVS.MinimaxAI.evaluate PVS.MinimaxAI.c];
    rewrite He, Hk;
    (destruct (PVS.MinimaxAI.evaluate a (PVS.MinimaxAI.c a) p) as [v|];
     [|exact I]);
    cbn [mbind option_bind PVS_agree]; unfold PVS_blind; cbn;
    rewrite Hs; auto 12.
Qed.

Definition PVS_search_blind {E : Engine} (search : PVS.SearchFn (E := E)) : Prop :=
  forall a b child pv α β,
    PVS_blind a b ->
    PVS_agree a (search a child pv α β) (search b child pv α β).

Lemma PVS_blind_searchChild {E : Engine} (search : PVS.SearchFn (E := E)) nf
    a b child pv α β :
  PVS_search_blind search -> PVS_blind a b ->
  PVS_agree a (PVS.searchChild search nf a child pv α β)
    (PVS.searchChild search nf b child pv α β).
Proof.
  intros Hs Hab. unfold PVS.searchChild. destruct nf; [|apply Hs, Hab].
  pose proof (Hs a b child pv (sub64 (neg64 α) 1) (neg64 α) Hab) as H1.
  destruct (search a child pv _ _) as [[[ms v] a1]|],
           (search b child pv _ _) as [[[ms' v'] b1]|];
    cbn [PVS_agree] in H1; try contradiction; [|exact I].
  destruct H1 as (-> & -> & Hab1 & Ht1). cbn [mbind option_bind].
  destruct ((α <? neg64 v) && (neg64 v <? β)).
  - pose proof (Hs a1 b1 child pv (neg64 β) (neg64 α) Hab1) as H2.
    destruct (search a1 child pv _ _) as [[[ms2 v2] a2]|],
             (search b1 child pv _ _) as [[[ms2' v2'] b2]|];
      cbn [PVS_agree] in H2 |- *; try contradiction; [|exact I].
    destruct H2 as (-> & -> & Hab2 & Ht2). agree_with Hab2; congruence.
  - cbn [PVS_agree]. agree_with Hab1. exact Ht1.
Qed.

Lemma PVS_blind_moveLoopWith {E : Engine} nullFirst
    (search : PVS.SearchFn (E := E)) depth β :
  PVS_search_blind search ->
  forall gen i a b best improved α,
    PVS_blind a b ->
    PVS_agreeLoop a
      (PVS.moveLoopWith nullFirst search depth β i gen a best improved α)
      (PVS.moveLoopWith nullFirst search depth β i gen b best improved α).
Proof.
  intros Hs. induction gen as [|[mv child] rest IH];
    intros i a b best improved α Hab.
  - cbn. auto.
  - cbn [PVS.moveLoopWith].
    pose proof (PVS_blind_searchChild search (nullFirst (S i)) a b child
                  (tailpv best) α β Hs Hab) as Hc.
    destruct (PVS.searchChild search _ a child _ α β) as [[[ms v] a1]|],
             (PVS.searchChild search _ b child _ α β) as [[[ms' v'] b1]|];
      cbn [PVS_agree] in Hc; try contradiction; [|exact I].
    destruct Hc as (-> & -> & Hab1 & Ht1). cbn [mbind option_bind].
    assert (forall best0 imp0 α0,
              PVS_agreeLoop a
                (PVS.moveLoopWith nullFirst search depth β (S i) rest a1 best0 imp0 α0)
                (PVS.moveLoopWith nullFirst search depth β (S i) rest b1 best0 imp0 α0))
      as Hrest.
    { intros best0 imp0 α0. specialize (IH (S i) a1 b1 best0 imp0 α0 Hab1).
      destruct (PVS.moveLoopWith _ _ _ _ _ rest a1 _ _ _) as [[[[m1 i1] v1] a2]|],
               (PVS.moveLoopWith _ _ _ _ _ rest b1 _ _ _) as [[[[m1' i1'] v1'] b2]|];
        cbn [PVS_agreeLoop] in IH |- *; try contradiction; [|exact I].
      destruct IH as (-> & -> & -> & Hab2 & Ht2).
      agree_with Hab2; congruence. }
    destruct (α <? neg64 v); [|apply Hrest].
    destruct (β <=? neg64 v); [|apply Hrest].
    pose proof (PVS_blind_heatUp _ _ mv depth
                  (PVS_blind_mapSt (PVS.recordCut (S i)) _ _ Hab1)) as Hh.
    destruct (PVS.heatUp (PVS.mapSt _ a1) mv depth) as [a2|],
             (PVS.heatUp (PVS.mapSt _ b1) mv depth) as [b2|];
      try contradiction; [|exact I].
    destruct Hh as [Hab2 Hst]. cbn [mbind option_bind PVS_agreeLoop].
    agree_with Hab2. rewrite Hst, <- Ht1. reflexivity.
Qed.

Lemma PVS_blind_minimax {E : Engine} (moveGen : PVS.MoveGen) :
  forall d (a b : PVS.MinimaxAI.t E) p ply pv α β,
    PVS_blind a b ->
    PVS_agree a (PVS.minimax moveGen d a p ply pv α β)
      (PVS.minimax moveGen d b p ply pv α β).
Proof.
  induction d as [|d IH]; intros a b p ply pv α β Hab.
  - cbn [PVS.minimax]. apply PVS_blind_leaf, Hab.
  - cbn [PVS.minimax].
    destruct (GameOver E p).1; [apply PVS_blind_leaf, Hab|].
    pose proof (PVS_blind_mapSt PVS.incVisited _ _ Hab) as Hab0.
    destruct (PVS_blind_ttGet _ _ (Hash E p) Hab0) as [-> ->].
    cbn [PVS.probe]. unfold PVS.searchNode, PVS.searchNodeWith.
    destruct Hab0 as (Hn & Hc & Hr & Hs & Hk & Hh & He).
    rewrite Hc, Hh, Hr.
    destruct (moveGen _ _ _ ply (S d) p None pv) as [gen r].
    assert (PVS_blind (PVS.withRand (PVS.mapSt PVS.incVisited a) r)
              (PVS.withRand (PVS.mapSt PVS.incVisited b) r)) as Hab1.
    { apply PVS_blind_withRand. unfold PVS_blind. auto 10. }
    pose proof (PVS_blind_moveLoopWith (fun i => (1 <? i)%nat)
                  (fun ai child pv a b => PVS.minimax moveGen d ai child (S ply) pv a b)
                  (S d) β
                  (fun a b child pv α β H => IH a b child (S ply) pv α β H)
                  gen 0%nat _ _ pv false α Hab1) as Hl.
    unfold PVS.moveLoop.
    destruct (PVS.moveLoopWith _ _ (S d) β 0 gen (PVS.withRand (PVS.mapSt _ a) r) _ _ _)
      as [[[[best imp] α1] a2]|],
      (PVS.moveLoopWith _ _ (S d) β 0 gen (PVS.withRand (PVS.mapSt _ b) r) _ _ _)
      as [[[[best' imp'] α1'] b2]|];
      cbn [PVS_agreeLoop] in Hl; try contradiction; [|exact I].
    destruct Hl as (-> & -> & -> & Hab2 & Ht2). cbn [mbind option_bind].
    unfold PVS.storeNode. destruct (best !! 0%nat) as [b0|]; [|exact I].
    cbn [mbind option_bind PVS_agree]. unfold PVS.ttStore.
    split; [reflexivity|]. split; [reflexivity|]. split.
    + destruct imp; cbn [negb];
        [|apply PVS_blind_mapSt]; apply PVS_blind_withTable, Hab2.
    + destruct imp; cbn in Ht2 |- *; exact Ht2.
Qed.

Lemma PVS_blind_deepen {E : Engine} (moveGen : PVS.MoveGen) clock
    (p : Position E) limit base top :
  forall n i k pe bs ms v (a b : PVS.MinimaxAI.t E),
    PVS_blind a b ->
    match PVS.deepen moveGen n clock p limit base top i k pe bs ms v a,
          PVS.deepen moveGen n clock p limit base top i k pe bs ms v b with
    | Some (ms1, v1, a'), Some (ms2, v2, b') =>
        ms2 = ms1 /\ v2 = v1 /\ PVS_blind a' b'
    | None, None => True
    | _, _ => False
    end.
Proof.
  induction n as [|n IH]; intros i k pe bs ms v a b Hab; [cbn; auto|].
  cbn [PVS.deepen].
  assert (PVS.MinimaxAI.cfg b = PVS.MinimaxAI.cfg a) as Hc by apply Hab.
  rewrite Hc.
  destruct (negb (_ <=? _)); [auto|].
  assert (PVS_blind (PVS.withSt a (PVS.Stats.fresh (i + Z.of_nat base)))
            (PVS.withSt b (PVS.Stats.fresh (i + Z.of_nat base)))) as Hab0.
  { destruct Hab as (Hn & _ & Hr & Hs & Hk & Hh & He).
    unfold PVS_blind, PVS.withSt; cbn. auto 10. }
  pose proof (PVS_blind_minimax moveGen (Z.to_nat (i + Z.of_nat base)) _ _ p
                0%nat ms (minEval - 1) (maxEval + 1) Hab0) as Hm.
  destruct (PVS.minimax moveGen _ (PVS.withSt a _) p 0 ms _ _) as [[[ms1 v1] a1]|],
           (PVS.minimax moveGen _ (PVS.withSt b _) p 0 ms _ _) as [[[ms1' v1'] b1]|];
    cbn [PVS_agree] in Hm; try contradiction; [|exact I].
  destruct Hm as (-> & -> & Hab1 & _). cbn [mbind option_bind].
  assert (PVS.MinimaxAI.cfg b1 = PVS.MinimaxAI.cfg a1) as Hc1 by apply Hab1.
  assert (PVS.MinimaxAI.st b1 = PVS.MinimaxAI.st a1) as Hs1 by apply Hab1.
  rewrite Hc1, Hs1.
  destruct ((WinThreshold <? v1) || (v1 <? - WinThreshold)); [auto|].
  destruct (negb (_ =? _) && negb (limit =? 0)).
  - destruct (limit <? _); [auto|]. apply IH, Hab1.
  - apply IH, Hab1.
Qed.

(** Under [cfg.NoTable] no search reads the table: run from the same
    searcher with any other table [t] in place of its own, [minimax] and
    [Analyze] panic alike or return the same line and value (and counters)
    and leave searchers that differ at most in their tables; and [minimax]
    counts no table hit. *)
Theorem NoTable_search_ignores_table (E : Engine) (moveGen : PVS.MoveGen)
    (m : PVS.MinimaxAI.t E) (t : gmap Z PVS.tableEntry.t) :
  PVS.MinimaxConfig.NoTable (PVS.MinimaxAI.cfg m) = true ->
  (forall d p ply pv α β,
     match PVS.minimax moveGen d m p ply pv α β,
           PVS.minimax moveGen d (PVS.withTable m t) p ply pv α β with
     | Some (ms, v, m1), Some (ms', v', m2) =>
         ms' = ms /\ v' = v
         /\ PVS.withTable m2 ∅ = PVS.withTable m1 ∅
         /\ PVS.Stats.TTHits (PVS.MinimaxAI.st m1)
            = PVS.Stats.TTHits (PVS.MinimaxAI.st m)
     | None, None => True
     | _, _ => False
     end)
  /\ (forall clock p limit,
        match PVS.Analyze moveGen clock m p limit,
              PVS.Analyze moveGen clock (PVS.withTable m t) p limit with
        | Some (ms, v, st, m1), Some (ms', v', st', m2) =>
            ms' = ms /\ v' = v /\ st' = st
            /\ PVS.withTable m2 ∅ = PVS.withTable m1 ∅
        | None, None => True
        | _, _ => False
        end).
Proof.
  intros Hn.
  assert (forall a b : PVS.MinimaxAI.t E,
            PVS_blind a b -> PVS.withTable b ∅ = PVS.withTable a ∅) as Hforget.
  { intros [? ? ? ? ? ? ?] [? ? ? ? ? ? ?] (_ & H1 & H2 & H3 & H4 & H5 & H6).
    cbn in *. subst. reflexivity. }
  assert (PVS_blind m (PVS.withTable m t)) as Hmt
    by (unfold PVS_blind, PVS.withTable; cbn; auto 10).
  split.
  - intros d p ply pv α β.
    pose proof (PVS_blind_minimax moveGen d _ _ p ply pv α β Hmt) as H.
    destruct (PVS.minimax moveGen d m p ply pv α β) as [[[ms v] m1]|],
             (PVS.minimax moveGen d (PVS.withTable m t) p ply pv α β)
               as [[[ms' v'] m2]|];
      cbn [PVS_agree] in H; try contradiction; [|exact I].
    destruct H as (-> & -> & Hb & Ht). auto.
  - intros clock p limit. unfold PVS.Analyze.
    cbn [PVS.withTable PVS.withHeatMap PVS.MinimaxAI.cfg PVS.MinimaxAI.heatMap].
    destruct (negb (_ =? Size E p)); [exact I|].
    destruct (if PVS.MinimaxConfig.Seed (PVS.MinimaxAI.cfg m) =? 0
              then (unixSeconds (clock 0%nat), 1%nat)
              else (PVS.MinimaxConfig.Seed (PVS.MinimaxAI.cfg m), 0%nat))
      as [seed k].
    assert (PVS_blind
              (PVS.withRand
                 (PVS.withHeatMap m
                    (map (fun v => v `div` 2) (PVS.MinimaxAI.heatMap m)))
                 (Some (NewSource E seed)))
              (PVS.withRand
                 (PVS.withHeatMap (PVS.withTable m t)
                    (map (fun v => v `div` 2) (PVS.MinimaxAI.heatMap m)))
                 (Some (NewSource E seed)))) as Hab
      by (unfold PVS_blind, PVS.withRand; cbn; auto 10).
    destruct (PVS_blind_ttGet _ _ (Hash E p) Hab) as [-> ->].
    cbn [PVS.withRand PVS.withHeatMap PVS.withTable PVS.MinimaxAI.cfg
         PVS.MinimaxAI.rand PVS.MinimaxAI.st PVS.MinimaxAI.c
         PVS.MinimaxAI.heatMap PVS.MinimaxAI.evaluate PVS.MinimaxAI.table]
      in Hab |- *.
    match type of Hab with
    | PVS_blind ?a ?b =>
        pose proof (PVS_blind_deepen moveGen clock p limit 0%nat (clock k)
                      (Z.to_nat (PVS.MinimaxConfig.Depth (PVS.MinimaxAI.cfg m)
                                 - Z.of_nat 0))
                      1 (S k) 0%N 0%N [] 0 a b Hab) as Hd
    end.
    match type of Hd with
    | match ?x with _ => _ end =>
        destruct x as [[[ms1 v1] a1]|];
        match type of Hd with
        | match ?y with _ => _ end => destruct y as [[[ms2 v2] b1]|]
        end
    end; try contradiction; [|exact I].
    destruct Hd as (-> & -> & Hb). cbn [mbind option_bind].
    split; [reflexivity|]. split; [reflexivity|].
    split; [apply Hb|apply Hforget, Hb].
Qed.

Lemma NoTable_search_ignores_table_witness :
  match PVS.Analyze (Toy.gen Examples.g3) Toy.clock0 Examples.ai6 0%nat 0,
        PVS.Analyze (Toy.gen Examples.g3) Toy.clock0
          (PVS.withTable Examples.ai6 {[ slot 200 := Examples.te6 ]}) 0%nat 0 with
  | Some (ms, v, st, m1), Some (ms', v', st', m2) =>
      ms' = ms /\ v' = v /\ st' = st
      /\ PVS.withTable m2 ∅ = PVS.withTable m1 ∅
  | None, None => True
  | _, _ => False
  end.
Proof.
  apply (proj2 (NoTable_search_ignores_table (Toy.engine Examples.g3)
                  (Toy.gen Examples.g3) Examples.ai6
                  {[ slot 200 := Examples.te6 ]} eq_refl)
           Toy.clock0 0%nat 0).
Defined.

(** *** What decides the outputs of [Analyze] *)





(** *** The range of scores and search values *)

(** C2 (amended). The evaluator's score of a decided position, with
    [d = move_number - stones] of the winner and [|d| < 2^29], is
    [maxEval - d] or [minEval + d] and lies in [[minEval, maxEval]]
    exactly when [d >= 0], that is, when the winner holds no more stones
    than plies were played.  Whenever the evaluator's scores do lie in
    that range (and the values the table holds at entry do, and every
    position that is not over yields a move), every value [minimax]
    returns under a window inside [(minEval-1, maxEval+1)], at any depth,
    and the value [Analyze] returns lie in [[minEval, maxEval]]. *)
Theorem value_range (E : Engine) (moveGen : PVS.MoveGen) (m : PVS.MinimaxAI.t E) :
  (forall (w : Weights) (c : Constants E) p winner,
     GameOver E p = (true, winner) ->
     winner <> NoColor ->
     - 2^29 < MoveNumber E p - stonesOf E p winner < 2^29 ->
     exists v,
       evaluate E w c p = Some v
       /\ v = (if Color_eqb winner (ToMove E p)
               then maxEval - (MoveNumber E p - stonesOf E p winner)
               else minEval + (MoveNumber E p - stonesOf E p winner))
       /\ (inEval v <-> 0 <= MoveNumber E p - stonesOf E p winner))
  /\ ((forall p v,
         PVS.MinimaxAI.evaluate m (PVS.MinimaxAI.c m) p = Some v -> inEval v) ->
      yieldsSome moveGen ->
      PVS_tableBounded (PVS.MinimaxAI.table m) ->
      (forall d p ply pv α β ms v m',
         inWindow α β ->
         PVS.minimax moveGen d m p ply pv α β = Some (ms, v, m') ->
         inEval v)
      /\ (forall clock p limit ms v st m',
            PVS.Analyze moveGen clock m p limit = Some (ms, v, st, m') ->
            inEval v)).
Proof.
  split.
  - intros w c p winner Hover Hn Hd. unfold evaluate. rewrite Hover.
    assert (2^29 = 536870912) as H29 by reflexivity.
    rewrite H29 in Hd. unfold inEval. rewrite minEval_val, maxEval_val.
    destruct (Color_eqb winner (ToMove E p)).
    + exists (1073741824 - (MoveNumber E p - stonesOf E p winner)).
      split; [|split; [reflexivity|lia]].
      destruct winner; try congruence; cbn [stonesOf] in *;
        rewrite add64_sub64, wrap64_id; try (f_equal; lia);
        unfold int64_range; lia.
    + exists (-1073741824 + (MoveNumber E p - stonesOf E p winner)).
      split; [|split; [reflexivity|lia]].
      destruct winner; try congruence; cbn [stonesOf] in *;
        rewrite sub64_add64, wrap64_id; try (f_equal; lia);
        unfold int64_range; lia.
  - intros Hev Hsome Ht. split.
    + intros d p ply pv α β ms v m' Hw H.
      eapply (PVS_minimax_bounded moveGen m Hev Hsome);
        [apply PVS_frame_refl| | |]; eassumption.
    + intros clock p limit ms v st m' HA. unfold PVS.Analyze in HA.
      destruct (negb _); [discriminate|].
      destruct (if PVS.MinimaxConfig.Seed _ =? 0 then _ else _) as [seed k].
      destruct (match PVS.ttGet _ (Hash E p) with Some _ => _ | None => _ end)
        as [base ms0].
      destruct (PVS.deepen moveGen _ clock p limit base _ 1 _ 0 0 ms0 0 _)
        as [[[ms1 v1] m1]|] eqn:Hd; [|discriminate].
      cbn [mbind option_bind] in HA. injection HA as <- <- <- <-.
      eapply (PVS_deepen_bounded moveGen m clock p limit base _ Hev Hsome) in Hd.
      * apply Hd.
      * repeat split. cbn [PVS.withRand PVS.withHeatMap PVS.MinimaxAI.heatMap].
        apply length_map.
      * exact Ht.
      * unfold inEval. rewrite minEval_val, maxEval_val. lia.
Qed.

Lemma value_range_witness :
  (exists v,
     evaluate (Toy.engine Examples.g1) DefaultWeights tt 1%nat = Some v
     /\ v = minEval + (20 - 10) /\ inEval v)
  /\ match PVS.Analyze (Toy.gen Examples.g3) Toy.clock0 Examples.ai5 0%nat 0 with
     | Some (_, v, _, _) => inEval v
     | None => False
     end.
Proof.
  split.
  - destruct (proj1 (value_range (Toy.engine Examples.g1) (Toy.gen Examples.g1)
                       Examples.ai3) DefaultWeights tt 1%nat White eq_refl)
      as (v & Hv & Hval & Hr).
    + discriminate.
    + vm_compute. split; reflexivity.
    + exists v. split; [exact Hv|]. split; [exact Hval|].
      apply Hr. vm_compute. discriminate.
  - destruct (PVS.Analyze (Toy.gen Examples.g3) Toy.clock0 Examples.ai5 0%nat 0)
      as [[[[ms v] st] m']|] eqn:H.
    + refine (proj2 (proj2 (value_range (Toy.engine Examples.g3)
                              (Toy.gen Examples.g3) Examples.ai5)
                       Toy_g3_evalBounded Toy_g3_yieldsSome _)
                Toy.clock0 0%nat 0 ms v st m' H).
      intros k e Hk. unfold Examples.ai5 in Hk. cbn [PVS.MinimaxAI.table] in Hk.
      rewrite lookup_empty in Hk. discriminate Hk.
    + assert (from_option (fun _ => true) false
                (PVS.Analyze (Toy.gen Examples.g3) Toy.clock0 Examples.ai5 0%nat 0)
              = true) as Hs by (vm_compute; reflexivity).
      rewrite H in Hs. discriminate Hs.
Defined.

(** The claim as stated fails on a finished game in which the winner
    holds more stones than plies were played, as after the shortest road:
    on [g2] (eleven plies, sixteen stones) the evaluator returns
    [minEval - 5], below [minEval], and so does a search of that
    position. *)
Lemma value_out_of_range :
  (GameOver (Toy.engine Examples.g2) 0%nat).1 = true
  /\ evaluate (Toy.engine Examples.g2) DefaultWeights tt 0%nat = Some (minEval - 5)
  /\ ~ inEval (minEval - 5)
  /\ match PVS.Analyze (Toy.gen Examples.g2) Toy.clock0 Examples.ai01 0%nat 0 with
     | Some (_, v, _, _) => v = minEval - 5
     | None => False
     end.
Proof.
  split; [reflexivity|]. split; [vm_compute; reflexivity|].
  split; [unfold inEval; rewrite minEval_val, maxEval_val; lia|].
  vm_compute. reflexivity.
Qed.

(** *** The move [Analyze] and [GetMove] return *)

(** C8 (amended). On a position of the searcher's board size that is not
    over, with [cfg.Depth >= 1], [Analyze] returns a line that is not
    empty and begins with a move that applies to the position, and
    [GetMove] returns that move.  This rests on the evaluator returning,
    on the generator yielding, for a position that is not over, at least
    one move, only moves that apply and only moves on the board the heat
    map was sized for, and on the exact root entry the table may hold
    carrying a move of this position (no hash collision). *)
Theorem Analyze_returns_legal_move (E : Engine) (moveGen : PVS.MoveGen) clock
    (m : PVS.MinimaxAI.t E) p limit :
  PVS.MinimaxConfig.Size (PVS.MinimaxAI.cfg m) = Size E p ->
  (GameOver E p).1 = false ->
  1 <= PVS.MinimaxConfig.Depth (PVS.MinimaxAI.cfg m) ->
  (forall q, is_Some (PVS.MinimaxAI.evaluate m (PVS.MinimaxAI.c m) q)) ->
  yieldsSome moveGen ->
  yieldsLegal moveGen p ->
  yieldsOnBoard moveGen (PVS.MinimaxConfig.Size (PVS.MinimaxAI.cfg m))
    (length (PVS.MinimaxAI.heatMap m)) ->
  (forall te, PVS.ttGet m (Hash E p) = Some te ->
              PVS.tableEntry.bound te = exactBound ->
              pMove E p (PVS.tableEntry.m te) <> None) ->
  exists mv rest v st m',
    PVS.Analyze moveGen clock m p limit = Some (mv :: rest, v, st, m')
    /\ pMove E p mv <> None
    /\ PVS.GetMove moveGen clock m p limit = Some (mv, m').
Proof.
  intros Hsize Hover Hdepth Hev Hsome Hlegal Hboard Hte.
  assert (exists mv rest v st m',
            PVS.Analyze moveGen clock m p limit = Some (mv :: rest, v, st, m')
            /\ pMove E p mv <> None) as (mv & rest & v & st & m' & HA & Hl).
  { unfold PVS.Analyze. rewrite Hsize, Z.eqb_refl. cbn [negb].
    change (PVS.MinimaxAI.cfg (PVS.withHeatMap m ?h)) with (PVS.MinimaxAI.cfg m).
    destruct (if PVS.MinimaxConfig.Seed (PVS.MinimaxAI.cfg m) =? 0 then _ else _)
      as [seed k].
    change (PVS.ttGet (PVS.withRand ?a ?r) (Hash E p))
      with (PVS.ttGet m (Hash E p)).
    change (PVS.MinimaxAI.cfg (PVS.withRand ?a ?r)) with (PVS.MinimaxAI.cfg m).
    set (bm := match PVS.ttGet m (Hash E p) with Some _ => _ | None => _ end).
    assert ((forall mv, bm.2 !! 0%nat = Some mv -> pMove E p mv <> None)
            /\ (bm.2 = [] -> bm.1 = 0%nat)) as [Hb1 Hb2].
    { subst bm. destruct (PVS.ttGet m (Hash E p)) as [te|] eqn:Hget.
      - destruct (boundType_eqb (PVS.tableEntry.bound te) exactBound) eqn:Hbd.
        + apply boundType_eqb_eq in Hbd. cbn [fst snd]. split.
          * intros mv [= <-]. apply (Hte te eq_refl Hbd).
          * discriminate.
        + cbn [fst snd]. split; [discriminate|reflexivity].
      - cbn [fst snd]. split; [discriminate|reflexivity]. }
    destruct bm as [base ms0]. cbn [fst snd] in Hb1, Hb2.
    match goal with
    | |- context [PVS.deepen moveGen ?n clock p limit base ?top ?i ?kk ?pe ?bs ms0 ?v0 ?mm] =>
        destruct (PVS_deepen_total moveGen m clock p limit base top Hev Hsome Hboard
                    n i kk pe bs ms0 v0 mm) as [[[ms1 v1] m1] Hd]
    end.
    { repeat split. cbn [PVS.withRand PVS.withHeatMap PVS.MinimaxAI.heatMap].
      apply length_map. }
    rewrite Hd. cbn [mbind option_bind].
    apply PVS_deepen_line in Hd; [|exact Hover|exact Hlegal|lia|exact Hb1].
    destruct Hd as [Hl Hem].
    destruct ms1 as [|mv rest].
    - exfalso. destruct (Hem eq_refl) as [Hnil Hcase].
      specialize (Hb2 Hnil). subst base.
      change (PVS.MinimaxAI.cfg (PVS.withRand ?a ?r)) with (PVS.MinimaxAI.cfg m)
        in Hcase.
      change (PVS.MinimaxAI.cfg (PVS.withHeatMap ?a ?r)) with (PVS.MinimaxAI.cfg m)
        in Hcase.
      lia.
    - exists mv, rest, v1, (PVS.MinimaxAI.st m1), m1. split; [reflexivity|].
      apply Hl. reflexivity. }
  exists mv, rest, v, st, m'. split; [exact HA|]. split; [exact Hl|].
  unfold PVS.GetMove. rewrite HA. reflexivity.
Qed.

Lemma Analyze_returns_legal_move_witness :
  exists mv rest v st m',
    PVS.Analyze (Toy.gen Examples.g3) Toy.clock0 Examples.ai5 0%nat 0
    = Some (mv :: rest, v, st, m')
    /\ pMove (Toy.engine Examples.g3) 0%nat mv <> None
    /\ PVS.GetMove (Toy.gen Examples.g3) Toy.clock0 Examples.ai5 0%nat 0
       = Some (mv, m').
Proof.
  apply (Analyze_returns_legal_move (Toy.engine Examples.g3) (Toy.gen Examples.g3)
           Toy.clock0 Examples.ai5 0%nat 0 eq_refl eq_refl).
  - vm_compute. discriminate.
  - intros q. eexists. reflexivity.
  - exact Toy_g3_yieldsSome.
  - apply Toy_gen_yieldsLegal.
  - exact Toy_g3_yieldsOnBoard.
  - intros te Hte. vm_compute in Hte. discriminate Hte.
Defined.

(** The claim as stated fails for a searcher left at [Depth = 0]: at the
    root of [g1], which is not over, [Analyze] returns an empty line and
    [GetMove] panics on [ms[0]]. *)
Lemma empty_line_at_depth_zero :
  (GameOver (Toy.engine Examples.g1) 0%nat).1 = false
  /\ (exists st m',
        PVS.Analyze (Toy.gen Examples.g1) Toy.clock0 Examples.ai0 0%nat 0
        = Some ([], 0, st, m'))
  /\ PVS.GetMove (Toy.gen Examples.g1) Toy.clock0 Examples.ai0 0%nat 0 = None.
Proof.
  split; [reflexivity|]. split; [eexists _, _; reflexivity|reflexivity].
Qed.

(** *** The reordering after a slide *)

Lemma swap_same (a : list Move) x c :
  swap (length a) (length a) (a ++ x :: c) = Some (a ++ x :: c).
Proof.
  unfold swap. rewrite (list_lookup_middle a c x (length a) eq_refl).
  cbn [mbind option_bind]. f_equal.
  replace (length a) with (length a + 0)%nat by lia.
  rewrite !insert_app_r. reflexivity.
Qed.

Lemma swap_apart (a : list Move) y b x c :
  swap (length a) (length a + S (length b)) (a ++ y :: b ++ x :: c)
  = Some (a ++ x :: b ++ y :: c).
Proof.
  assert ((a ++ y :: b ++ x :: c) !! length a = Some y) as H1
    by (apply list_lookup_middle; reflexivity).
  assert ((a ++ y :: b ++ x :: c) !! (length a + S (length b))%nat = Some x) as H2.
  { rewrite lookup_app_r by lia.
    replace (length a + S (length b) - length a)%nat with (S (length b)) by lia.
    change ((b ++ x :: c) !! length b = Some x).
    apply list_lookup_middle; reflexivity. }
  unfold swap. rewrite H1. cbn [mbind option_bind]. rewrite H2.
  cbn [mbind option_bind]. f_equal.
  rewrite insert_app_r.
  replace (length a) with (length a + 0)%nat at 1 by lia.
  rewrite insert_app_r. f_equal.
  change (x :: <[length b := y]> (b ++ x :: c) = x :: b ++ y :: c). f_equal.
  replace (length b) with (length b + 0)%nat at 1 by lia.
  rewrite insert_app_r. reflexivity.
Qed.

(** A move the scan brings forward: the table's move, or one on the
    square of the line's first move. *)
Definition candidate {E : Engine} (pv0 : Move) (te : option TablePV.tableEntry.t)
    (x : Move) : bool :=
  tableMove (E := E) te x || sameSquare pv0 x.

(** The scan past the line's first move: with the front slots [front]
    filled, the moves passed over in [mid], and [rest] still to come, none
    of it the line's first move again, the candidates of [rest] join the
    front in their order and the others stay behind them. *)
Lemma reorderFrom_partition {E : Engine} pv0 te :
  lineOK te ->
  forall rest front mid n,
    front <> [] ->
    Forall (fun x => candidate (E := E) pv0 te x = false) mid ->
    Forall (fun x => Equal E x pv0 = false) rest ->
    (length rest <= n)%nat ->
    exists mid',
      TablePV.reorderFrom (E := E) n pv0 te (length front + length mid)
        (length front) (front ++ mid ++ rest)
      = Some (front ++ filter (fun x => candidate (E := E) pv0 te x = true) rest ++ mid')
      /\ mid' ≡ₚ mid ++ filter (fun x => candidate (E := E) pv0 te x = false) rest
      /\ Forall (fun x => candidate (E := E) pv0 te x = false) mid'.
Proof.
  intros Hok. induction rest as [|x rest IH]; intros front mid n Hfront Hmid Hrest Hn.
  - exists mid. rewrite !app_nil_r. split; [|split; [reflexivity|exact Hmid]].
    destruct n as [|n]; [reflexivity|]. cbn [TablePV.reorderFrom].
    rewrite lookup_ge_None_2; [reflexivity|]. rewrite length_app. lia.
  - destruct n as [|n]; [cbn in Hn; lia|]. cbn [length] in Hn.
    apply Forall_cons in Hrest. destruct Hrest as [Hx Hrest].
    cbn [TablePV.reorderFrom].
    assert ((front ++ mid ++ x :: rest) !! (length front + length mid)%nat = Some x)
      as Hlook.
    { rewrite app_assoc. rewrite <- length_app.
      apply list_lookup_middle. reflexivity. }
    rewrite Hlook, Hx.
    assert ((length front <? length (front ++ mid ++ x :: rest))%nat = true) as Hj.
    { apply Nat.ltb_lt. rewrite !length_app. cbn [length]. lia. }
    rewrite Hj. cbn [andb].
    (* the scan after [x] was brought forward *)
    assert (candidate (E := E) pv0 te x = true ->
            exists mid',
              (swap (length front) (length front + length mid)
                 (front ++ mid ++ x :: rest)
               ≫= fun moves' =>
                    TablePV.reorderFrom (E := E) n pv0 te
                      (S (length front + length mid)) (S (length front)) moves')
              = Some (front
                      ++ filter (fun x => candidate (E := E) pv0 te x = true) (x :: rest)
                      ++ mid')
              /\ mid' ≡ₚ mid ++ filter (fun x => candidate (E := E) pv0 te x = false)
                                  (x :: rest)
              /\ Forall (fun x => candidate (E := E) pv0 te x = false) mid') as Hfwd.
    { intros Hc.
      rewrite filter_cons_True by exact Hc.
      rewrite filter_cons_False by (rewrite Hc; discriminate).
      destruct mid as [|y mid0].
      - cbn [length app]. rewrite Nat.add_0_r. rewrite swap_same.
        cbn [mbind option_bind].
        destruct (IH (front ++ [x]) [] n) as (mid' & Hr & Hp & Hf);
          [destruct front; discriminate|constructor|exact Hrest|lia|].
        rewrite length_app in Hr. cbn [length app] in Hr.
        rewrite Nat.add_0_r in Hr.
        replace (length front + 1)%nat with (S (length front)) in Hr by lia.
        rewrite <- app_assoc in Hr. cbn [app] in Hr.
        exists mid'. split; [|split; assumption].
        rewrite Hr. rewrite <- app_assoc. reflexivity.
      - cbn [length]. change ((y :: mid0) ++ x :: rest) with (y :: mid0 ++ x :: rest).
        rewrite swap_apart. cbn [mbind option_bind].
        apply Forall_cons in Hmid. destruct Hmid as [Hy Hmid0].
        destruct (IH (front ++ [x]) (mid0 ++ [y]) n) as (mid' & Hr & Hp & Hf);
          [destruct front; discriminate| |exact Hrest|lia|].
        { apply Forall_app. split; [exact Hmid0|]. constructor; [exact Hy|constructor]. }
        rewrite !length_app in Hr. cbn [length] in Hr.
        replace (length front + 1 + (length mid0 + 1))%nat
          with (S (length front + S (length mid0))) in Hr by lia.
        replace (length front + 1)%nat with (S (length front)) in Hr by lia.
        replace ((front ++ [x]) ++ (mid0 ++ [y]) ++ rest)
          with (front ++ x :: mid0 ++ y :: rest) in Hr
          by (rewrite <- !app_assoc; reflexivity).
        exists mid'. split; [|split; [|exact Hf]].
        + rewrite Hr. rewrite <- app_assoc. reflexivity.
        + rewrite Hp. rewrite <- app_assoc. cbn [app].
          rewrite <- Permutation_middle. rewrite Permutation_middle. reflexivity. }
    (* the scan after [x] was passed over *)
    assert (candidate (E := E) pv0 te x = false ->
            exists mid',
              TablePV.reorderFrom (E := E) n pv0 te
                (S (length front + length mid)) (length front)
                (front ++ mid ++ x :: rest)
              = Some (front
                      ++ filter (fun x => candidate (E := E) pv0 te x = true) (x :: rest)
                      ++ mid')
              /\ mid' ≡ₚ mid ++ filter (fun x => candidate (E := E) pv0 te x = false)
                                  (x :: rest)
              /\ Forall (fun x => candidate (E := E) pv0 te x = false) mid') as Hskip.
    { intros Hc.
      rewrite filter_cons_False by (rewrite Hc; discriminate).
      rewrite filter_cons_True by exact Hc.
      destruct (IH front (mid ++ [x]) n) as (mid' & Hr & Hp & Hf);
        [exact Hfront| |exact Hrest|lia|].
      { apply Forall_app. split; [exact Hmid|]. constructor; [exact Hc|constructor]. }
      rewrite length_app in Hr. cbn [length] in Hr.
      replace (length front + (length mid + 1))%nat
        with (S (length front + length mid)) in Hr by lia.
      rewrite <- app_assoc in Hr. cbn [app] in Hr.
      exists mid'. split; [exact Hr|]. split; [|exact Hf].
      rewrite Hp. rewrite <- app_assoc. reflexivity. }
    destruct te as [e|].
    + destruct (TablePV.tableEntry.ms e) as [|t0 ts] eqn:Hms;
        [destruct (Hok e eq_refl Hms)|].
      cbn [lookup list_lookup mbind option_bind].
      destruct (Equal E t0 x) eqn:Ht.
      * apply Hfwd. unfold candidate, tableMove. rewrite Hms, Ht. reflexivity.
      * destruct ((X x =? X pv0) && (Y x =? Y pv0)) eqn:Hsq;
          [apply Hfwd|apply Hskip];
          unfold candidate, tableMove, sameSquare; rewrite Hms, Ht, Hsq;
          reflexivity.
    + destruct ((X x =? X pv0) && (Y x =? Y pv0)) eqn:Hsq;
        [apply Hfwd|apply Hskip];
        unfold candidate, tableMove, sameSquare; rewrite Hsq; reflexivity.
Qed.

(** C4 (amended). The reordering scans the moves from the front, and
    the moves it passes before the line's first move are left alone when
    none of them is the table's move or on that move's square.  On meeting
    the line's first move it swaps it to index 0.  If that move is a
    placement (kind below [SlideLeft]) the scan stops there: everything
    after it stays where it was, the table's move and moves on the same
    square included.  If it is a slide the scan goes on: the table's move
    and every move on the same square among those that follow are swapped,
    in their order, into the slots behind it, and the others come after
    them.  Without an incoming line nothing is reordered. *)
Theorem reorder_by_line (E : Engine) pv0 pvrest te pre m post :
  lineOK te ->
  Forall (plain (E := E) pv0 te) pre ->
  Equal E m pv0 = true ->
  (Typ m < SlideLeft E ->
   TablePV.reorder (E := E) (pv0 :: pvrest) te (pre ++ m :: post)
   = Some (match pre with
           | [] => m :: post
           | h :: pre' => m :: pre' ++ h :: post
           end))
  /\ (SlideLeft E <= Typ m ->
      Forall (fun x => Equal E x pv0 = false) post ->
      exists others,
        TablePV.reorder (E := E) (pv0 :: pvrest) te (pre ++ m :: post)
        = Some (m :: filter (fun x => candidate (E := E) pv0 te x = true) post
                  ++ others)
        /\ others ≡ₚ pre ++ filter (fun x => candidate (E := E) pv0 te x = false) post
        /\ Forall (fun x => candidate (E := E) pv0 te x = false) others)
  /\ TablePV.reorder (E := E) [] te (pre ++ m :: post) = Some (pre ++ m :: post).
Proof.
  intros Hok Hp Hm. split; [|split; [|reflexivity]].
  - intros Ht. apply reorder_placement_aux; assumption.
  - intros Ht Hpost. unfold TablePV.reorder.
    replace (length (pre ++ m :: post)) with (length pre + S (length post))%nat
      by (rewrite length_app; simpl; lia).
    pose proof (reorderFrom_skip_plain pv0 te Hok pre [] (S (length post)) 1%nat
                  (m :: post) Hp) as Hskip.
    cbn [app length Nat.add] in Hskip. rewrite Hskip.
    cbn [TablePV.reorderFrom].
    rewrite (list_lookup_middle pre post m (length pre) eq_refl). rewrite Hm.
    assert ((Typ m <? SlideLeft E) = false) as -> by (apply Z.ltb_ge; exact Ht).
    assert (Forall (fun x => candidate (E := E) pv0 te x = false) pre) as Hnc.
    { eapply Forall_impl; [exact Hp|]. intros x (_ & H1 & H2).
      unfold candidate. rewrite H1, H2. reflexivity. }
    destruct pre as [|h pre'].
    + change (swap 0 (length (@nil Move)) ([] ++ m :: post)) with (Some (m :: post)).
      cbn [mbind option_bind length].
      destruct (reorderFrom_partition (E := E) pv0 te Hok post [m] [] (length post))
        as (others & Hr & Hperm & Hf);
        [discriminate|constructor|exact Hpost|lia|].
      exists others. split; [exact Hr|]. split; assumption.
    + cbn [length app]. rewrite swap_front. cbn [mbind option_bind].
      apply Forall_cons in Hnc. destruct Hnc as [Hh Hpre'].
      destruct (reorderFrom_partition (E := E) pv0 te Hok post [m] (pre' ++ [h]) (length post))
        as (others & Hr & Hperm & Hf);
        [discriminate| |exact Hpost|lia|].
      { apply Forall_app. split; [exact Hpre'|]. constructor; [exact Hh|constructor]. }
      rewrite length_app in Hr. cbn [length app] in Hr.
      replace (1 + (length pre' + 1))%nat with (S (S (length pre'))) in Hr by lia.
      rewrite <- app_assoc in Hr. cbn [app] in Hr.
      exists others. split; [exact Hr|]. split; [|exact Hf].
      rewrite Hperm. rewrite <- app_assoc. cbn [app].
      rewrite <- Permutation_middle. reflexivity.
Qed.

Lemma reorder_by_line_witness :
  TablePV.reorder (E := Toy.engine Examples.g1) [Toy.place 1 0] (Some Examples.te1)
    [Toy.place 0 0; Toy.place 1 0; mkMove 1 0 2 []]
  = Some [Toy.place 1 0; Toy.place 0 0; mkMove 1 0 2 []]
  /\ exists others,
       TablePV.reorder (E := Toy.engine Examples.g1) [Toy.slideRight 0 0 [1]] None
         [Toy.place 1 1; Toy.slideRight 0 0 [1]; Toy.place 2 2; mkMove 0 0 6 [1]]
       = Some (Toy.slideRight 0 0 [1] :: mkMove 0 0 6 [1] :: others)
       /\ others ≡ₚ [Toy.place 1 1; Toy.place 2 2].
Proof.
  split.
  - refine (proj1 (reorder_by_line (Toy.engine Examples.g1) (Toy.place 1 0) []
                     (Some Examples.te1) [Toy.place 0 0] (Toy.place 1 0)
                     [mkMove 1 0 2 []] _ _ eq_refl) _).
    + intros e [= <-]. discriminate.
    + constructor; [|constructor]. repeat split.
    + reflexivity.
  - assert (lineOK None) as Hok by (intros e He; discriminate He).
    assert (Forall (plain (E := Toy.engine Examples.g1) (Toy.slideRight 0 0 [1]) None)
              [Toy.place 1 1]) as Hpl
      by (constructor; [|constructor]; repeat split).
    destruct (proj1 (proj2 (reorder_by_line (Toy.engine Examples.g1)
                              (Toy.slideRight 0 0 [1]) [] None [Toy.place 1 1]
                              (Toy.slideRight 0 0 [1])
                              [Toy.place 2 2; mkMove 0 0 6 [1]] Hok Hpl eq_refl)))
      as (others & Hr & Hperm & _).
    + vm_compute. discriminate.
    + constructor; [reflexivity|]. constructor; [reflexivity|constructor].
    + exists others. split; [exact Hr|exact Hperm].
Defined.

(** The claim as stated fails both ways.  With a slide as the line's
    first move the reordering is not skipped: the other slide of the same
    square is brought behind it.  With a placement it is skipped: neither
    the table's move [c3] nor the other placement on the same square moves
    forward. *)
Lemma reorder_as_specified_fails :
  SlideLeft (Toy.engine Examples.g1) <= Typ (Toy.slideRight 0 0 [1])
  /\ TablePV.reorder (E := Toy.engine Examples.g1) [Toy.slideRight 0 0 [1]] None
       [Toy.slideRight 0 0 [1]; Toy.place 1 1; mkMove 0 0 6 [1]]
     = Some [Toy.slideRight 0 0 [1]; mkMove 0 0 6 [1]; Toy.place 1 1]
  /\ Typ (Toy.place 1 0) < SlideLeft (Toy.engine Examples.g1)
  /\ TablePV.reorder (E := Toy.engine Examples.g1) [Toy.place 1 0]
       (Some (TablePV.tableEntry.mk 100 3 5 upperBound [Toy.place 2 2]))
       [Toy.place 1 0; Toy.place 0 0; Toy.place 2 2; mkMove 1 0 2 []]
     = Some [Toy.place 1 0; Toy.place 0 0; Toy.place 2 2; mkMove 1 0 2 []].
Proof.
  split; [vm_compute; discriminate|]. split; [reflexivity|].
  split; [reflexivity|reflexivity].
Qed.
